(** * Retrieval and fusion engine: a shallow embedding and its properties

    The development follows the Python sources of the service:
    [app/services/chunking.py], [app/services/embedding.py],
    [app/services/pgvector_store.py], [app/services/ingestion.py],
    [app/utils/rrf.py], [app/services/hybrid_retriever.py] and
    [app/services/orchestration.py].

    Conventions of the embedding.
    - A Python [str] is a [string]; one [ascii] stands for one code point
      below 256, so that [str.isspace], [str.lower] and the UTF-8 encoding
      are the exact ones on that range.
    - A Python [float] is the rational it stands for ([Q]) and its
      arithmetic is exact, except in the module [Binary64], where the
      scores of the rank fusion are computed in IEEE 754 doubles.
    - A [dict] whose iteration order is observed is an association list in
      insertion order ([PyDict]); a [dict] or table only read by key is a
      [gmap].
    - [uuid.uuid4] draws from an explicit supply, threaded as state.
    - Exceptions are the left summand of [result]. *)

From Stdlib Require Import ZArith QArith Ascii String DecimalNat DecimalString List
  Lia Bool.
From Stdlib Require SpecFloat.
From stdpp Require Import base option list sorting gmap strings.

Local Open Scope Z_scope.
Local Open Scope stdpp_scope.

(** ** Python strings *)

Module PyStr.

Definition LF : ascii := "010"%char.
Definition nl : string := String LF EmptyString.

(** [str.isspace] on one code point below 256: TAB..CR, FS..US, SPACE,
    NEL (0x85) and NBSP (0xA0). *)
Definition isspace (c : ascii) : bool :=
  let n := N_of_ascii c in
  ((9 <=? n) && (n <=? 13) || (28 <=? n) && (n <=? 32)
   || (n =? 133) || (n =? 160))%N.

Definition is_nl (c : ascii) : bool := Ascii.eqb c LF.

Definition nonempty (s : string) : bool :=
  match s with EmptyString => false | String _ _ => true end.

Fixpoint lstrip (s : string) : string :=
  match s with
  | EmptyString => EmptyString
  | String c s' => if isspace c then lstrip s' else s
  end.

Fixpoint rstrip (s : string) : string :=
  match s with
  | EmptyString => EmptyString
  | String c s' =>
      match rstrip s' with
      | EmptyString => if isspace c then EmptyString else String c EmptyString
      | r => String c r
      end
  end.

(** [s.strip()] *)
Definition strip (s : string) : string := rstrip (lstrip s).

(** Prepend a character to the field under construction. *)
Definition push (c : ascii) (fs : list string) : list string :=
  match fs with
  | f :: fs' => String c f :: fs'
  | [] => [String c EmptyString]
  end.

(** The fields of [s] between the characters selected by [sep], empty
    fields included: [s.split(ch)] for a one-character separator. *)
Fixpoint fields (sep : ascii -> bool) (s : string) : list string :=
  match s with
  | EmptyString => [EmptyString]
  | String c s' =>
      if sep c then EmptyString :: fields sep s' else push c (fields sep s')
  end.

(** [s.split("\n")] *)
Definition split_lines (s : string) : list string := fields is_nl s.

(** [s.split()]: runs of whitespace separate, empty fields are dropped. *)
Definition split (s : string) : list string :=
  filter (fun f => nonempty f = true) (fields isspace s).

(** [re.compile(r"\n{2,}").split(s)]: the separators are the maximal runs
    of two or more line feeds.  [in_sep] records that such a run is being
    consumed. *)
Fixpoint re_split_blank_aux (in_sep : bool) (s : string) : list string :=
  match s with
  | EmptyString => [EmptyString]
  | String c s' =>
      if is_nl c then
        if in_sep then re_split_blank_aux true s'
        else
          match s' with
          | String c2 _ =>
              if is_nl c2 then EmptyString :: re_split_blank_aux true s'
              else push c (re_split_blank_aux false s')
          | EmptyString => push c (re_split_blank_aux false s')
          end
      else push c (re_split_blank_aux false s')
  end.

Definition re_split_blank (s : string) : list string :=
  re_split_blank_aux false s.

(** [s[:n]] for [n >= 0] *)
Fixpoint take (n : nat) (s : string) : string :=
  match n, s with
  | S n', String c s' => String c (take n' s')
  | _, _ => EmptyString
  end.

(** [sep.join(l)] *)
Fixpoint join (sep : string) (l : list string) : string :=
  match l with
  | [] => EmptyString
  | [x] => x
  | x :: xs => x +:+ sep +:+ join sep xs
  end.

(** [str.lower] on one code point below 256: A..Z and the Latin-1 capitals
    0xC0..0xDE except the multiplication sign 0xD7. *)
Definition lower_char (c : ascii) : ascii :=
  let n := N_of_ascii c in
  if ((65 <=? n) && (n <=? 90)
      || (192 <=? n) && (n <=? 222) && negb (n =? 215))%N
  then ascii_of_N (n + 32) else c.

Fixpoint lower (s : string) : string :=
  match s with
  | EmptyString => EmptyString
  | String c s' => String (lower_char c) (lower s')
  end.

(** [sub in s] *)
Definition contains (s sub : string) : Prop :=
  exists pre post, s = pre +:+ sub +:+ post.

End PyStr.

(** ** Exceptions *)

Inductive exn : Type :=
| ZeroDivisionError
| KeyError (key : string)
| IndexError
| DataError (chunk_id : string)
| OperationalError
| GenerationError
| OverflowError.

Definition result (A : Type) : Type := exn + A.
Definition Ok {A} (a : A) : result A := inr a.
Definition Raise {A} (e : exn) : result A := inl e.

Definition rbind {A B} (m : result A) (k : A -> result B) : result B :=
  match m with
  | inl e => inl e
  | inr a => k a
  end.

(** ** Python sequences *)

(** [l[:n]] for any integer [n] *)
Definition slice_to {A} (n : Z) (l : list A) : list A :=
  if 0 <=? n then firstn (Z.to_nat n) l
  else firstn (length l - Z.to_nat (- n)) l.

(** [l * n] *)
Fixpoint seq_mul {A} (l : list A) (n : nat) : list A :=
  match n with
  | O => []
  | S n' => l ++ seq_mul l n'
  end.

(** ** The supply of UUIDs

    [uuid.uuid4()] is a draw from the operating system's entropy.  The
    supply is the sequence of values the process will draw; the state is the
    number of draws made so far. *)

Definition Gen (A : Type) : Type := nat -> A * nat.

Definition gret {A} (a : A) : Gen A := fun n => (a, n).
Definition gbind {A B} (m : Gen A) (k : A -> Gen B) : Gen B :=
  fun n => let '(a, n') := m n in k a n'.

Declare Scope gen_scope.
Delimit Scope gen_scope with gen.
Notation "x <- m ;; k" := (gbind m (fun x => k))
  (at level 100, m at next level, right associativity) : gen_scope.

Fixpoint gmapM {A B} (f : A -> Gen B) (l : list A) : Gen (list B) :=
  match l with
  | [] => gret []
  | x :: xs => (y <- f x ;; ys <- gmapM f xs ;; gret (y :: ys))%gen
  end.

(** ** Chunker ([app/services/chunking.py]) *)

Record Chunk : Type := mkChunk {
  chunk_id : string;
  document_id : string;
  parent_id : option string;
  level : string;
  content : string;
  metadata : gmap string string
}.

Section Chunker.

Variable uuid4 : nat -> string.

(** [str(uuid.uuid4())] *)
Definition fresh_uuid : Gen string := fun n => (uuid4 n, S n).

Definition _make_chunk (document_id : string) (parent_id : option string)
    (level content : string) (metadata : gmap string string) : Gen Chunk :=
  (cid <- fresh_uuid ;;
   gret (mkChunk cid document_id parent_id level (PyStr.strip content) metadata))%gen.

(** [[line.strip() for line in s.split("\n") if line.strip()]], the
    comprehension of [_extract_heading] and [_split_paragraphs] *)
Definition stripped_lines (s : string) : list string :=
  map PyStr.strip
    (filter (fun l => PyStr.nonempty (PyStr.strip l) = true) (PyStr.split_lines s)).

Definition _extract_heading (segment : string) : string * string :=
  match stripped_lines segment with
  | [] => ("Untitled Section", "")
  | heading :: rest =>
      (heading, if (1 <? Z.of_nat (length (heading :: rest)))
                then PyStr.join PyStr.nl rest else "")
  end.

Definition _split_sections (text : string) : list (string * string) :=
  map _extract_heading (PyStr.re_split_blank text).

Definition _split_paragraphs (document_id parent_id body : string)
    (metadata : gmap string string) : Gen (list Chunk) :=
  gmapM (fun paragraph =>
           (cid <- fresh_uuid ;;
            gret (mkChunk cid document_id (Some parent_id) "paragraph"
                          paragraph metadata))%gen)
        (stripped_lines body).

(** The body of the loop of [chunk_document] over the sections: the
    section chunk, then its paragraph chunks. *)
Definition chunk_section (document_id title_id : string)
    (metadata : gmap string string) (sec : string * string)
    : Gen (list Chunk) :=
  (section_chunk <- _make_chunk document_id (Some title_id) "section"
                                (fst sec) metadata ;;
   paragraph_chunks <- _split_paragraphs document_id
                         (chunk_id section_chunk) (snd sec) metadata ;;
   gret (section_chunk :: paragraph_chunks))%gen.

Definition chunk_document (document_id text : string)
    (metadata : gmap string string) : Gen (list Chunk) :=
  if negb (PyStr.nonempty (PyStr.strip text)) then gret []
  else
    (title_chunk <- _make_chunk document_id None "title"
                      (default (PyStr.take 80 text) (metadata !! "title"))
                      metadata ;;
     per_section <- gmapM (chunk_section document_id (chunk_id title_chunk)
                                         metadata)
                          (_split_sections text) ;;
     gret (title_chunk :: concat per_section))%gen.

End Chunker.

(** ** SHA-256 ([hashlib.sha256], FIPS 180-4)

    Words are integers in [0, 2^32) with the wrap-around written out; bytes
    are integers in [0, 256). *)

Module Sha256.

Definition w32 (x : Z) : Z := x mod 2 ^ 32.
Definition add32 (x y : Z) : Z := w32 (x + y).
Definition rotr (n x : Z) : Z :=
  Z.lor (Z.shiftr x n) (w32 (Z.shiftl x (32 - n))).
Definition not32 (x : Z) : Z := Z.lxor x (2 ^ 32 - 1).

Definition Ch (x y z : Z) : Z := Z.lxor (Z.land x y) (Z.land (not32 x) z).
Definition Maj (x y z : Z) : Z :=
  Z.lxor (Z.lxor (Z.land x y) (Z.land x z)) (Z.land y z).
Definition Sigma0 (x : Z) : Z :=
  Z.lxor (Z.lxor (rotr 2 x) (rotr 13 x)) (rotr 22 x).
Definition Sigma1 (x : Z) : Z :=
  Z.lxor (Z.lxor (rotr 6 x) (rotr 11 x)) (rotr 25 x).
Definition sigma0 (x : Z) : Z :=
  Z.lxor (Z.lxor (rotr 7 x) (rotr 18 x)) (Z.shiftr x 3).
Definition sigma1 (x : Z) : Z :=
  Z.lxor (Z.lxor (rotr 17 x) (rotr 19 x)) (Z.shiftr x 10).

(** The first 64 primes. *)
Definition primes : list Z :=
  [ 2; 3; 5; 7; 11; 13; 17; 19; 23; 29; 31; 37; 41; 43; 47; 53; 59; 61; 67;
    71; 73; 79; 83; 89; 97; 101; 103; 107; 109; 113; 127; 131; 137; 139; 149;
    151; 157; 163; 167; 173; 179; 181; 191; 193; 197; 199; 211; 223; 227;
    229; 233; 239; 241; 251; 257; 263; 269; 271; 277; 281; 283; 293; 307;
    311 ].

(** Integer cube root, one bit at a time from bit [n - 1] down. *)
Fixpoint icbrt_bits (n : nat) (x r : Z) : Z :=
  match n with
  | O => r
  | S n' =>
      let r' := r + 2 ^ Z.of_nat n' in
      icbrt_bits n' x (if r' * r' * r' <=? x then r' else r)
  end.

(** The round constants: the first 32 bits of the fractional parts of the
    cube roots of the first 64 primes. *)
Definition K : list Z :=
  Eval vm_compute in map (fun p => w32 (icbrt_bits 40 (p * 2 ^ 96) 0)) primes.

Record state : Type := mkState {
  ha : Z; hb : Z; hc : Z; hd : Z; he : Z; hf : Z; hg : Z; hh : Z
}.

(** The initial hash value: the first 32 bits of the fractional parts of
    the square roots of the first 8 primes. *)
Definition frac_sqrt (p : Z) : Z := w32 (Z.sqrt (p * 2 ^ 64)).

Definition H0 : state :=
  Eval vm_compute in
    mkState (frac_sqrt 2) (frac_sqrt 3) (frac_sqrt 5) (frac_sqrt 7)
            (frac_sqrt 11) (frac_sqrt 13) (frac_sqrt 17) (frac_sqrt 19).

(** Big-endian words of a block. *)
Fixpoint words (n : nat) (bs : list Z) : list Z :=
  match n with
  | O => []
  | S n' =>
      match bs with
      | b0 :: b1 :: b2 :: b3 :: rest =>
          (((b0 * 256 + b1) * 256 + b2) * 256 + b3) :: words n' rest
      | _ => []
      end
  end.

(** The message schedule, most recent word first. *)
Fixpoint extend (n : nat) (rev_w : list Z) : list Z :=
  match n with
  | O => rev_w
  | S n' =>
      let w2 := nth 1 rev_w 0 in
      let w7 := nth 6 rev_w 0 in
      let w15 := nth 14 rev_w 0 in
      let w16 := nth 15 rev_w 0 in
      extend n'
        (add32 (add32 (sigma1 w2) w7) (add32 (sigma0 w15) w16) :: rev_w)
  end.

Definition schedule (block : list Z) : list Z :=
  rev (extend 48 (rev (words 16 block))).

Definition round (s : state) (kw : Z * Z) : state :=
  let '(k, w) := kw in
  let t1 :=
    add32 (add32 (add32 (add32 (hh s) (Sigma1 (he s)))
                        (Ch (he s) (hf s) (hg s))) k) w in
  let t2 := add32 (Sigma0 (ha s)) (Maj (ha s) (hb s) (hc s)) in
  mkState (add32 t1 t2) (ha s) (hb s) (hc s)
          (add32 (hd s) t1) (he s) (hf s) (hg s).

Definition compress (s : state) (block : list Z) : state :=
  let r := fold_left round (combine K (schedule block)) s in
  mkState (add32 (ha s) (ha r)) (add32 (hb s) (hb r))
          (add32 (hc s) (hc r)) (add32 (hd s) (hd r))
          (add32 (he s) (he r)) (add32 (hf s) (hf r))
          (add32 (hg s) (hg r)) (add32 (hh s) (hh r)).

Fixpoint be_bytes (n : nat) (x : Z) : list Z :=
  match n with
  | O => []
  | S n' => (Z.shiftr x (8 * Z.of_nat n')) mod 256 :: be_bytes n' x
  end.

(** Padding: 0x80, zeros up to 56 modulo 64, then the bit length on 8
    bytes. *)
Definition pad (msg : list Z) : list Z :=
  let len := Z.of_nat (length msg) in
  let zeros := Z.to_nat ((55 - len) mod 64) in
  msg ++ [128] ++ repeat 0 zeros ++ be_bytes 8 (8 * len).

Fixpoint blocks (n : nat) (bs : list Z) (s : state) : state :=
  match n with
  | O => s
  | S n' => blocks n' (skipn 64 bs) (compress s (firstn 64 bs))
  end.

Definition digest_of_state (s : state) : list Z :=
  be_bytes 4 (ha s) ++ be_bytes 4 (hb s) ++ be_bytes 4 (hc s)
  ++ be_bytes 4 (hd s) ++ be_bytes 4 (he s) ++ be_bytes 4 (hf s)
  ++ be_bytes 4 (hg s) ++ be_bytes 4 (hh s).

(** [hashlib.sha256(msg).digest()] *)
Definition digest (msg : list Z) : list Z :=
  let p := pad msg in
  digest_of_state (blocks (Nat.div (length p) 64) p H0).

End Sha256.

(** ** Embedding adapter ([app/services/embedding.py]) *)

(** [c.encode("utf-8")] for one code point below 256 *)
Definition utf8_char (c : ascii) : list Z :=
  let n := Z.of_N (N_of_ascii c) in
  if n <? 128 then [n] else [192 + n / 64; 128 + n mod 64].

(** [text.encode("utf-8")] *)
Fixpoint utf8 (s : string) : list Z :=
  match s with
  | EmptyString => []
  | String c s' => utf8_char c ++ utf8 s'
  end.

(** [int(b) / 255.0] *)
Definition byte_to_float (b : Z) : Q := b # 255.

Definition _fallback_embedding_dim (text : string) (dim : Z) : list Q :=
  let digest := Sha256.digest (utf8 text) in
  let repeated :=
    slice_to dim
      (seq_mul digest (Z.to_nat (dim / Z.of_nat (length digest) + 1))) in
  map byte_to_float repeated.

(** The default argument [dim: int = 768]; [embed] never passes another. *)
Definition _fallback_embedding (text : string) : list Q :=
  _fallback_embedding_dim text 768.

(** [EmbeddingService.tokenize] *)
Definition tokenize (text : string) : list string :=
  map PyStr.lower
    (filter (fun token => PyStr.nonempty (PyStr.strip token) = true)
       (PyStr.split text)).

Section Embedder.

(** The sentence-transformers model, when it loaded: [self.model.encode]
    followed by [tolist]. *)
Variable model : option (list string -> list (list Q)).

(** [EmbeddingService.embed] *)
Definition embed (texts : list string) : list (list Q) :=
  match model with
  | Some encode => encode texts
  | None => map _fallback_embedding texts
  end.

End Embedder.

(** ** Chunk store ([app/services/pgvector_store.py]) *)

(** A record handed to [upsert_chunks] (the dicts built by [ingest]).
    [row.get("embedding")] and [row.get("sparse_tokens")] are [None] when
    the key is missing. *)
Record Payload : Type := mkPayload {
  p_chunk_id : string;
  p_document_id : string;
  p_parent_id : option string;
  p_level : string;
  p_content : string;
  p_metadata : gmap string string;
  p_embedding : option (list Q);
  p_sparse_tokens : option (list string)
}.

(** A row of [document_chunks], without its primary key [id]. *)
Record Row : Type := mkRow {
  col_document_id : string;
  col_parent_id : option string;
  col_level : string;
  col_content : string;
  col_metadata : gmap string string;
  col_embedding : option (list Q);
  col_sparse_tokens : option (list string);
  col_created_at : Z
}.

(** The table, keyed by [id]. *)
Abbreviation Table := (gmap string Row).

(** A session: the committed table and the view of the open transaction. *)
Record Session : Type := mkSession {
  committed : Table;
  working : Table
}.

Definition session_factory (db : Table) : Session := mkSession db db.
Definition commit (s : Session) : Table := working s.
Definition rollback (s : Session) : Table := committed s.

(** [with self.session_scope() as session: body]: commit when the body
    returns, roll back and re-raise when the body or the commit raises.
    [commit_fault] tells that [session.commit()] fails. *)
Definition session_scope {A} (commit_fault : bool) (db : Table)
    (body : Session -> Session * result A) : Table * result A :=
  let '(s, r) := body (session_factory db) in
  match r with
  | inr a =>
      if commit_fault then (rollback s, Raise OperationalError)
      else (commit s, Ok a)
  | inl e => (rollback s, Raise e)
  end.

Section Store.

(** [Vector(embedding_dim)]: the column accepts only that dimension. *)
Variable embedding_dim : Z.
(** [datetime.utcnow] at the i-th statement of the call. *)
Variable utcnow : nat -> Z.
(** The datastore fails the i-th statement of the call (lost connection,
    server error). *)
Variable fault : nat -> bool.
(** The datastore fails the commit of the call. *)
Variable commit_fault : bool.

(** The column check of [Vector(embedding_dim)]; [NULL] passes. *)
Definition dim_ok (e : option (list Q)) : bool :=
  match e with
  | None => true
  | Some v => Z.of_nat (length v) =? embedding_dim
  end.

(** [INSERT ... VALUES (...) ON CONFLICT (id) DO UPDATE SET content,
    metadata, embedding, sparse_tokens]; [created_at] takes its default on
    insert only. *)
Definition upsert_row (now : Z) (row : Payload) (t : Table) : Table :=
  match t !! p_chunk_id row with
  | None =>
      <[p_chunk_id row :=
          mkRow (p_document_id row) (p_parent_id row) (p_level row)
                (p_content row) (p_metadata row) (p_embedding row)
                (p_sparse_tokens row) now]> t
  | Some old =>
      <[p_chunk_id row :=
          mkRow (col_document_id old) (col_parent_id old) (col_level old)
                (p_content row) (p_metadata row) (p_embedding row)
                (p_sparse_tokens row) (col_created_at old)]> t
  end.

(** [session.execute(stmt)] for the i-th statement. *)
Definition execute (i : nat) (s : Session) (row : Payload) : result Session :=
  if fault i || negb (dim_ok (p_embedding row))
  then Raise (DataError (p_chunk_id row))
  else Ok (mkSession (committed s) (upsert_row (utcnow i) row (working s))).

(** [for row in rows: session.execute(stmt)] *)
Fixpoint execute_all (i : nat) (rows : list Payload) (s : Session)
    : Session * result unit :=
  match rows with
  | [] => (s, Ok tt)
  | row :: rest =>
      match execute i s row with
      | inl e => (s, Raise e)
      | inr s' => execute_all (S i) rest s'
      end
  end.

(** [PGVectorStore.upsert_chunks]: the new table and the returned count
    or the propagated exception. *)
Definition upsert_chunks (db : Table) (payloads : list Payload)
    : Table * result Z :=
  match payloads with
  | [] => (db, Ok 0)
  | _ =>
      let '(db', r) :=
        session_scope commit_fault db (execute_all 0 payloads) in
      (db', rbind r (fun _ => Ok (Z.of_nat (length payloads))))
  end.

End Store.

(** ** Ingestion pipeline ([app/services/ingestion.py]) *)

(** A table as returned by [TableExtractionService._extract_tables]. *)
Record ExtractedTable : Type := mkExtractedTable {
  table_id : string;
  title : string;
  csv : string
}.

Record IngestReport : Type := mkIngestReport {
  rep_chunks : Z;
  rep_tables : Z;
  rep_document_id : string
}.

Section Ingestion.

Variable uuid4 : nat -> string.
Variable model : option (list string -> list (list Q)).
(** [TableExtractionService.parse]: the document-conversion collaborator. *)
Variable parse : list Z -> string -> string * list ExtractedTable.
Variable embedding_dim : Z.
Variable utcnow : nat -> Z.
Variable fault : nat -> bool.
Variable commit_fault : bool.

(** [metadata.get("document_id") or str(uuid.uuid4())] *)
Definition resolve_document_id (metadata : gmap string string) : Gen string :=
  match metadata !! "document_id" with
  | Some d => if PyStr.nonempty d then gret d else fresh_uuid uuid4
  | None => fresh_uuid uuid4
  end.

(** One element of the comprehension [table_chunks]. *)
Definition table_chunk (document_id filename : string)
    (base_metadata : gmap string string) (table : ExtractedTable)
    : Gen Chunk :=
  (cid <- fresh_uuid uuid4 ;;
   gret (mkChunk cid document_id None "table" (csv table)
           (<["source_file" := filename]>
              (<["table_title" := title table]>
                 (<["table_id" := table_id table]> base_metadata)))))%gen.

(** The dict appended to [payloads] for one chunk and its vector. *)
Definition payload_of (chunk : Chunk) (vector : list Q) : Payload :=
  mkPayload (chunk_id chunk) (document_id chunk) (parent_id chunk)
            (level chunk) (content chunk)
            (<["level" := level chunk]> (metadata chunk))
            (Some vector) (Some (tokenize (content chunk))).

(** The chunks of a document: the chunker's, then one per non-empty table. *)
Definition document_chunks (document_id filename text : string)
    (tables : list ExtractedTable) (base_metadata : gmap string string)
    : Gen (list Chunk) :=
  (chunks <- chunk_document uuid4 document_id text base_metadata ;;
   table_chunks <- gmapM (table_chunk document_id filename base_metadata)
                     (filter (fun t => PyStr.nonempty (csv t) = true) tables) ;;
   gret (chunks ++ table_chunks))%gen.

(** The payloads [ingest] hands to the store. *)
Definition ingest_payloads (document_bytes : list Z) (filename : string)
    (metadata : gmap string string) : Gen (string * list ExtractedTable * list Payload) :=
  (document_id <- resolve_document_id metadata ;;
   let '(text, tables) := parse document_bytes filename in
   let base_metadata := <["document_id" := document_id]> metadata in
   chunks <- document_chunks document_id filename text tables base_metadata ;;
   let embeddings := embed model (map content chunks) in
   gret (document_id, tables,
         map (fun cv => payload_of (fst cv) (snd cv)) (zip chunks embeddings)))%gen.

(** [IngestionService.ingest], without the wall-clock [elapsed_ms] of its
    report: from the number of UUIDs drawn and the table to the outcome,
    the new number of draws and the new table. *)
Definition ingest (document_bytes : list Z) (filename : string)
    (metadata : gmap string string) (draws : nat) (db : Table)
    : result IngestReport * nat * Table :=
  let '((document_id, tables, payloads), draws') :=
    ingest_payloads document_bytes filename metadata draws in
  let '(db', stored) :=
    upsert_chunks embedding_dim utcnow fault commit_fault db payloads in
  (rbind stored (fun n =>
     Ok (mkIngestReport n (Z.of_nat (length tables)) document_id)),
   draws', db').

End Ingestion.

(** ** Dictionaries in insertion order *)

Module PyDict.

Definition t (V : Type) : Type := list (string * V).

(** [d.get(k)] *)
Fixpoint get {V} (d : t V) (k : string) : option V :=
  match d with
  | [] => None
  | (k', v) :: d' => if String.eqb k k' then Some v else get d' k
  end.

(** [d[k] = v]: a present key keeps its position, a new key goes last. *)
Fixpoint set {V} (d : t V) (k : string) (v : V) : t V :=
  match d with
  | [] => [(k, v)]
  | (k', v') :: d' =>
      if String.eqb k k' then (k, v) :: d' else (k', v') :: set d' k v
  end.

(** [d.setdefault(k, v)] *)
Definition setdefault {V} (d : t V) (k : string) (v : V) : t V :=
  match get d k with
  | Some _ => d
  | None => set d k v
  end.

(** [{k: v for k, v in l}] *)
Definition of_list {V} (l : list (string * V)) : t V :=
  fold_left (fun d kv => set d (fst kv) (snd kv)) l [].

Definition keys {V} (d : t V) : list string := map fst d.

End PyDict.

(** ** Sorting

    [sorted(l, key=key, reverse=True)] is stable: it orders by decreasing
    key and keeps elements with equal keys in their order in [l]. *)

Section Sorted.

Context {A : Type}.
Variable key : A -> Q.

Fixpoint insert_desc (x : A) (l : list A) : list A :=
  match l with
  | [] => [x]
  | y :: ys =>
      if Qle_bool (key y) (key x) then x :: y :: ys
      else y :: insert_desc x ys
  end.

Definition sorted_desc (l : list A) : list A :=
  fold_right insert_desc [] l.

End Sorted.

(** ** Reciprocal rank fusion ([app/utils/rrf.py]) *)

Record RrfState : Type := mkRrfState {
  accumulator : PyDict.t Q;
  provenance : PyDict.t string
}.

(** [accumulator[chunk_id] += x] on a [defaultdict(float)] *)
Definition acc_add (acc : PyDict.t Q) (chunk_id : string) (x : Q) : PyDict.t Q :=
  PyDict.set acc chunk_id (default 0%Q (PyDict.get acc chunk_id) + x)%Q.

(** The inner loop, from rank [rank] on. *)
Fixpoint rrf_items (k : Z) (source : string) (rank : Z)
    (items : list (string * Q)) (st : RrfState) : result RrfState :=
  match items with
  | [] => Ok st
  | (chunk_id, _score) :: rest =>
      if k + rank =? 0 then Raise ZeroDivisionError
      else
        rrf_items k source (rank + 1) rest
          (mkRrfState
             (acc_add (accumulator st) chunk_id (/ inject_Z (k + rank))%Q)
             (PyDict.setdefault (provenance st) chunk_id source))
  end.

(** The outer loop over [rankings.items()]. *)
Fixpoint rrf_sources (k : Z) (rankings : PyDict.t (list (string * Q)))
    (st : RrfState) : result RrfState :=
  match rankings with
  | [] => Ok st
  | (source, items) :: rest =>
      rbind (rrf_items k source 1 items st) (rrf_sources k rest)
  end.

(** The generator [(chunk_id, score, provenance[chunk_id]) for chunk_id,
    score in accumulator.items()]. *)
Fixpoint with_provenance (prov : PyDict.t string) (acc : PyDict.t Q)
    : result (list (string * Q * string)) :=
  match acc with
  | [] => Ok []
  | (chunk_id, score) :: rest =>
      match PyDict.get prov chunk_id with
      | None => Raise (KeyError chunk_id)
      | Some source =>
          rbind (with_provenance prov rest)
                (fun l => Ok ((chunk_id, score, source) :: l))
      end
  end.

Definition reciprocal_rank_fusion (rankings : PyDict.t (list (string * Q)))
    (k : Z) : result (list (string * Q * string)) :=
  rbind (rrf_sources k rankings (mkRrfState [] []))
    (fun st =>
       rbind (with_provenance (provenance st) (accumulator st))
         (fun l => Ok (sorted_desc (fun item => snd (fst item)) l))).

(** ** Hybrid retriever ([app/services/hybrid_retriever.py]) *)

Record Hit : Type := mkHit {
  hit_chunk_id : string;
  hit_document_id : string;
  hit_content : string;
  hit_level : string;
  hit_metadata : gmap string string;
  hit_score : Q
}.

(** [{**hit, "score": s}] *)
Definition with_score (h : Hit) (s : Q) : Hit :=
  mkHit (hit_chunk_id h) (hit_document_id h) (hit_content h) (hit_level h)
        (hit_metadata h) s.

(** A record of [fetch_sparse_corpus]. *)
Record CorpusDoc : Type := mkCorpusDoc {
  doc_chunk_id : string;
  doc_document_id : string;
  doc_content : string;
  doc_tokens : list string;
  doc_metadata : gmap string string
}.

(** [(hit["chunk_id"], hit["score"])] *)
Definition id_score (h : Hit) : string * Q := (hit_chunk_id h, hit_score h).

(** The generator [{**enriched[chunk_id], "score": fused_map[chunk_id]} for
    chunk_id in fused_map]. *)
Fixpoint enrich (enriched : PyDict.t Hit) (fused_map : PyDict.t Q)
    (ids : list string) : result (list Hit) :=
  match ids with
  | [] => Ok []
  | chunk_id :: rest =>
      match PyDict.get enriched chunk_id, PyDict.get fused_map chunk_id with
      | None, _ | _, None => Raise (KeyError chunk_id)
      | Some h, Some s =>
          rbind (enrich enriched fused_map rest)
                (fun l => Ok (with_score h s :: l))
      end
  end.

(** The body of [retrieve] after the two branch calls. *)
Definition fuse_hits (rrf_k : Z) (dense_hits sparse_hits : list Hit)
    (top_k : Z) : result (list Hit) :=
  rbind (reciprocal_rank_fusion
           [("dense", map id_score dense_hits);
            ("sparse", map id_score sparse_hits)] rrf_k)
    (fun fused =>
       let fused_map :=
         PyDict.of_list (map (fun item => (fst (fst item), snd (fst item))) fused) in
       let enriched :=
         PyDict.of_list (map (fun hit => (hit_chunk_id hit, hit))
                             (dense_hits ++ sparse_hits)) in
       rbind (enrich enriched fused_map (PyDict.keys fused_map))
         (fun l => Ok (slice_to top_k (sorted_desc hit_score l)))).

Section Retriever.

Variable model : option (list string -> list (list Q)).
(** [PGVectorStore.dense_search], answered by the datastore. *)
Variable dense_search : list Q -> Z -> list Hit.
(** [PGVectorStore.fetch_sparse_corpus()] *)
Variable corpus : list CorpusDoc.
(** [BM25Okapi(tokenized_docs, k1, b).get_scores(query_tokens)] *)
Variable bm25_get_scores : list (list string) -> list string -> list Q.
Variable rrf_k : Z.

Definition _dense_retrieval (query : string) (top_k : Z) : result (list Hit) :=
  match embed model [query] with
  | query_vec :: _ => Ok (dense_search query_vec top_k)
  | [] => Raise IndexError
  end.

(** One element of the comprehension [items]. *)
Definition sparse_item (ds : CorpusDoc * Q) : Hit :=
  mkHit (doc_chunk_id (fst ds)) (doc_document_id (fst ds))
        (doc_content (fst ds))
        (default "paragraph" (doc_metadata (fst ds) !! "level"))
        (doc_metadata (fst ds)) (snd ds).

Definition _sparse_retrieval (query : string) (top_k : Z) : list Hit :=
  match corpus with
  | [] => []
  | _ =>
      let tokenized_docs := map doc_tokens corpus in
      let query_tokens := tokenize query in
      let scores := bm25_get_scores tokenized_docs query_tokens in
      slice_to top_k (sorted_desc hit_score (map sparse_item (zip corpus scores)))
  end.

(** [HybridRetriever.retrieve] *)
Definition retrieve (query : string) (top_k : Z) : result (list Hit) :=
  rbind (_dense_retrieval query (top_k * 2))
    (fun dense_hits =>
       fuse_hits rrf_k dense_hits (_sparse_retrieval query (top_k * 4)) top_k).

End Retriever.

(** ** Answer orchestrator ([app/services/orchestration.py]) *)

Record QueryResult : Type := mkQueryResult {
  answer_text : string;
  references : list Hit;
  grounded : bool
}.

Section Orchestrator.

(** [self.retriever.retrieve] *)
Variable retriever : string -> Z -> result (list Hit).
(** [self.chain]: absent, or a call that returns text or raises. *)
Variable chain : option (string -> string -> result string).
(** [f"{x:.4f}"] *)
Variable format_4f : Q -> string.

Definition format_hit (hit : Hit) : string :=
  "[" +:+ hit_chunk_id hit +:+ "] doc=" +:+ hit_document_id hit
  +:+ " level=" +:+ hit_level hit +:+ " score=" +:+ format_4f (hit_score hit)
  +:+ PyStr.nl +:+ hit_content hit.

Definition _format_context (hits : list Hit) : string :=
  PyStr.join (PyStr.nl +:+ PyStr.nl) (map format_hit hits).

Definition _fallback_answer (hits : list Hit) (question : string)
    : result string :=
  match hits with
  | [] => Raise IndexError
  | best :: _ =>
      Ok ("Answer synthesized without LLM due to configuration limits."
          +:+ PyStr.nl
          +:+ "Question: " +:+ question +:+ PyStr.nl
          +:+ "Best match (" +:+ hit_chunk_id best +:+ "): "
          +:+ hit_content best)
  end.

Definition _generate_answer (question : string) (hits : list Hit)
    : result string :=
  match hits with
  | [] => Ok "No relevant answer found."
  | _ =>
      let context_block := _format_context hits in
      match chain with
      | Some invoke =>
          match invoke question context_block with
          | inr text => Ok text
          | inl _ => _fallback_answer hits question
          end
      | None => _fallback_answer hits question
      end
  end.

(** [QueryOrchestrator.answer], without the wall-clock [latency_ms]. *)
Definition answer (question : string) (top_k : Z) (audit_trail : bool)
    : result QueryResult :=
  rbind (retriever question top_k)
    (fun hits =>
       rbind (_generate_answer question hits)
         (fun text =>
            Ok (mkQueryResult text
                  (if audit_trail then hits else [])
                  (match hits with [] => false | _ => true end)))).

End Orchestrator.

(** ** The chunker's own tokenizer ([HierarchicalChunker.tokenize]) *)

Module HierarchicalChunker.

(** A character that [\w] matches in a [str] pattern, for a code point
    below 256: the alphanumeric ones and the underscore. *)
Definition is_word (c : ascii) : bool :=
  let n := N_of_ascii c in
  ((48 <=? n) && (n <=? 57) || (65 <=? n) && (n <=? 90) || (n =? 95)
   || (97 <=? n) && (n <=? 122) || (n =? 170) || (n =? 178) || (n =? 179)
   || (n =? 181) || (n =? 185) || (n =? 186) || (188 <=? n) && (n <=? 190)
   || (192 <=? n) && (n <=? 214) || (216 <=? n) && (n <=? 246)
   || (248 <=? n) && (n <=? 255))%N.

(** [re.findall(r"\w+", text)]: the maximal runs of word characters. *)
Definition findall_word (text : string) : list string :=
  filter (fun f => PyStr.nonempty f = true)
         (PyStr.fields (fun c => negb (is_word c)) text).

(** [HierarchicalChunker.tokenize] *)
Definition tokenize (content : list string) : list (list string) :=
  map (fun text => map PyStr.lower (findall_word text)) content.

End HierarchicalChunker.

(** ** Evaluation service ([app/services/evaluation.py]) *)

Record EvaluationSample : Type := mkEvaluationSample {
  es_question : string;
  es_answer : string;
  es_ground_truth : string;
  es_citations : list string
}.

Record EvaluationMetrics : Type := mkEvaluationMetrics {
  em_faithfulness : Q;
  em_answer_relevancy : Q;
  em_groundedness : Q;
  em_recall_at_k : Q
}.

Record EvaluationResponse : Type := mkEvaluationResponse {
  er_samples_evaluated : Z;
  er_metrics : EvaluationMetrics;
  er_generated_at : Z
}.

(** The exceptions of the evaluation service. *)
Inductive eval_exn : Type :=
| ValueError (message : string)
| RuntimeError (message : string)
| EvalZeroDivisionError
| RagasError.

(** [s.startswith(sub)] *)
Fixpoint startswith (sub s : string) : bool :=
  match sub, s with
  | EmptyString, _ => true
  | String a sub', String b s' => Ascii.eqb a b && startswith sub' s'
  | String _ _, EmptyString => false
  end.

(** [sub in s] *)
Fixpoint str_in (sub s : string) : bool :=
  startswith sub s
  || match s with
     | EmptyString => false
     | String _ s' => str_in sub s'
     end.

(** [any(sample.ground_truth.lower() in citation.lower() for citation in
    window)] *)
Definition cites_truth (sample : EvaluationSample) (window : list string)
    : bool :=
  existsb (fun citation =>
             str_in (PyStr.lower (es_ground_truth sample))
                    (PyStr.lower citation))
          window.

(** The counter [grounded] at the end of the loop of [_groundedness]. *)
Fixpoint count_grounded (samples : list EvaluationSample) : Z :=
  match samples with
  | [] => 0
  | sample :: rest =>
      (if cites_truth sample (es_citations sample) then 1 else 0)
      + count_grounded rest
  end.

(** The counter [hits] at the end of the loop of [_recall_at_k]. *)
Fixpoint count_hits (k : Z) (samples : list EvaluationSample) : Z :=
  match samples with
  | [] => 0
  | sample :: rest =>
      (if cites_truth sample (slice_to k (es_citations sample)) then 1 else 0)
      + count_hits k rest
  end.

(** [a / b] on two [int]s *)
Definition true_div (a b : Z) : eval_exn + Q :=
  if b =? 0 then inl EvalZeroDivisionError
  else inr (inject_Z a / inject_Z b)%Q.

(** [EvaluationService._groundedness] *)
Definition _groundedness (samples : list EvaluationSample) : eval_exn + Q :=
  true_div (count_grounded samples) (Z.of_nat (length samples)).

(** [EvaluationService._recall_at_k] *)
Definition _recall_at_k (samples : list EvaluationSample) (k : Z)
    : eval_exn + Q :=
  true_div (count_hits k samples) (Z.of_nat (length samples)).

Section Evaluation.

(** [ragas.evaluate] with its two metrics, when [ragas] and [datasets]
    are installed: the faithfulness and the answer relevancy, or an
    exception. *)
Variable ragas : option (list EvaluationSample -> eval_exn + (Q * Q)).
Variable top_k : Z.
(** [datetime.utcnow()] at the end of the run. *)
Variable now : Z.

(** [EvaluationService.run] *)
Definition run (samples : list EvaluationSample)
    : eval_exn + EvaluationResponse :=
  match samples with
  | [] => inl (ValueError "No evaluation samples provided")
  | _ =>
      match ragas with
      | None =>
          inl (RuntimeError "ragas and datasets must be installed to evaluate")
      | Some evaluate =>
          match evaluate samples with
          | inl e => inl e
          | inr (faithfulness, answer_relevancy) =>
              match _groundedness samples with
              | inl e => inl e
              | inr groundedness =>
                  match _recall_at_k samples top_k with
                  | inl e => inl e
                  | inr recall_at_k =>
                      inr (mkEvaluationResponse
                             (Z.of_nat (length samples))
                             (mkEvaluationMetrics faithfulness answer_relevancy
                                                  groundedness recall_at_k)
                             now)
                  end
              end
          end
      end
  end.

End Evaluation.

(** ** Python floats ([float], IEEE 754 binary64)

    A double is a [spec_float] of the Standard Library's specification of
    IEEE 754, with 53 bits of precision; every operation rounds to the
    nearest double, ties to even, as the interpreter's does. *)

Module Float.

Definition t : Type := SpecFloat.spec_float.

Definition prec : Z := 53.
Definition emax : Z := 1024.

(** [0.0] and [1.0] *)
Definition zero : t := SpecFloat.S754_zero false.
Definition one : t := SpecFloat.S754_finite false 4503599627370496 (-52).

(** The conversion of an [int] operand: the nearest double, or
    [OverflowError] when the integer is beyond the largest double. *)
Definition of_int (n : Z) : result t :=
  match SpecFloat.binary_normalize prec emax n 0 false with
  | SpecFloat.S754_infinity _ => Raise OverflowError
  | x => Ok x
  end.

(** [x + y] *)
Definition add (x y : t) : t := SpecFloat.SFadd prec emax x y.

(** [x / n] for a float [x] and an [int] [n]: the operand is converted,
    then a zero divisor is refused. *)
Definition truediv_int (x : t) (n : Z) : result t :=
  rbind (of_int n)
    (fun d =>
       match d with
       | SpecFloat.S754_zero _ => Raise ZeroDivisionError
       | _ => Ok (SpecFloat.SFdiv prec emax x d)
       end).

(** The rational a finite double stands for.  Two finite doubles compare
    as these rationals do ([0.0 == -0.0] included). *)
Definition to_Q (x : t) : Q :=
  match x with
  | SpecFloat.S754_finite s m e =>
      let n := if s then Zneg m else Zpos m in
      if 0 <=? e then inject_Z (n * 2 ^ e) else n # (2 ^ Z.to_pos (- e))
  | _ => 0
  end.

End Float.

(** ** Rank fusion and retrieval on doubles, with collaborators that raise

    The definitions of [app/utils/rrf.py] and
    [app/services/hybrid_retriever.py] once more, closer to the
    interpreter on two points: the fused scores are computed in doubles,
    [1.0 / (k + rank)] and [+=] rounding as they do and the conversion of
    [k + rank] overflowing as it does; and the store and the BM25 scorer
    may raise.  A fused score is handed on as the rational it stands
    for, so the sorts compare the doubles the code compares.  Every score
    is a sum of quotients [1.0 / n] with [|n| >= 1], hence finite. *)

Module Binary64.

Record RrfState : Type := mkRrfState {
  accumulator : PyDict.t Float.t;
  provenance : PyDict.t string
}.

(** [accumulator[chunk_id] += x] on a [defaultdict(float)] *)
Definition acc_add (acc : PyDict.t Float.t) (chunk_id : string) (x : Float.t)
    : PyDict.t Float.t :=
  PyDict.set acc chunk_id
    (Float.add (default Float.zero (PyDict.get acc chunk_id)) x).

(** The inner loop, from rank [rank] on. *)
Fixpoint rrf_items (k : Z) (source : string) (rank : Z)
    (items : list (string * Q)) (st : RrfState) : result RrfState :=
  match items with
  | [] => Ok st
  | (chunk_id, _score) :: rest =>
      match Float.truediv_int Float.one (k + rank) with
      | inl e => Raise e
      | inr x =>
          rrf_items k source (rank + 1) rest
            (mkRrfState (acc_add (accumulator st) chunk_id x)
                        (PyDict.setdefault (provenance st) chunk_id source))
      end
  end.

(** The outer loop over [rankings.items()]. *)
Fixpoint rrf_sources (k : Z) (rankings : PyDict.t (list (string * Q)))
    (st : RrfState) : result RrfState :=
  match rankings with
  | [] => Ok st
  | (source, items) :: rest =>
      rbind (rrf_items k source 1 items st) (rrf_sources k rest)
  end.

(** [accumulator.items()], each score as the rational it stands for. *)
Definition items (acc : PyDict.t Float.t) : PyDict.t Q :=
  map (fun cs => (fst cs, Float.to_Q (snd cs))) acc.

Definition reciprocal_rank_fusion (rankings : PyDict.t (list (string * Q)))
    (k : Z) : result (list (string * Q * string)) :=
  rbind (rrf_sources k rankings (mkRrfState [] []))
    (fun st =>
       rbind (with_provenance (provenance st) (items (accumulator st)))
         (fun l => Ok (sorted_desc (fun item => snd (fst item)) l))).

(** The body of [retrieve] after the two branch calls. *)
Definition fuse_hits (rrf_k : Z) (dense_hits sparse_hits : list Hit)
    (top_k : Z) : result (list Hit) :=
  rbind (reciprocal_rank_fusion
           [("dense", map id_score dense_hits);
            ("sparse", map id_score sparse_hits)] rrf_k)
    (fun fused =>
       let fused_map :=
         PyDict.of_list (map (fun item => (fst (fst item), snd (fst item))) fused) in
       let enriched :=
         PyDict.of_list (map (fun hit => (hit_chunk_id hit, hit))
                             (dense_hits ++ sparse_hits)) in
       rbind (enrich enriched fused_map (PyDict.keys fused_map))
         (fun l => Ok (slice_to top_k (sorted_desc hit_score l)))).

Section Retriever.

Variable model : option (list string -> list (list Q)).
(** [PGVectorStore.dense_search]: the hits, or the exception of the store. *)
Variable dense_search : list Q -> Z -> result (list Hit).
(** [PGVectorStore.fetch_sparse_corpus()] *)
Variable fetch_sparse_corpus : result (list CorpusDoc).
(** [BM25Okapi(tokenized_docs, k1, b).get_scores(query_tokens)]: the scores,
    or the exception of the constructor or of the scoring. *)
Variable bm25_get_scores : list (list string) -> list string -> result (list Q).
Variable rrf_k : Z.

Definition _dense_retrieval (query : string) (top_k : Z) : result (list Hit) :=
  match embed model [query] with
  | query_vec :: _ => dense_search query_vec top_k
  | [] => Raise IndexError
  end.

Definition _sparse_retrieval (query : string) (top_k : Z)
    : result (list Hit) :=
  rbind fetch_sparse_corpus
    (fun corpus =>
       match corpus with
       | [] => Ok []
       | _ =>
           let tokenized_docs := map doc_tokens corpus in
           let query_tokens := tokenize query in
           rbind (bm25_get_scores tokenized_docs query_tokens)
             (fun scores =>
                Ok (slice_to top_k
                      (sorted_desc hit_score
                         (map sparse_item (zip corpus scores)))))
       end).

(** [HybridRetriever.retrieve] *)
Definition retrieve (query : string) (top_k : Z) : result (list Hit) :=
  rbind (_dense_retrieval query (top_k * 2))
    (fun dense_hits =>
       rbind (_sparse_retrieval query (top_k * 4))
         (fun sparse_hits => fuse_hits rrf_k dense_hits sparse_hits top_k)).

End Retriever.

End Binary64.

(** * The vocabulary of the statements

    Functions and predicates in which the properties are stated, and the
    sample inputs on which they are instantiated.  None of them is part of
    the program. *)

(** ** Strings *)

Fixpoint all_chars (p : ascii -> bool) (s : string) : bool :=
  match s with
  | EmptyString => true
  | String c s' => p c && all_chars p s'
  end.

Definition no_space (s : string) : Prop :=
  all_chars (fun c => negb (PyStr.isspace c)) s = true.

(** ** Lists *)

(** [x] occurs at a position of [l] before an occurrence of [y]. *)
Inductive before {A : Type} (x y : A) : list A -> Prop :=
| before_here (l : list A) : y ∈ l -> before x y (x :: l)
| before_later (z : A) (l : list A) : before x y l -> before x y (z :: l).

(** Decreasing keys: every element is at least every later one. *)
Definition descending {A : Type} (key : A -> Q) (l : list A) : Prop :=
  StronglySorted (fun a b => (key b <= key a)%Q) l.

(** The keys after one more key is written: a new key goes last. *)
Definition add_key (ks : list string) (k : string) : list string :=
  if decide (k ∈ ks) then ks else ks ++ [k].

(** The distinct elements of a list, in order of first occurrence. *)
Definition first_occurrences (ids : list string) : list string :=
  fold_left add_key ids [].

(** One step of [{k: v for k, v in l}]. *)
Definition set_pair {V} (d : PyDict.t V) (kv : string * V) : PyDict.t V :=
  PyDict.set d (fst kv) (snd kv).

(** ** The chunker *)

(** The text ["Title\n\nHeading1\nline1\nline2\n\nHeading2\nline3"]. *)
Definition sample_text : string :=
  "Title" +:+ PyStr.nl +:+ PyStr.nl +:+ "Heading1" +:+ PyStr.nl +:+ "line1"
  +:+ PyStr.nl +:+ "line2" +:+ PyStr.nl +:+ PyStr.nl +:+ "Heading2"
  +:+ PyStr.nl +:+ "line3".

(** A supply whose n-th draw is ["uuid-"] followed by the decimal numeral
    of n. *)
Definition numbered_uuid4 (n : nat) : string :=
  "uuid-" +:+ NilEmpty.string_of_uint (Nat.to_uint n).

(** The shape the specification announces for the sample: a title, two
    sections, three paragraphs, in that order. *)
Definition title_two_sections_three_paragraphs (chunks : list Chunk) : Prop :=
  exists t s1 s2 p1 p2 p3,
    chunks = [t; s1; s2; p1; p2; p3]
    /\ level t = "title"
    /\ level s1 = "section" /\ content s1 = "Heading1"
    /\ level s2 = "section" /\ content s2 = "Heading2"
    /\ level p1 = "paragraph" /\ content p1 = "line1"
    /\ level p2 = "paragraph" /\ content p2 = "line2"
    /\ level p3 = "paragraph" /\ content p3 = "line3"
    /\ parent_id p1 = Some (chunk_id s1)
    /\ parent_id p2 = Some (chunk_id s1)
    /\ parent_id p3 = Some (chunk_id s2).

(** What a chunk is apart from the identifiers drawn for it. *)
Definition shape (c : Chunk) : string * string * string * gmap string string :=
  (document_id c, level c, content c, metadata c).

(** From any number [n] of earlier draws, the computation returns chunks
    whose identifiers are the draws [n], [n + 1], ... in order, one per
    chunk, and whose shapes are [shapes]. *)
Definition emits (uuid4 : nat -> string) (m : Gen (list Chunk))
    (shapes : list (string * string * string * gmap string string)) : Prop :=
  forall n, exists cs,
    m n = (cs, (n + length cs)%nat)
    /\ map chunk_id cs = map uuid4 (seq n (length cs))
    /\ map shape cs = shapes.

Definition section_shapes (doc : string) (md : gmap string string)
    (sec : string * string)
    : list (string * string * string * gmap string string) :=
  (doc, "section", PyStr.strip (fst sec), md)
  :: map (fun p => (doc, "paragraph", p, md)) (stripped_lines (snd sec)).

Definition document_shapes (doc text : string) (md : gmap string string)
    : list (string * string * string * gmap string string) :=
  if negb (PyStr.nonempty (PyStr.strip text)) then []
  else
    (doc, "title",
     PyStr.strip (default (PyStr.take 80 text) (md !! "title")), md)
    :: concat (map (section_shapes doc md) (_split_sections text)).

Definition table_shape (doc filename : string) (base : gmap string string)
    (t : ExtractedTable) : string * string * string * gmap string string :=
  (doc, "table", csv t,
   <["source_file" := filename]>
     (<["table_title" := title t]> (<["table_id" := table_id t]> base))).

Definition all_shapes (doc filename text : string)
    (tables : list ExtractedTable) (base : gmap string string)
    : list (string * string * string * gmap string string) :=
  document_shapes doc text base
  ++ map (table_shape doc filename base)
         (filter (fun t => PyStr.nonempty (csv t) = true) tables).

(** ** The fallback embedding *)

(** The fallback vector in the words of the specification: component [i] is
    the digest byte at position [i mod 32], divided by 255. *)
Definition fallback_vector_spec (text : string) : list Q :=
  map (fun i => (inject_Z (nth (i mod 32) (Sha256.digest (utf8 text)) 0%Z) / 255)%Q)
      (seq 0 768).

(** The two-block message of FIPS 180-4 (56 bytes), and a text with the
    code point U+00E9 twice (not ASCII: two bytes each in UTF-8). *)
Definition two_block_message : string :=
  "abcdbcdecdefdefgefghfghighijhijkijkljklmklmnlmnomnopnopq".

Definition e_acute : string := String "233"%char EmptyString.

Definition resume_text : string := "r" +:+ e_acute +:+ "sum" +:+ e_acute.

(** The code points U+007F, U+0080, U+00BF, U+00C0 and U+00FF: the last
    of one byte, and the ends of the two lead bytes of the range. *)
Definition latin1_boundaries : string :=
  String "127"%char
    (String "128"%char
       (String "191"%char (String "192"%char (String "255"%char "")))).

(** ** The chunk store *)

(** The i-th statement of the call fails on [row]. *)
Definition stmt_fails (embedding_dim : Z) (fault : nat -> bool) (i : nat)
    (row : Payload) : bool :=
  fault i || negb (dim_ok embedding_dim (p_embedding row)).

(** The rows applied one after the other, the first as statement [i]. *)
Fixpoint apply_rows (utcnow : nat -> Z) (i : nat) (rows : list Payload)
    (t : Table) : Table :=
  match rows with
  | [] => t
  | row :: rest => apply_rows utcnow (S i) rest (upsert_row (utcnow i) row t)
  end.

(** The columns an upsert may write. *)
Definition written_from (new : Row) (row : Payload) : Prop :=
  col_content new = p_content row
  /\ col_metadata new = p_metadata row
  /\ col_embedding new = p_embedding row
  /\ col_sparse_tokens new = p_sparse_tokens row.

(** The columns an upsert never writes on conflict. *)
Definition kept_from (new old : Row) : Prop :=
  col_created_at new = col_created_at old
  /\ col_document_id new = col_document_id old
  /\ col_parent_id new = col_parent_id old
  /\ col_level new = col_level old.

(** A stored row and two payloads for a three-dimensional column: the
    second payload carries a vector of the wrong dimension. *)
Definition stored_row : Row :=
  mkRow "doc-1" None "title" "old text" ∅ (Some [1; 0; 0]%Q) (Some ["old"]) 100.

Definition good_payload : Payload :=
  mkPayload "c1" "doc-9" (Some "c0") "section" "new text" ∅
            (Some [0; 1; 0]%Q) (Some ["new"; "text"]).

Definition bad_payload : Payload :=
  mkPayload "c2" "doc-1" None "paragraph" "other" ∅ (Some [0; 1]%Q) (Some ["other"]).

Definition no_fault (i : nat) : bool := false.
Definition clock_200 (i : nat) : Z := 200 + Z.of_nat i.
Definition clock_300 (i : nat) : Z := 300 + Z.of_nat i.

(** ** Ingestion *)

(** What a payload is apart from its [chunk_id] and [parent_id]. *)
Definition payload_shape (p : Payload)
    : string * string * string * gmap string string
      * option (list Q) * option (list string) :=
  (p_document_id p, p_level p, p_content p, p_metadata p, p_embedding p,
   p_sparse_tokens p).

Definition shape_with_vector
    (sv : string * string * string * gmap string string * list Q)
    : string * string * string * gmap string string
      * option (list Q) * option (list string) :=
  let '(doc, lvl, text, md, v) := sv in
  (doc, lvl, text, <["level" := lvl]> md, Some v, Some (tokenize text)).

Definition to_payload (cv : Chunk * list Q) : Payload :=
  payload_of (fst cv) (snd cv).

(** The chunk identifiers a second ingestion would have to repeat. *)
Definition reingest_same_chunk_ids (uuid4 : nat -> string)
    (model : option (list string -> list (list Q)))
    (parse : list Z -> string -> string * list ExtractedTable)
    (document_bytes : list Z) (filename : string)
    (md : gmap string string) (n : nat) : Prop :=
  let '(_, first, n1) :=
    ingest_payloads uuid4 model parse document_bytes filename md n in
  let '(_, second, _) :=
    ingest_payloads uuid4 model parse document_bytes filename md n1 in
  map p_chunk_id second = map p_chunk_id first.

(** A conversion collaborator that finds the text ["Title"] and no table. *)
Definition title_only_parse (document_bytes : list Z) (filename : string)
    : string * list ExtractedTable :=
  ("Title", []).

(** ** Reciprocal rank fusion *)

(** The 1-based rank of a chunk in a source list, counting from [rank]. *)
Fixpoint rank_from (rank : Z) (c : string) (items : list (string * Q))
    : option Z :=
  match items with
  | [] => None
  | (c', _) :: rest =>
      if decide (c' = c) then Some rank else rank_from (rank + 1) c rest
  end.

Definition rank_of (c : string) (items : list (string * Q)) : option Z :=
  rank_from 1 c items.

(** What one source contributes to a chunk: [1 / (k + r)] at rank [r],
    nothing when the source does not list the chunk. *)
Definition contribution (k : Z) (items : list (string * Q)) (c : string) : Q :=
  match rank_of c items with
  | Some r => 1 / inject_Z (k + r)
  | None => 0
  end.

(** The sum of the contributions of all sources. *)
Fixpoint fused_score (k : Z) (rankings : PyDict.t (list (string * Q)))
    (c : string) : Q :=
  match rankings with
  | [] => 0
  | (_, items) :: rest => contribution k items c + fused_score k rest c
  end.

(** The first source, in iteration order, that lists the chunk. *)
Fixpoint first_source (rankings : PyDict.t (list (string * Q))) (c : string)
    : option string :=
  match rankings with
  | [] => None
  | (source, items) :: rest =>
      if decide (c ∈ map fst items) then Some source
      else first_source rest c
  end.

(** All chunk identifiers of all sources, in iteration order. *)
Definition all_ids (rankings : PyDict.t (list (string * Q))) : list string :=
  concat (map (fun si => map fst (snd si)) rankings).

(** The sum over every position of the list that holds the chunk. *)
Fixpoint occ_sum (k rank : Z) (items : list (string * Q)) (c : string) : Q :=
  match items with
  | [] => 0
  | (c', _) :: rest =>
      (if decide (c' = c) then / inject_Z (k + rank) else 0)
      + occ_sum k (rank + 1) rest c
  end.

(** The sum over all sources of the per-position sums. *)
Fixpoint occ_total (k : Z) (rankings : PyDict.t (list (string * Q)))
    (c : string) : Q :=
  match rankings with
  | [] => 0
  | (_, items) :: rest => occ_sum k 1 items c + occ_total k rest c
  end.

Definition acc_value (acc : PyDict.t Q) (c : string) : Q :=
  default 0%Q (PyDict.get acc c).

(** A fused entry: the accumulator entry with its source attached. *)
Definition attach (prov : PyDict.t string) (cs : string * Q)
    : string * Q * string :=
  (fst cs, snd cs, default EmptyString (PyDict.get prov (fst cs))).

Definition fused_key (item : string * Q * string) : Q := snd (fst item).
Definition fused_id (item : string * Q * string) : string := fst (fst item).
Definition fused_pair (item : string * Q * string) : string * Q :=
  (fused_id item, fused_key item).


(** A source list that names chunk ["a"] twice. *)
Definition repeated_rankings : PyDict.t (list (string * Q)) :=
  [("dense", [("a", 9 # 10); ("a", 8 # 10)])].

(** ** The hybrid retriever *)

(** The map [retrieve] hands to [reciprocal_rank_fusion]. *)
Definition branch_rankings (dense_hits sparse_hits : list Hit)
    : PyDict.t (list (string * Q)) :=
  [("dense", map id_score dense_hits); ("sparse", map id_score sparse_hits)].

(** The combined lookup [enriched]. *)
Definition enriched_of (dense_hits sparse_hits : list Hit) : PyDict.t Hit :=
  PyDict.of_list (map (fun hit => (hit_chunk_id hit, hit))
                      (dense_hits ++ sparse_hits)).

Definition hit_or_blank (enriched : PyDict.t Hit) (c : string) : Hit :=
  default (mkHit c "" "" "" ∅ 0%Q) (PyDict.get enriched c).

Definition hit_of_item (enriched : PyDict.t Hit) (item : string * Q * string)
    : Hit :=
  with_score (hit_or_blank enriched (fused_id item)) (fused_key item).

(** The example of the specification: chunk ["c1"] comes back from the dense
    branch with content ["A"] and from the sparse branch with content
    ["B"]. *)
Definition sample_dense_search (query_vec : list Q) (limit : Z) : list Hit :=
  [mkHit "c1" "doc-1" "A" "paragraph" ∅ (9 # 10)].

Definition sample_corpus : list CorpusDoc :=
  [mkCorpusDoc "c1" "doc-1" "B" ["b"] ∅].

Definition sample_bm25 (docs : list (list string)) (query : list string)
    : list Q :=
  map (fun _ => 1%Q) docs.

(** Two chunks that swap ranks between the branches tie at
    [1/61 + 1/62]. *)
Definition tie_dense_search (query_vec : list Q) (limit : Z) : list Hit :=
  [mkHit "x" "doc-1" "first" "paragraph" ∅ (9 # 10);
   mkHit "y" "doc-1" "second" "paragraph" ∅ (8 # 10)].

Definition tie_corpus : list CorpusDoc :=
  [mkCorpusDoc "y" "doc-1" "second" ["second"] ∅;
   mkCorpusDoc "x" "doc-1" "first" ["first"] ∅].

Definition tie_bm25 (docs : list (list string)) (query : list string)
    : list Q :=
  [2; 1]%Q.

(** ** Retrieval on doubles *)

(** A collaborator that returns. *)
Definition returning {A B C : Type} (f : A -> B -> C) (a : A) (b : B)
    : result C :=
  Ok (f a b).

(** A scorer that, like [BM25Okapi], divides by the number of distinct
    terms of the corpus: it raises when no record has a token. *)
Definition bm25_no_terms (docs : list (list string)) (query : list string)
    : result (list Q) :=
  if forallb (fun d => match d with [] => true | _ :: _ => false end) docs
  then Raise ZeroDivisionError
  else Ok (map (fun _ => 1%Q) docs).

Definition hit_named (c : string) : Hit := mkHit c "doc-1" c "paragraph" ∅ 0.

(** With [k = 5], chunk ["X"] scores [1/6] and chunk ["Y"] scores
    [1/10 + 1/15]: the same rational, two different doubles. *)
Definition rounding_dense : list Hit :=
  map hit_named ["X"; "d2"; "d3"; "d4"; "Y"].

Definition rounding_sparse : list Hit :=
  map hit_named ["s1"; "s2"; "s3"; "s4"; "s5"; "s6"; "s7"; "s8"; "s9"; "Y"].

(** ** The answer orchestrator *)

(** The generation collaborator is absent, or its call raises. *)
Definition generation_unavailable
    (chain : option (string -> string -> result string))
    (question context_block : string) : Prop :=
  chain = None
  \/ exists invoke e,
       chain = Some invoke /\ invoke question context_block = Raise e.

Definition sample_format_4f (x : Q) : string := "0.0328".

(** ** The chunker, further *)

(** A section chunk parented to the title, followed by its paragraph
    chunks, each parented to the section. *)
Definition section_block (title_id : string) (cs : list Chunk) : Prop :=
  exists s ps,
    cs = s :: ps
    /\ level s = "section"
    /\ parent_id s = Some title_id
    /\ Forall (fun p => level p = "paragraph"
                        /\ parent_id p = Some (chunk_id s)) ps.

(** A text that [strip] leaves unchanged, not empty and on one line. *)
Definition clean_line (s : string) : Prop :=
  PyStr.nonempty s = true
  /\ PyStr.strip s = s
  /\ all_chars (fun c => negb (PyStr.is_nl c)) s = true.

(** * Properties *)

(** ** The library functions on known values *)

(** The digest of ["abc"] is the one of FIPS 180-4, appendix B.1. *)
Example sha256_abc :
  Sha256.digest (utf8 "abc") =
  [186; 120; 22; 191; 143; 1; 207; 234; 65; 65; 64; 222; 93; 174; 34; 35;
   176; 3; 97; 163; 150; 23; 122; 156; 180; 16; 255; 97; 242; 0; 21; 173].
Proof. vm_compute. reflexivity. Qed.

Example sha256_empty :
  Sha256.digest [] =
  [227; 176; 196; 66; 152; 252; 28; 20; 154; 251; 244; 200; 153; 111; 185;
   36; 39; 174; 65; 228; 100; 155; 147; 76; 164; 149; 153; 27; 120; 82; 184;
   85].
Proof. vm_compute. reflexivity. Qed.

(** Doubles: [1.0 / 6], [1.0 / -3], the ties-to-even conversion of
    [2**53 + 1] and [2**53 + 3], the largest double and the first integer
    beyond it, [1.0 / 0], and [1.0 / 10 + 1.0 / 15]. *)
Example float_known_values :
  Float.truediv_int Float.one 6
  = Ok (SpecFloat.S754_finite false 6004799503160661 (-55))
  /\ Float.truediv_int Float.one (-3)
     = Ok (SpecFloat.S754_finite true 6004799503160661 (-54))
  /\ Float.of_int (2 ^ 53 + 1)
     = Ok (SpecFloat.S754_finite false 4503599627370496 1)
  /\ Float.of_int (2 ^ 53 + 3)
     = Ok (SpecFloat.S754_finite false 4503599627370498 1)
  /\ Float.of_int (2 ^ 1024 - 2 ^ 970 - 1)
     = Ok (SpecFloat.S754_finite false 9007199254740991 971)
  /\ Float.of_int (2 ^ 1024 - 2 ^ 970) = Raise OverflowError
  /\ Float.truediv_int Float.one 0 = Raise ZeroDivisionError
  /\ rbind (Float.truediv_int Float.one 10)
        (fun a => rbind (Float.truediv_int Float.one 15)
                    (fun b => Ok (Float.add (Float.add Float.zero a) b)))
     = Ok (SpecFloat.S754_finite false 6004799503160662 (-55))
  /\ Float.to_Q (SpecFloat.S754_finite false 6004799503160661 (-55))
     = 6004799503160661 # 36028797018963968.
Proof. repeat split; vm_compute; reflexivity. Qed.

Example re_split_blank_runs :
  PyStr.re_split_blank
    ("a" +:+ PyStr.nl +:+ PyStr.nl +:+ PyStr.nl +:+ "b" +:+ PyStr.nl +:+ "c"
     +:+ PyStr.nl +:+ PyStr.nl)
  = ["a"; "b" +:+ PyStr.nl +:+ "c"; ""].
Proof. reflexivity. Qed.

Example split_whitespace : PyStr.split ("  a b" +:+ PyStr.nl +:+ "c ") = ["a"; "b"; "c"].
Proof. reflexivity. Qed.

Example strip_both_ends : PyStr.strip ("  a b " +:+ PyStr.nl) = "a b".
Proof. reflexivity. Qed.

Example tokenize_lowers : tokenize "  Net INCOME 2023 " = ["net"; "income"; "2023"].
Proof. reflexivity. Qed.

Example slice_to_negative : slice_to (-1) [1; 2; 3] = [1; 2].
Proof. reflexivity. Qed.

Example sorted_desc_keeps_ties :
  sorted_desc snd [("a", 1%Q); ("b", 2%Q); ("c", 1%Q); ("d", 2%Q)]
  = [("b", 2%Q); ("d", 2%Q); ("a", 1%Q); ("c", 1%Q)].
Proof. reflexivity. Qed.

(** ** The chunker on a sample document *)

(** C2, as stated, fails: the first segment ["Title"] of the text is
    itself a section, so the sample yields seven chunks, not six. *)
Lemma chunk_document_sample_not_six :
  ~ title_two_sections_three_paragraphs
      (fst (chunk_document numbered_uuid4 "doc-1" sample_text ∅ 0%nat)).
Proof.
  intros (t & s1 & s2 & p1 & p2 & p3 & Heq & _).
  apply (f_equal (@length Chunk)) in Heq.
  vm_compute in Heq. discriminate Heq.
Qed.

(** C2, amended: on the sample text [chunk_document] returns seven chunks in
    document order: the title chunk, the section ["Title"], the section
    ["Heading1"] followed by its paragraphs ["line1"] and ["line2"], the
    section ["Heading2"] followed by its paragraph ["line3"].  The sections
    are parented to the title chunk and every paragraph to its own section. *)
Theorem chunk_document_sample (uuid4 : nat -> string) (doc : string)
    (md : gmap string string) (n : nat) :
  chunk_document uuid4 doc sample_text md n =
  ([ mkChunk (uuid4 n) doc None "title"
       (PyStr.strip (default sample_text (md !! "title"))) md;
     mkChunk (uuid4 (S n)) doc (Some (uuid4 n)) "section" "Title" md;
     mkChunk (uuid4 (S (S n))) doc (Some (uuid4 n)) "section" "Heading1" md;
     mkChunk (uuid4 (S (S (S n)))) doc (Some (uuid4 (S (S n))))
       "paragraph" "line1" md;
     mkChunk (uuid4 (S (S (S (S n))))) doc (Some (uuid4 (S (S n))))
       "paragraph" "line2" md;
     mkChunk (uuid4 (S (S (S (S (S n)))))) doc (Some (uuid4 n))
       "section" "Heading2" md;
     mkChunk (uuid4 (S (S (S (S (S (S n))))))) doc
       (Some (uuid4 (S (S (S (S (S n))))))) "paragraph" "line3" md ],
   S (S (S (S (S (S (S n))))))).
Proof.
  unfold chunk_document.
  replace (PyStr.nonempty (PyStr.strip sample_text)) with true
    by (vm_compute; reflexivity).
  replace (_split_sections sample_text)
    with [("Title", ""); ("Heading1", "line1" +:+ PyStr.nl +:+ "line2");
          ("Heading2", "line3")] by (vm_compute; reflexivity).
  replace (PyStr.take 80 sample_text) with sample_text
    by (vm_compute; reflexivity).
  reflexivity.
Qed.

(** ** The tokenizer *)

Module PyStrFacts.
Import PyStr.

Lemma fields_not_nil sep s : fields sep s <> [].
Proof.
  destruct s as [|c s]; simpl; [discriminate|].
  destruct (sep c); [discriminate|].
  destruct (fields sep s); discriminate.
Qed.

Lemma fields_no_sep sep s :
  Forall (fun f => all_chars (fun c => negb (sep c)) f = true) (fields sep s).
Proof.
  induction s as [|c s IH]; simpl.
  - constructor; [reflexivity|constructor].
  - destruct (sep c) eqn:Hc.
    + constructor; [reflexivity|exact IH].
    + destruct (fields sep s) as [|f fs]; simpl.
      * constructor; [simpl; rewrite Hc; reflexivity|constructor].
      * inversion IH; subst. constructor; [|assumption].
        simpl. rewrite Hc. simpl. assumption.
Qed.

Lemma lstrip_no_space s : no_space s -> lstrip s = s.
Proof.
  destruct s as [|c s]; [reflexivity|].
  unfold no_space; simpl. intros H.
  apply andb_prop in H as [H _].
  destruct (isspace c); [discriminate|reflexivity].
Qed.

Lemma rstrip_no_space s : no_space s -> rstrip s = s.
Proof.
  induction s as [|c s IH]; [reflexivity|].
  unfold no_space in *; simpl. intros H.
  apply andb_prop in H as [Hc Hs].
  rewrite (IH Hs).
  destruct s; [|reflexivity].
  destruct (isspace c); [discriminate|reflexivity].
Qed.

Lemma strip_no_space s : no_space s -> strip s = s.
Proof.
  intros H. unfold strip. rewrite (lstrip_no_space s H).
  apply rstrip_no_space, H.
Qed.

(** The tokens of [s.split()] are non-empty and free of whitespace. *)
Lemma split_tokens s :
  Forall (fun f => nonempty f = true /\ no_space f) (split s).
Proof.
  unfold split. apply Forall_forall. intros f Hf.
  apply list_elem_of_filter in Hf as [Hne Hin].
  split; [exact Hne|].
  pose proof (fields_no_sep isspace s) as HF.
  rewrite Forall_forall in HF. apply HF, Hin.
Qed.

Lemma filter_all {A} (P : A -> Prop) `{!forall x, Decision (P x)} (l : list A) :
  Forall P l -> filter P l = l.
Proof.
  induction 1 as [|x l Hx _ IH]; [reflexivity|].
  rewrite filter_cons_True by exact Hx. now rewrite IH.
Qed.

End PyStrFacts.

(** [tokenize] lower-cases the whitespace-separated words: the guard
    [if token.strip()] never drops a token. *)
Lemma tokenize_lower_split (text : string) :
  tokenize text = map PyStr.lower (PyStr.split text).
Proof.
  unfold tokenize. f_equal.
  apply PyStrFacts.filter_all.
  eapply Forall_impl; [apply PyStrFacts.split_tokens|].
  intros f [Hne Hns]. simpl.
  now rewrite (PyStrFacts.strip_no_space f Hns).
Qed.




(** ** The fallback embedding *)

Lemma sha256_digest_length (msg : list Z) :
  length (Sha256.digest msg) = 32%nat.
Proof. reflexivity. Qed.

(** Repeating a 32-byte digest 25 times and keeping 768 bytes: the byte at
    position [i] is the digest byte at position [i mod 32]. *)
Lemma repeat_truncate_32 {A B} (f : A -> B) (d : list A) (a : A) :
  length d = 32%nat ->
  map f (slice_to 768 (seq_mul d 25)) =
  map (fun i => f (nth (i mod 32) d a)) (seq 0 768).
Proof.
  intros Hlen.
  do 33 (destruct d as [|? d]; try discriminate Hlen).
  vm_compute. reflexivity.
Qed.

Lemma byte_to_float_div (b : Z) : byte_to_float b = (inject_Z b / 255)%Q.
Proof.
  unfold byte_to_float, Qdiv, Qmult, Qinv, inject_Z. simpl.
  f_equal. lia.
Qed.

Lemma fallback_embedding_spec (text : string) :
  _fallback_embedding text = fallback_vector_spec text.
Proof.
  unfold _fallback_embedding, _fallback_embedding_dim, fallback_vector_spec.
  rewrite sha256_digest_length.
  change (Z.to_nat (768 / Z.of_nat 32 + 1)) with 25%nat.
  rewrite (repeat_truncate_32 byte_to_float _ 0 (sha256_digest_length _)).
  apply map_ext. intros i. apply byte_to_float_div.
Qed.

Lemma byte_to_float_range (b : Z) :
  0 <= b <= 255 -> (0 <= byte_to_float b <= 1)%Q.
Proof.
  intros [H0 H1]. unfold byte_to_float, Qle. simpl. lia.
Qed.

Lemma byte_to_float_strict (b1 b2 : Z) :
  0 <= b1 < b2 -> b2 <= 255 -> (byte_to_float b1 < byte_to_float b2)%Q.
Proof. intros H _. unfold byte_to_float, Qlt. simpl. lia. Qed.

(** The vector of a text determines the digest of the text, and is
    determined by it. *)
Lemma fallback_embedding_digest (t1 t2 : string) :
  _fallback_embedding t1 = _fallback_embedding t2
  <-> Sha256.digest (utf8 t1) = Sha256.digest (utf8 t2).
Proof.
  rewrite !fallback_embedding_spec. unfold fallback_vector_spec. split.
  - intros H.
    apply (nth_ext _ _ 0 0); [now rewrite !sha256_digest_length|].
    intros i Hi. rewrite sha256_digest_length in Hi.
    apply (f_equal (fun l => l !! i)) in H.
    change (map ?f ?l) with (f <$> l) in H.
    rewrite !list_lookup_fmap, lookup_seq_lt in H by lia.
    cbn [fmap option_fmap option_map Nat.add] in H.
    rewrite Nat.mod_small in H by exact Hi.
    generalize dependent (nth i (Sha256.digest (utf8 t1)) 0).
    generalize dependent (nth i (Sha256.digest (utf8 t2)) 0).
    intros b a H. unfold Qdiv, Qmult, Qinv, inject_Z in H.
    cbn [Qnum Qden] in H. injection H as H. lia.
  - intros ->. reflexivity.
Qed.

(** C7: without a model, [embed] maps every text of a batch to the 768
    components [digest[i mod 32] / 255] of the digest of its encoding.  The
    digest is SHA-256 and the encoding UTF-8: on the empty text, on ["abc"]
    and on the two-block message of FIPS 180-4 the digest is the published
    one; the code points at the ends of the one-byte and two-byte ranges
    are encoded as UTF-8 encodes them; and a text that is not ASCII is
    encoded with two bytes for U+00E9 and digested to the value of the
    reference implementation.  The byte map
    sends 0 to 0, 255 to 1, is strictly increasing on the bytes and stays
    in [0, 1].
    The vector of a text depends on the text only, through its digest: two
    texts have the same vector exactly when they have the same digest; and
    the vectors of ["abc"] and ["abcd"] differ. *)
Theorem fallback_embedding_deterministic :
  (forall texts : list string,
     embed None texts = map fallback_vector_spec texts
     /\ Forall (fun v => length v = 768%nat) (embed None texts))
  /\ (Sha256.digest (utf8 "") =
        [227; 176; 196; 66; 152; 252; 28; 20; 154; 251; 244; 200; 153; 111;
         185; 36; 39; 174; 65; 228; 100; 155; 147; 76; 164; 149; 153; 27;
         120; 82; 184; 85]
      /\ Sha256.digest (utf8 "abc") =
        [186; 120; 22; 191; 143; 1; 207; 234; 65; 65; 64; 222; 93; 174; 34;
         35; 176; 3; 97; 163; 150; 23; 122; 156; 180; 16; 255; 97; 242; 0;
         21; 173]
      /\ Sha256.digest (utf8 two_block_message) =
           [36; 141; 106; 97; 210; 6; 56; 184; 229; 192; 38; 147; 12; 62; 96;
            57; 163; 60; 228; 89; 100; 255; 33; 103; 246; 236; 237; 212; 25;
            219; 6; 193]
      /\ utf8 latin1_boundaries
         = [127; 194; 128; 194; 191; 195; 128; 195; 191]
      /\ utf8 resume_text = [114; 195; 169; 115; 117; 109; 195; 169]
      /\ Sha256.digest (utf8 resume_text) =
           [233; 247; 181; 182; 150; 102; 30; 147; 136; 52; 203; 194; 133;
            104; 140; 250; 67; 55; 17; 80; 238; 82; 97; 180; 123; 125; 96;
            246; 237; 115; 166; 245])
  /\ ((byte_to_float 0 == 0)%Q /\ (byte_to_float 255 == 1)%Q
      /\ (forall b1 b2 : Z,
            0 <= b1 < b2 -> b2 <= 255 ->
            (byte_to_float b1 < byte_to_float b2)%Q)
      /\ (forall b : Z, 0 <= b <= 255 -> (0 <= byte_to_float b <= 1)%Q))
  /\ (forall t1 t2 : string,
        _fallback_embedding t1 = _fallback_embedding t2
        <-> Sha256.digest (utf8 t1) = Sha256.digest (utf8 t2))
  /\ "abc" <> "abcd" /\ embed None ["abc"] <> embed None ["abcd"].
Proof.
  split; [|split; [|split; [|split; [|split]]]].
  - intros texts. simpl. split.
    + apply map_ext. intros t. apply fallback_embedding_spec.
    + apply Forall_forall. intros v Hv.
      apply list_elem_of_fmap in Hv as (t & -> & _).
      rewrite fallback_embedding_spec. unfold fallback_vector_spec.
      now rewrite length_map, length_seq.
  - repeat split; vm_compute; reflexivity.
  - repeat split.
    + apply byte_to_float_strict.
    + apply byte_to_float_range; assumption.
    + apply byte_to_float_range; assumption.
  - apply fallback_embedding_digest.
  - discriminate.
  - intros H.
    apply (f_equal (fun vs => nth 0 (nth 0 vs []) 0%Q)) in H.
    vm_compute in H. discriminate H.
Qed.

Lemma fallback_embedding_deterministic_witness :
  exists v,
    embed None ["abc"] = [v]
    /\ v !! 0%nat = Some (inject_Z 186 / 255)%Q
    /\ v !! 1%nat = Some (inject_Z 120 / 255)%Q
    /\ v !! 33%nat = Some (inject_Z 120 / 255)%Q
    /\ v !! 767%nat = Some (inject_Z 173 / 255)%Q
    /\ (0 <= byte_to_float 186 <= 1)%Q.
Proof.
  destruct fallback_embedding_deterministic
    as (Hform & (_ & Habc & _) & (_ & _ & _ & Hr) & _).
  destruct (Hform ["abc"]) as [Hv _].
  exists (fallback_vector_spec "abc"). split; [exact Hv|].
  unfold fallback_vector_spec. rewrite Habc.
  repeat (split; [reflexivity|]). apply Hr. lia.
Defined.

(** ** Stable descending sort *)

Lemma before_app_l {A} (x y : A) (l1 l2 : list A) :
  before x y l1 -> before x y (l1 ++ l2).
Proof.
  induction 1 as [l Hy|z l _ IH]; simpl.
  - apply before_here. apply elem_of_app. now left.
  - now apply before_later.
Qed.

Lemma before_firstn {A} (x y : A) (n : nat) (l : list A) :
  before x y (firstn n l) -> before x y l.
Proof.
  intros H. rewrite <- (firstn_skipn n l). now apply before_app_l.
Qed.

Lemma before_map {A B} (f : A -> B) (x y : A) (l : list A) :
  before x y l -> before (f x) (f y) (map f l).
Proof.
  induction 1 as [l Hy|z l _ IH]; simpl.
  - apply before_here. change (f y ∈ f <$> l). now apply list_elem_of_fmap_2.
  - now apply before_later.
Qed.

Lemma before_map_inv {A B} (f : A -> B) (u v : B) (l : list A) :
  before u v (map f l) ->
  exists x y, before x y l /\ f x = u /\ f y = v.
Proof.
  induction l as [|z l IH]; simpl; intros H; inversion H; subst.
  - change (v ∈ f <$> l) in H1.
    apply list_elem_of_fmap in H1 as (y & -> & Hy).
    exists z, y. split; [now apply before_here|split; reflexivity].
  - destruct (IH H1) as (x & y & Hb & Hx & Hy).
    exists x, y. split; [now apply before_later|split; assumption].
Qed.

Lemma before_elem_of {A} (x y : A) (l : list A) :
  before x y l -> x ∈ l /\ y ∈ l.
Proof.
  induction 1 as [l Hy|z l _ [IHx IHy]].
  - split; [apply list_elem_of_here|now apply list_elem_of_further].
  - split; now apply list_elem_of_further.
Qed.

Section SortedFacts.

Context {A : Type}.
Variable key : A -> Q.

Lemma elem_of_insert_desc (x a : A) (l : list A) :
  x ∈ insert_desc key a l <-> x = a \/ x ∈ l.
Proof.
  induction l as [|y ys IH]; simpl.
  - rewrite list_elem_of_singleton. split; [now left|].
    intros [H|H]; [exact H|inversion H].
  - destruct (Qle_bool (key y) (key a)).
    + rewrite elem_of_cons. reflexivity.
    + rewrite !elem_of_cons, IH. tauto.
Qed.

Lemma elem_of_sorted_desc (x : A) (l : list A) :
  x ∈ sorted_desc key l <-> x ∈ l.
Proof.
  induction l as [|a l IH]; simpl; [reflexivity|].
  rewrite elem_of_insert_desc, elem_of_cons, IH. reflexivity.
Qed.

Lemma length_insert_desc (a : A) (l : list A) :
  length (insert_desc key a l) = S (length l).
Proof.
  induction l as [|y ys IH]; simpl; [reflexivity|].
  destruct (Qle_bool (key y) (key a)); simpl; [reflexivity|now rewrite IH].
Qed.

Lemma length_sorted_desc (l : list A) :
  length (sorted_desc key l) = length l.
Proof.
  induction l as [|a l IH]; simpl; [reflexivity|].
  now rewrite length_insert_desc, IH.
Qed.

Lemma insert_desc_descending (a : A) (l : list A) :
  descending key l -> descending key (insert_desc key a l).
Proof.
  induction 1 as [|y ys Hys IH Hall]; simpl.
  - repeat constructor.
  - destruct (Qle_bool (key y) (key a)) eqn:Hle.
    + apply Qle_bool_iff in Hle.
      constructor; [constructor; assumption|].
      constructor; [exact Hle|].
      eapply Forall_impl; [exact Hall|].
      intros z Hz. simpl in *. now apply Qle_trans with (key y).
    + constructor; [exact IH|].
      apply Forall_forall. intros z Hz.
      apply elem_of_insert_desc in Hz as [->|Hz].
      * assert (~ (key y <= key a)%Q) as Hn
          by (rewrite <- Qle_bool_iff, Hle; discriminate).
        apply Qlt_le_weak, Qnot_le_lt, Hn.
      * rewrite Forall_forall in Hall. now apply Hall.
Qed.

Lemma sorted_desc_descending (l : list A) : descending key (sorted_desc key l).
Proof.
  induction l as [|a l IH]; simpl; [constructor|].
  now apply insert_desc_descending.
Qed.

(** Sorting a list that is already in decreasing order changes nothing. *)
Lemma sorted_desc_id (l : list A) : descending key l -> sorted_desc key l = l.
Proof.
  induction 1 as [|a l Hl IH Hall]; simpl; [reflexivity|].
  rewrite IH. destruct l as [|y ys]; simpl; [reflexivity|].
  inversion Hall as [|? ? Hy _]; subst.
  apply Qle_bool_iff in Hy. now rewrite Hy.
Qed.

Lemma before_insert_desc (x y a : A) (l : list A) :
  before x y (insert_desc key a l) ->
  (x = a /\ y ∈ l) \/ (y = a /\ (key a < key x)%Q) \/ before x y l.
Proof.
  induction l as [|z zs IH]; simpl; intros H.
  - inversion H as [? Hy|? ? Hb]; subst.
    + inversion Hy.
    + inversion Hb.
  - destruct (Qle_bool (key z) (key a)) eqn:Hle.
    + inversion H as [? Hy|? ? Hb]; subst.
      * left. split; [reflexivity|exact Hy].
      * right; right. exact Hb.
    + assert ((key a < key z)%Q) as Hlt.
      { apply Qnot_le_lt. rewrite <- Qle_bool_iff, Hle. discriminate. }
      inversion H as [? Hy|? ? Hb]; subst.
      * apply elem_of_insert_desc in Hy as [->|Hy].
        -- right; left. split; [reflexivity|exact Hlt].
        -- right; right. now apply before_here.
      * destruct (IH Hb) as [[-> Hy]|[[-> Hk]|Hb']].
        -- left. split; [reflexivity|now apply list_elem_of_further].
        -- right; left. split; [reflexivity|exact Hk].
        -- right; right. now apply before_later.
Qed.

(** Stability: elements with equal keys keep their order. *)
Lemma sorted_desc_stable (x y : A) (l : list A) :
  before x y (sorted_desc key l) -> (key x == key y)%Q -> before x y l.
Proof.
  induction l as [|a l IH]; simpl; intros H Heq.
  - inversion H.
  - apply before_insert_desc in H as [[-> Hy]|[[-> Hk]|Hb]].
    + apply before_here. exact (proj1 (elem_of_sorted_desc y l) Hy).
    + exfalso. apply (Qlt_irrefl (key a)).
      apply Qlt_le_trans with (key x); [exact Hk|].
      rewrite Heq. apply Qle_refl.
    + apply before_later. now apply IH.
Qed.

Lemma descending_firstn (n : nat) (l : list A) :
  descending key l -> descending key (firstn n l).
Proof.
  intros H. revert n. induction H as [|a l Hl IH Hall]; intros [|n]; simpl;
    try constructor.
  - apply IH.
  - apply Forall_forall. intros z Hz.
    rewrite Forall_forall in Hall. apply Hall.
    rewrite <- (firstn_skipn n l). apply elem_of_app. now left.
Qed.

End SortedFacts.

Lemma descending_slice_to {A} (key : A -> Q) (n : Z) (l : list A) :
  descending key l -> descending key (slice_to n l).
Proof.
  intros H. unfold slice_to. destruct (0 <=? n); now apply descending_firstn.
Qed.

Lemma before_slice_to {A} (x y : A) (n : Z) (l : list A) :
  before x y (slice_to n l) -> before x y l.
Proof.
  unfold slice_to. destruct (0 <=? n); apply before_firstn.
Qed.

Lemma elem_of_firstn {A} (x : A) (n : nat) (l : list A) :
  x ∈ firstn n l -> x ∈ l.
Proof.
  intros H. rewrite <- (firstn_skipn n l). apply elem_of_app. now left.
Qed.

Lemma elem_of_slice_to {A} (x : A) (n : Z) (l : list A) :
  x ∈ slice_to n l -> x ∈ l.
Proof.
  unfold slice_to. destruct (0 <=? n); apply elem_of_firstn.
Qed.

(** ** Insertion-ordered dictionaries *)

Lemma elem_of_add_key (ks : list string) (k c : string) :
  c ∈ add_key ks k <-> c ∈ ks \/ c = k.
Proof.
  unfold add_key. destruct (decide (k ∈ ks)) as [Hin|Hin].
  - split; [now left|]. intros [H| ->]; assumption.
  - rewrite elem_of_app, list_elem_of_singleton. reflexivity.
Qed.

Lemma NoDup_add_key (ks : list string) (k : string) :
  NoDup ks -> NoDup (add_key ks k).
Proof.
  intros H. unfold add_key. destruct (decide (k ∈ ks)) as [Hin|Hin]; [exact H|].
  apply NoDup_app. split; [exact H|]. split; [|apply NoDup_singleton].
  intros x Hx Hx'. apply list_elem_of_singleton in Hx'. now subst.
Qed.

Lemma elem_of_add_keys (ids ks : list string) (c : string) :
  c ∈ fold_left add_key ids ks <-> c ∈ ks \/ c ∈ ids.
Proof.
  revert ks. induction ids as [|i ids IH]; intros ks; simpl.
  - rewrite elem_of_nil. tauto.
  - rewrite IH, elem_of_add_key, elem_of_cons. tauto.
Qed.

Lemma NoDup_add_keys (ids ks : list string) :
  NoDup ks -> NoDup (fold_left add_key ids ks).
Proof.
  revert ks. induction ids as [|i ids IH]; intros ks H; simpl; [exact H|].
  apply IH, NoDup_add_key, H.
Qed.

Lemma add_keys_NoDup (ids ks : list string) :
  NoDup (ks ++ ids) -> fold_left add_key ids ks = ks ++ ids.
Proof.
  revert ks. induction ids as [|i ids IH]; intros ks H; simpl.
  - now rewrite app_nil_r.
  - assert (i ∉ ks) as Hi.
    { apply NoDup_app in H as (_ & H & _). intros Hin.
      apply (H i Hin). apply list_elem_of_here. }
    unfold add_key at 2. destruct (decide (i ∈ ks)); [contradiction|].
    rewrite IH; rewrite <- app_assoc; [reflexivity|exact H].
Qed.

Lemma elem_of_first_occurrences (ids : list string) (c : string) :
  c ∈ first_occurrences ids <-> c ∈ ids.
Proof.
  unfold first_occurrences. rewrite elem_of_add_keys, elem_of_nil. tauto.
Qed.

Lemma NoDup_first_occurrences (ids : list string) :
  NoDup (first_occurrences ids).
Proof. apply NoDup_add_keys, NoDup_nil_2. Qed.

Lemma first_occurrences_NoDup (ids : list string) :
  NoDup ids -> first_occurrences ids = ids.
Proof. intros H. apply (add_keys_NoDup ids []). exact H. Qed.

Module PyDictFacts.
Import PyDict.

Section Facts.
Context {V : Type}.
Implicit Types (d : t V) (k : string) (v : V).

Lemma get_set_eq d k v : get (set d k v) k = Some v.
Proof.
  induction d as [|[k' v'] d IH]; simpl.
  - now rewrite String.eqb_refl.
  - destruct (String.eqb_spec k k') as [->|Hne]; simpl.
    + now rewrite String.eqb_refl.
    + destruct (String.eqb_spec k k'); [contradiction|exact IH].
Qed.

Lemma get_set_ne d k k' v : k <> k' -> get (set d k v) k' = get d k'.
Proof.
  intros Hne. induction d as [|[k0 v0] d IH]; simpl.
  - destruct (String.eqb_spec k' k); [congruence|reflexivity].
  - destruct (String.eqb_spec k k0) as [->|Hk]; simpl.
    + destruct (String.eqb_spec k' k0); [congruence|reflexivity].
    + destruct (String.eqb_spec k' k0); [reflexivity|exact IH].
Qed.

Lemma get_None d k : get d k = None <-> k ∉ keys d.
Proof.
  induction d as [|[k' v'] d IH]; simpl.
  - split; [intros _; apply not_elem_of_nil|reflexivity].
  - rewrite not_elem_of_cons.
    destruct (String.eqb_spec k k') as [->|Hne].
    + split; [discriminate|]. intros [H _]. now contradiction H.
    + rewrite IH. tauto.
Qed.

Lemma get_Some_elem_of d k v : get d k = Some v -> (k, v) ∈ d.
Proof.
  induction d as [|[k' v'] d IH]; simpl; [discriminate|].
  destruct (String.eqb_spec k k') as [->|Hne].
  - intros [= ->]. apply list_elem_of_here.
  - intros H. apply list_elem_of_further, IH, H.
Qed.

Lemma get_is_Some d k : k ∈ keys d -> is_Some (get d k).
Proof.
  intros H. destruct (get d k) eqn:E; [eauto|].
  apply get_None in E. contradiction.
Qed.

Lemma elem_of_get d k v : NoDup (keys d) -> (k, v) ∈ d -> get d k = Some v.
Proof.
  induction d as [|[k' v'] d IH]; simpl; intros Hnd Hin.
  - inversion Hin.
  - apply NoDup_cons in Hnd as [Hk' Hnd].
    apply elem_of_cons in Hin as [[= -> ->]|Hin].
    + now rewrite String.eqb_refl.
    + destruct (String.eqb_spec k k') as [->|Hne]; [|now apply IH].
      exfalso. apply Hk'. unfold keys.
      change (k' ∈ fst <$> d).
      apply (list_elem_of_fmap_2 fst) in Hin. exact Hin.
Qed.

Lemma keys_set d k v : keys (set d k v) = add_key (keys d) k.
Proof.
  unfold add_key. induction d as [|[k' v'] d IH]; simpl.
  - destruct (decide (k ∈ [])) as [H|_]; [inversion H|reflexivity].
  - destruct (String.eqb_spec k k') as [->|Hne]; simpl.
    + destruct (decide (k' ∈ k' :: keys d)) as [_|H]; [reflexivity|].
      exfalso. apply H, list_elem_of_here.
    + rewrite IH.
      destruct (decide (k ∈ keys d)) as [Hin|Hin];
        destruct (decide (k ∈ k' :: keys d)) as [Hin'|Hin'];
        try reflexivity.
      * exfalso. apply Hin'. now apply list_elem_of_further.
      * exfalso. apply elem_of_cons in Hin' as [?|?]; contradiction.
Qed.

Lemma keys_setdefault d k v : keys (setdefault d k v) = add_key (keys d) k.
Proof.
  unfold setdefault. destruct (get d k) eqn:E.
  - unfold add_key. destruct (decide (k ∈ keys d)) as [_|Hn]; [reflexivity|].
    apply get_None in Hn. congruence.
  - apply keys_set.
Qed.

Lemma get_setdefault d k k' v :
  get (setdefault d k v) k' =
  match get d k' with
  | Some v' => Some v'
  | None => if decide (k = k') then Some v else None
  end.
Proof.
  unfold setdefault. destruct (decide (k = k')) as [<-|Hne].
  - destruct (get d k) eqn:E; [now rewrite E|]. apply get_set_eq.
  - destruct (get d k) eqn:E.
    + now destruct (get d k').
    + rewrite (get_set_ne _ _ _ _ Hne). now destruct (get d k').
Qed.

Lemma set_fresh d k v : k ∉ keys d -> set d k v = d ++ [(k, v)].
Proof.
  induction d as [|[k' v'] d IH]; simpl; intros H; [reflexivity|].
  apply not_elem_of_cons in H as [Hne H].
  destruct (String.eqb_spec k k'); [contradiction|].
  now rewrite IH.
Qed.



Lemma fold_set_NoDup (l : list (string * V)) d :
  NoDup (keys d ++ map fst l) -> fold_left set_pair l d = d ++ l.
Proof.
  revert d. induction l as [|[k v] l IH]; intros d H; simpl.
  - now rewrite app_nil_r.
  - assert (k ∉ keys d) as Hk.
    { apply NoDup_app in H as (_ & H & _). intros Hin.
      apply (H k Hin). apply list_elem_of_here. }
    change (set_pair d (k, v)) with (set d k v). rewrite (set_fresh _ _ _ Hk).
    rewrite IH.
    + now rewrite <- app_assoc.
    + unfold keys in *. rewrite map_app. simpl. rewrite <- app_assoc. exact H.
Qed.

Lemma of_list_NoDup (l : list (string * V)) :
  NoDup (map fst l) -> of_list l = l.
Proof. intros H. apply (fold_set_NoDup l []). exact H. Qed.

(** The value under a key is the one bound last. *)
Lemma get_fold_set (l : list (string * V)) d k :
  get (fold_left set_pair l d) k =
  match last (filter (fun kv => fst kv = k) l) with
  | Some kv => Some (snd kv)
  | None => get d k
  end.
Proof.
  revert d. induction l as [|[k' v'] l IH] using rev_ind; intros d.
  - reflexivity.
  - rewrite fold_left_app, filter_app. simpl.
    change (set_pair (fold_left set_pair l d) (k', v'))
      with (set (fold_left set_pair l d) k' v').
    destruct (decide (k' = k)) as [->|Hne].
    + rewrite filter_cons_True by reflexivity.
      rewrite filter_nil, last_snoc. simpl. apply get_set_eq.
    + rewrite filter_cons_False by (simpl; congruence).
      rewrite filter_nil, app_nil_r.
      rewrite (get_set_ne _ _ _ _ Hne). apply IH.
Qed.

Lemma get_of_list (l : list (string * V)) k :
  get (of_list l) k = snd <$> last (filter (fun kv => fst kv = k) l).
Proof.
  change (of_list l) with (fold_left (@set_pair V) l []).
  rewrite get_fold_set. now destruct (last _).
Qed.

End Facts.
End PyDictFacts.

(** ** Reciprocal rank fusion *)

Lemma occ_sum_not_elem_of k rank items c :
  c ∉ map fst items -> (occ_sum k rank items c == 0)%Q.
Proof.
  revert rank. induction items as [|[c' s] items IH]; intros rank H; simpl.
  - reflexivity.
  - simpl in H. apply not_elem_of_cons in H as [Hne H].
    destruct (decide (c' = c)); [congruence|].
    rewrite (IH (rank + 1) H). reflexivity.
Qed.

Lemma rank_from_None rank c items :
  rank_from rank c items = None <-> c ∉ map fst items.
Proof.
  revert rank. induction items as [|[c' s] items IH]; intros rank; simpl.
  - split; [intros _; apply not_elem_of_nil|reflexivity].
  - rewrite not_elem_of_cons. destruct (decide (c' = c)) as [->|Hne].
    + split; [discriminate|]. intros [H _]. now contradiction H.
    + rewrite IH. split; [intros H; split; [congruence|exact H]|tauto].
Qed.

Lemma occ_sum_NoDup k rank items c :
  NoDup (map fst items) ->
  (occ_sum k rank items c ==
   match rank_from rank c items with
   | Some r => 1 / inject_Z (k + r)
   | None => 0
   end)%Q.
Proof.
  revert rank. induction items as [|[c' s] items IH]; intros rank H; simpl.
  - reflexivity.
  - simpl in H. apply NoDup_cons in H as [Hc' H].
    destruct (decide (c' = c)) as [->|Hne].
    + rewrite (occ_sum_not_elem_of _ _ _ _ Hc'). unfold Qdiv. ring.
    + rewrite (IH (rank + 1) H). ring.
Qed.

Lemma acc_value_acc_add acc c0 x c :
  acc_value (acc_add acc c0 x) c =
  if decide (c0 = c) then (acc_value acc c + x)%Q else acc_value acc c.
Proof.
  unfold acc_value, acc_add. destruct (decide (c0 = c)) as [->|Hne].
  - now rewrite PyDictFacts.get_set_eq.
  - now rewrite (PyDictFacts.get_set_ne _ _ _ _ Hne).
Qed.

Lemma occ_total_fused_score k rankings c :
  Forall (fun si => NoDup (map fst (snd si))) rankings ->
  (occ_total k rankings c == fused_score k rankings c)%Q.
Proof.
  induction 1 as [|[src items] rest Hnd _ IH]; simpl; [reflexivity|].
  rewrite IH. unfold contribution, rank_of.
  now rewrite (occ_sum_NoDup k 1 items c Hnd).
Qed.

Section RrfLoops.

Variable k : Z.

Lemma rrf_items_spec source items : forall rank st st',
  rrf_items k source rank items st = Ok st' ->
  PyDict.keys (accumulator st') =
    fold_left add_key (map fst items) (PyDict.keys (accumulator st))
  /\ PyDict.keys (provenance st') =
       fold_left add_key (map fst items) (PyDict.keys (provenance st))
  /\ (forall c, acc_value (accumulator st') c
                == acc_value (accumulator st) c + occ_sum k rank items c)%Q
  /\ (forall c, PyDict.get (provenance st') c =
                match PyDict.get (provenance st) c with
                | Some s => Some s
                | None => if decide (c ∈ map fst items) then Some source
                          else None
                end).
Proof.
  induction items as [|[c0 s0] items IH]; intros rank st st'; simpl.
  - intros [= <-]. repeat split.
    + intros c. ring.
    + intros c. now destruct (PyDict.get (provenance st) c).
  - destruct (k + rank =? 0); [discriminate|]. intros H.
    apply IH in H as (Hka & Hkp & Hv & Hp).
    cbn [accumulator provenance] in Hka, Hkp, Hv, Hp.
    unfold acc_add in Hka. rewrite PyDictFacts.keys_set in Hka.
    rewrite PyDictFacts.keys_setdefault in Hkp.
    repeat split; [exact Hka|exact Hkp| |].
    + intros c. rewrite Hv, acc_value_acc_add.
      destruct (decide (c0 = c)); ring.
    + intros c. rewrite Hp, PyDictFacts.get_setdefault.
      destruct (PyDict.get (provenance st) c); [reflexivity|].
      destruct (decide (c0 = c)) as [->|Hne].
      * destruct (decide (c ∈ c :: map fst items)) as [_|Hn];
          [reflexivity|]. exfalso. apply Hn, list_elem_of_here.
      * destruct (decide (c ∈ map fst items)) as [Hin|Hin];
          destruct (decide (c ∈ c0 :: map fst items)) as [Hin'|Hin'];
          try reflexivity.
        -- exfalso. apply Hin'. now apply list_elem_of_further.
        -- exfalso. apply elem_of_cons in Hin' as [?|?];
             [congruence|contradiction].
Qed.


Lemma rrf_sources_spec rankings : forall st st',
  rrf_sources k rankings st = Ok st' ->
  PyDict.keys (accumulator st') =
    fold_left add_key (all_ids rankings) (PyDict.keys (accumulator st))
  /\ PyDict.keys (provenance st') =
       fold_left add_key (all_ids rankings) (PyDict.keys (provenance st))
  /\ (forall c, acc_value (accumulator st') c
                == acc_value (accumulator st) c + occ_total k rankings c)%Q
  /\ (forall c, PyDict.get (provenance st') c =
                match PyDict.get (provenance st) c with
                | Some s => Some s
                | None => first_source rankings c
                end).
Proof.
  induction rankings as [|[source items] rest IH]; intros st st'; simpl.
  - intros [= <-]. repeat split.
    + intros c. ring.
    + intros c. now destruct (PyDict.get (provenance st) c).
  - destruct (rrf_items k source 1 items st) as [e|st1] eqn:E; simpl;
      [discriminate|].
    intros H. apply rrf_items_spec in E as (Hka1 & Hkp1 & Hv1 & Hp1).
    apply IH in H as (Hka & Hkp & Hv & Hp).
    unfold all_ids in *. simpl. rewrite !fold_left_app, <- Hka1, <- Hkp1.
    repeat split; [exact Hka|exact Hkp| |].
    + intros c. rewrite Hv, Hv1. ring.
    + intros c. rewrite Hp, Hp1.
      destruct (PyDict.get (provenance st) c); [reflexivity|].
      now destruct (decide (c ∈ map fst items)).
Qed.


End RrfLoops.

Lemma with_provenance_spec prov acc l :
  with_provenance prov acc = Ok l ->
  l = map (attach prov) acc
  /\ forall c, c ∈ PyDict.keys acc -> is_Some (PyDict.get prov c).
Proof.
  revert l. induction acc as [|[c s] acc IH]; intros l; simpl.
  - intros [= <-]. split; [reflexivity|]. intros c H. inversion H.
  - destruct (PyDict.get prov c) as [src|] eqn:E; [|discriminate].
    destruct (with_provenance prov acc) as [e|l'] eqn:E'; simpl;
      [discriminate|].
    intros [= <-]. destruct (IH l' eq_refl) as [-> Hall]. split.
    + cbn [map]. f_equal. unfold attach. cbn [fst snd]. now rewrite E.
    + intros c' Hc'. apply elem_of_cons in Hc' as [->|Hc'];
        [rewrite E; eauto|now apply Hall].
Qed.

Lemma with_provenance_ok prov acc :
  (forall c, c ∈ PyDict.keys acc -> is_Some (PyDict.get prov c)) ->
  with_provenance prov acc = Ok (map (attach prov) acc).
Proof.
  induction acc as [|[c s] acc IH]; intros H; simpl; [reflexivity|].
  destruct (H c) as [src E]; [apply list_elem_of_here|].
  rewrite E, IH; cbn [rbind map].
  - unfold attach at 2. cbn [fst snd]. now rewrite E.
  - intros c' Hc'. apply H. now apply list_elem_of_further.
Qed.

(** The shape of the result of [reciprocal_rank_fusion]. *)
Lemma reciprocal_rank_fusion_inv rankings k out :
  reciprocal_rank_fusion rankings k = Ok out ->
  exists st,
    rrf_sources k rankings (mkRrfState [] []) = Ok st
    /\ out = sorted_desc fused_key (map (attach (provenance st)) (accumulator st))
    /\ PyDict.keys (accumulator st) = first_occurrences (all_ids rankings)
    /\ PyDict.keys (provenance st) = first_occurrences (all_ids rankings).
Proof.
  unfold reciprocal_rank_fusion.
  destruct (rrf_sources k rankings _) as [e|st] eqn:E; simpl; [discriminate|].
  destruct (with_provenance _ _) as [e|l] eqn:E'; simpl; [discriminate|].
  intros [= <-]. exists st.
  apply with_provenance_spec in E' as [-> _].
  pose proof (rrf_sources_spec k rankings _ _ E) as (Hka & Hkp & _).
  repeat split; assumption.
Qed.


Lemma insert_desc_Permutation {A} (key : A -> Q) (a : A) (l : list A) :
  insert_desc key a l ≡ₚ a :: l.
Proof.
  induction l as [|y ys IH]; simpl; [reflexivity|].
  destruct (Qle_bool (key y) (key a)); [reflexivity|].
  rewrite IH. apply perm_swap.
Qed.

Lemma sorted_desc_Permutation {A} (key : A -> Q) (l : list A) :
  sorted_desc key l ≡ₚ l.
Proof.
  induction l as [|a l IH]; simpl; [reflexivity|].
  now rewrite insert_desc_Permutation, IH.
Qed.

Lemma map_fused_id_attach prov acc :
  map fused_id (map (attach prov) acc) = PyDict.keys acc.
Proof.
  unfold PyDict.keys. rewrite map_map. apply map_ext. now intros [c s].
Qed.

(** The identifiers of the fused list are the distinct identifiers of the
    sources. *)
Lemma fused_ids_Permutation rankings k out :
  reciprocal_rank_fusion rankings k = Ok out ->
  map fused_id out ≡ₚ first_occurrences (all_ids rankings).
Proof.
  intros H. apply reciprocal_rank_fusion_inv in H as (st & _ & -> & Hka & _).
  change (fused_id <$> sorted_desc fused_key (map (attach (provenance st))
                                                (accumulator st))
          ≡ₚ first_occurrences (all_ids rankings)).
  rewrite sorted_desc_Permutation.
  change (map fused_id (map (attach (provenance st)) (accumulator st))
          ≡ₚ first_occurrences (all_ids rankings)).
  now rewrite map_fused_id_attach, Hka.
Qed.

Lemma fused_ids_NoDup rankings k out :
  reciprocal_rank_fusion rankings k = Ok out -> NoDup (map fused_id out).
Proof.
  intros H. rewrite (fused_ids_Permutation _ _ _ H).
  apply NoDup_first_occurrences.
Qed.

(** Every fused entry carries the accumulated sum and the first source. *)
Lemma fused_entry rankings k out c score source :
  reciprocal_rank_fusion rankings k = Ok out ->
  (c, score, source) ∈ out ->
  (score == occ_total k rankings c)%Q
  /\ first_source rankings c = Some source.
Proof.
  intros H Hin.
  apply reciprocal_rank_fusion_inv in H as (st & Hst & -> & Hka & Hkp).
  apply elem_of_sorted_desc in Hin.
  change ((c, score, source) ∈ attach (provenance st) <$> accumulator st) in Hin.
  apply list_elem_of_fmap in Hin as ([c' s'] & Heq & Hin).
  unfold attach in Heq. simpl in Heq. injection Heq as Ec Es Ep. subst c score.
  pose proof (rrf_sources_spec k rankings _ _ Hst) as (_ & _ & Hv & Hp).
  assert (NoDup (PyDict.keys (accumulator st))) as Hnd
    by (rewrite Hka; apply NoDup_first_occurrences).
  pose proof (PyDictFacts.elem_of_get _ _ _ Hnd Hin) as Hget.
  split.
  - specialize (Hv c'). unfold acc_value in Hv at 1. rewrite Hget in Hv.
    simpl in Hv. rewrite Hv. unfold acc_value. simpl. ring.
  - specialize (Hp c'). simpl in Hp.
    assert (is_Some (PyDict.get (provenance st) c')) as [src Hsrc].
    { apply PyDictFacts.get_is_Some. rewrite Hkp, <- Hka.
      change (c' ∈ fst <$> accumulator st).
      apply (list_elem_of_fmap_2 fst) in Hin. exact Hin. }
    rewrite Hsrc in Hp, Ep. simpl in Ep. subst source. now symmetry.
Qed.



(** A chunk that a source lists twice collects both positions. *)
Example reciprocal_rank_fusion_repeated_chunk :
  exists score,
    reciprocal_rank_fusion repeated_rankings 60 = Ok [("a", score, "dense")]
    /\ (score == 1 / 61 + 1 / 62)%Q.
Proof. eexists. split; [vm_compute; reflexivity|reflexivity]. Qed.

(** ** The hybrid retriever *)

Lemma all_ids_branch d s :
  all_ids (branch_rankings d s) = map hit_chunk_id (d ++ s).
Proof.
  unfold all_ids, branch_rankings. simpl.
  rewrite app_nil_r, !map_map, map_app. reflexivity.
Qed.

Lemma filter_map {A B} (P : B -> Prop) `{!forall b, Decision (P b)}
    (f : A -> B) (l : list A) :
  filter P (map f l) = map f (filter (fun a => P (f a)) l).
Proof.
  induction l as [|a l IH]; simpl; [reflexivity|].
  rewrite !filter_cons. destruct (decide (P (f a))); simpl; now rewrite IH.
Qed.

Lemma get_enriched d s c :
  PyDict.get (enriched_of d s) c =
  last (filter (fun h => hit_chunk_id h = c) (d ++ s)).
Proof.
  unfold enriched_of. rewrite PyDictFacts.get_of_list.
  rewrite (filter_map (fun kv : string * Hit => fst kv = c)).
  change (map ?f ?l) with (f <$> l). rewrite fmap_last. simpl.
  now destruct (last _).
Qed.

Lemma get_enriched_id d s c h :
  PyDict.get (enriched_of d s) c = Some h -> hit_chunk_id h = c.
Proof.
  rewrite get_enriched. intros H. apply last_Some_elem_of in H.
  now apply list_elem_of_filter in H as [H _].
Qed.

Lemma get_enriched_is_Some d s c :
  c ∈ map hit_chunk_id (d ++ s) -> is_Some (PyDict.get (enriched_of d s) c).
Proof.
  intros H. change (c ∈ hit_chunk_id <$> (d ++ s)) in H.
  apply list_elem_of_fmap in H as (h & -> & Hin).
  rewrite get_enriched. apply last_is_Some. intros Hnil.
  assert (h ∈ filter (fun h0 => hit_chunk_id h0 = hit_chunk_id h) (d ++ s)) as Hf
    by (apply list_elem_of_filter; split; [reflexivity|exact Hin]).
  rewrite Hnil in Hf. inversion Hf.
Qed.

(** A hit of the sparse branch overrides the dense hit of the same chunk. *)
Lemma get_enriched_sparse d s c hs :
  last (filter (fun h => hit_chunk_id h = c) s) = Some hs ->
  PyDict.get (enriched_of d s) c = Some hs.
Proof.
  intros H. rewrite get_enriched, filter_app, last_app. now rewrite H.
Qed.

Lemma hit_chunk_id_of_item d s item :
  hit_chunk_id (hit_of_item (enriched_of d s) item) = fused_id item.
Proof.
  unfold hit_of_item, hit_or_blank. simpl.
  destruct (PyDict.get (enriched_of d s) (fused_id item)) eqn:E; simpl;
    [now apply get_enriched_id in E|reflexivity].
Qed.

Lemma enrich_spec enriched fused_map ids l :
  enrich enriched fused_map ids = Ok l ->
  l = map (fun c => with_score (hit_or_blank enriched c)
                               (default 0%Q (PyDict.get fused_map c))) ids.
Proof.
  revert l. induction ids as [|c ids IH]; intros l; simpl.
  - now intros [= <-].
  - unfold hit_or_blank at 1.
    destruct (PyDict.get enriched c) as [h|]; [|discriminate].
    destruct (PyDict.get fused_map c) as [sc|]; [|discriminate].
    destruct (enrich enriched fused_map ids) as [e|l'];
      simpl; [discriminate|].
    intros [= <-]. now rewrite (IH l' eq_refl).
Qed.

Lemma enrich_ok enriched fused_map ids :
  (forall c, c ∈ ids -> is_Some (PyDict.get enriched c)
                        /\ is_Some (PyDict.get fused_map c)) ->
  exists l, enrich enriched fused_map ids = Ok l.
Proof.
  induction ids as [|c ids IH]; intros H; simpl; [eauto|].
  destruct (H c) as [[h ->] [sc ->]]; [apply list_elem_of_here|].
  destruct IH as [l ->]; [|simpl; eauto].
  intros c' Hc'. apply H. now apply list_elem_of_further.
Qed.

Lemma descending_map {A B} (key1 : A -> Q) (key2 : B -> Q) (g : A -> B)
    (l : list A) :
  (forall x, key2 (g x) = key1 x) ->
  descending key1 l -> descending key2 (map g l).
Proof.
  intros Hk. induction 1 as [|a l Hl IH Hall]; simpl; constructor.
  - exact IH.
  - change (Forall (fun b => (key2 b <= key2 (g a))%Q) (g <$> l)).
    apply Forall_fmap. eapply Forall_impl; [exact Hall|].
    intros x Hx. simpl. now rewrite !Hk.
Qed.

(** The result of [fuse_hits]: the fused list, each entry turned into the
    hit of the combined lookup with the fused score, cut at [top_k]. *)
Lemma fuse_hits_inv rrf_k d s top_k out :
  fuse_hits rrf_k d s top_k = Ok out ->
  exists fused,
    reciprocal_rank_fusion (branch_rankings d s) rrf_k = Ok fused
    /\ out = slice_to top_k (map (hit_of_item (enriched_of d s)) fused).
Proof.
  unfold fuse_hits. fold (branch_rankings d s). fold (enriched_of d s).
  destruct (reciprocal_rank_fusion (branch_rankings d s) rrf_k)
    as [e|fused] eqn:E; simpl; [discriminate|].
  change (map (fun item => (fst (fst item), snd (fst item))) fused)
    with (map fused_pair fused).
  assert (NoDup (map fst (map fused_pair fused))) as Hnd.
  { rewrite map_map. apply (fused_ids_NoDup _ _ _ E). }
  rewrite (PyDictFacts.of_list_NoDup _ Hnd).
  destruct (enrich _ _ _) as [e|l] eqn:El; simpl; [discriminate|].
  intros [= <-]. exists fused. split; [reflexivity|].
  apply enrich_spec in El. subst l. unfold PyDict.keys.
  rewrite !map_map.
  assert (map (fun x => with_score (hit_or_blank (enriched_of d s) (fst (fused_pair x)))
                 (default 0%Q (PyDict.get (map fused_pair fused) (fst (fused_pair x)))))
              fused
          = map (hit_of_item (enriched_of d s)) fused) as ->.
  { apply map_ext_in. intros item Hin. unfold hit_of_item.
    change (fst (fused_pair item)) with (fused_id item). f_equal.
    rewrite (PyDictFacts.elem_of_get (map fused_pair fused) (fused_id item)
               (fused_key item)); [reflexivity|exact Hnd|].
    change ((fused_id item, fused_key item) ∈ fused_pair <$> fused).
    apply list_elem_of_fmap. exists item. split; [reflexivity|].
    now apply list_elem_of_In. }
  f_equal. apply sorted_desc_id.
  apply descending_map with (key1 := fused_key); [reflexivity|].
  apply reciprocal_rank_fusion_inv in E as (st & _ & -> & _).
  apply sorted_desc_descending.
Qed.


Lemma retrieve_inv model dense_search corpus bm25 rrf_k query top_k out :
  retrieve model dense_search corpus bm25 rrf_k query top_k = Ok out ->
  exists dense_hits,
    _dense_retrieval model dense_search query (top_k * 2) = Ok dense_hits
    /\ fuse_hits rrf_k dense_hits
         (_sparse_retrieval corpus bm25 query (top_k * 4)) top_k = Ok out.
Proof.
  unfold retrieve.
  destruct (_dense_retrieval model dense_search query (top_k * 2))
    as [e|d]; simpl; [discriminate|]. eauto.
Qed.

(** C4: when a chunk is in both branch lists, the hit [retrieve] returns for
    it has the content, level, metadata and document of the sparse-branch
    hit (the one merged last into the combined lookup) and the score that
    [reciprocal_rank_fusion] gave the chunk, whose provenance there is
    ["dense"]. *)
Theorem retrieve_duplicate_takes_sparse_attributes
    (model : option (list string -> list (list Q)))
    (dense_search : list Q -> Z -> list Hit) (corpus : list CorpusDoc)
    (bm25_get_scores : list (list string) -> list string -> list Q)
    (rrf_k : Z) (query : string) (top_k : Z)
    (dense_hits out : list Hit) (h hs : Hit) :
  let sparse_hits := _sparse_retrieval corpus bm25_get_scores query (top_k * 4) in
  _dense_retrieval model dense_search query (top_k * 2) = Ok dense_hits ->
  retrieve model dense_search corpus bm25_get_scores rrf_k query top_k = Ok out ->
  h ∈ out ->
  hit_chunk_id h ∈ map hit_chunk_id dense_hits ->
  last (filter (fun x => hit_chunk_id x = hit_chunk_id h) sparse_hits) = Some hs ->
  hit_content h = hit_content hs
  /\ hit_level h = hit_level hs
  /\ hit_metadata h = hit_metadata hs
  /\ hit_document_id h = hit_document_id hs
  /\ exists fused,
       reciprocal_rank_fusion (branch_rankings dense_hits sparse_hits) rrf_k
       = Ok fused
       /\ (hit_chunk_id h, hit_score h, "dense") ∈ fused.
Proof.
  intros sparse_hits Hd Hr Hin Hdense Hlast.
  apply retrieve_inv in Hr as (d' & Hd' & Hf).
  rewrite Hd in Hd'. injection Hd' as <-.
  fold sparse_hits in Hf.
  apply fuse_hits_inv in Hf as (fused & Hrrf & ->).
  apply elem_of_slice_to in Hin.
  change (h ∈ hit_of_item (enriched_of dense_hits sparse_hits) <$> fused) in Hin.
  apply list_elem_of_fmap in Hin as ([[c sc] src] & -> & Hin).
  rewrite hit_chunk_id_of_item in Hdense, Hlast.
  change (fused_id (c, sc, src)) with c in Hdense, Hlast.
  unfold hit_of_item, hit_or_blank.
  change (fused_id (c, sc, src)) with c.
  rewrite (get_enriched_sparse dense_hits sparse_hits c hs Hlast). simpl.
  repeat split.
  exists fused. split; [exact Hrrf|].
  destruct (fused_entry _ _ _ _ _ _ Hrrf Hin) as [_ Hp].
  simpl in Hp. rewrite map_map in Hp.
  destruct (decide (c ∈ map (fun x => fst (id_score x)) dense_hits))
    as [_|Hn]; [|contradiction].
  apply last_Some_elem_of in Hlast.
  apply list_elem_of_filter in Hlast as [Hid _]. rewrite Hid.
  now injection Hp as <-.
Qed.

Lemma retrieve_duplicate_takes_sparse_attributes_witness :
  exists h,
    retrieve None sample_dense_search sample_corpus sample_bm25 60 "b" 8
    = Ok [h]
    /\ hit_content h = "B".
Proof.
  eexists. split; [vm_compute; reflexivity|].
  match goal with
  | |- hit_content ?h = _ =>
      destruct (retrieve_duplicate_takes_sparse_attributes
                  None sample_dense_search sample_corpus sample_bm25 60 "b" 8
                  (sample_dense_search [] 16) [h] h
                  (mkHit "c1" "doc-1" "B" "paragraph" ∅ 1))
        as (Hc & _)
  end.
  - reflexivity.
  - vm_compute. reflexivity.
  - apply list_elem_of_here.
  - apply list_elem_of_here.
  - vm_compute. reflexivity.
  - exact Hc.
Defined.

(** *** On doubles *)

Lemma keys_items (acc : PyDict.t Float.t) :
  PyDict.keys (Binary64.items acc) = PyDict.keys acc.
Proof.
  unfold PyDict.keys, Binary64.items. rewrite map_map. reflexivity.
Qed.

Lemma b64_rrf_items_keys (k : Z) (source : string)
    (items : list (string * Q)) :
  forall rank st st',
    Binary64.rrf_items k source rank items st = Ok st' ->
    PyDict.keys (Binary64.accumulator st') =
      fold_left add_key (map fst items)
                (PyDict.keys (Binary64.accumulator st))
    /\ PyDict.keys (Binary64.provenance st') =
         fold_left add_key (map fst items)
                   (PyDict.keys (Binary64.provenance st)).
Proof.
  induction items as [|[c0 s0] items IH]; intros rank st st'.
  - intros [= <-]. split; reflexivity.
  - cbn [Binary64.rrf_items].
    destruct (Float.truediv_int Float.one (k + rank)) as [e|x];
      [discriminate|].
    intros H. apply IH in H as (Hka & Hkp).
    cbn [Binary64.accumulator Binary64.provenance] in Hka, Hkp.
    unfold Binary64.acc_add in Hka. rewrite PyDictFacts.keys_set in Hka.
    rewrite PyDictFacts.keys_setdefault in Hkp.
    split; assumption.
Qed.

Lemma b64_rrf_sources_keys (k : Z) (rankings : PyDict.t (list (string * Q))) :
  forall st st',
    Binary64.rrf_sources k rankings st = Ok st' ->
    PyDict.keys (Binary64.accumulator st') =
      fold_left add_key (all_ids rankings)
                (PyDict.keys (Binary64.accumulator st))
    /\ PyDict.keys (Binary64.provenance st') =
         fold_left add_key (all_ids rankings)
                   (PyDict.keys (Binary64.provenance st)).
Proof.
  induction rankings as [|[source items] rest IH]; intros st st'.
  - intros [= <-]. split; reflexivity.
  - cbn [Binary64.rrf_sources].
    destruct (Binary64.rrf_items k source 1 items st) as [e|st1] eqn:E;
      [discriminate|].
    cbn [rbind]. intros H.
    apply b64_rrf_items_keys in E as (Hka1 & Hkp1).
    apply IH in H as (Hka & Hkp).
    unfold all_ids in *. cbn [map concat snd].
    rewrite !fold_left_app, <- Hka1, <- Hkp1. split; assumption.
Qed.

(** The shape of the result of the fusion on doubles. *)
Lemma b64_reciprocal_rank_fusion_inv rankings k out :
  Binary64.reciprocal_rank_fusion rankings k = Ok out ->
  exists st,
    Binary64.rrf_sources k rankings (Binary64.mkRrfState [] []) = Ok st
    /\ out = sorted_desc fused_key
               (map (attach (Binary64.provenance st))
                    (Binary64.items (Binary64.accumulator st)))
    /\ PyDict.keys (Binary64.accumulator st)
       = first_occurrences (all_ids rankings)
    /\ PyDict.keys (Binary64.provenance st)
       = first_occurrences (all_ids rankings).
Proof.
  unfold Binary64.reciprocal_rank_fusion.
  destruct (Binary64.rrf_sources k rankings _) as [e|st] eqn:E;
    [discriminate|]. cbn [rbind].
  destruct (with_provenance _ _) as [e|l] eqn:E'; [discriminate|].
  cbn [rbind]. intros [= <-]. exists st.
  apply with_provenance_spec in E' as [-> _].
  pose proof (b64_rrf_sources_keys k rankings _ _ E) as (Hka & Hkp).
  repeat split; assumption.
Qed.

(** Once the two loops are through, the sort and the provenance lookup
    cannot fail. *)
Lemma b64_after_loops rankings k st :
  Binary64.rrf_sources k rankings (Binary64.mkRrfState [] []) = Ok st ->
  exists out, Binary64.reciprocal_rank_fusion rankings k = Ok out.
Proof.
  intros E. unfold Binary64.reciprocal_rank_fusion. rewrite E.
  unfold Ok at 1. cbn [rbind].
  pose proof (b64_rrf_sources_keys k rankings _ _ E) as (Hka & Hkp).
  rewrite with_provenance_ok.
  - unfold Ok at 1. cbn [rbind]. eauto.
  - intros c Hc. apply PyDictFacts.get_is_Some.
    rewrite Hkp. rewrite keys_items, Hka in Hc. exact Hc.
Qed.

Lemma b64_fused_ids_Permutation rankings k out :
  Binary64.reciprocal_rank_fusion rankings k = Ok out ->
  map fused_id out ≡ₚ first_occurrences (all_ids rankings).
Proof.
  intros H.
  apply b64_reciprocal_rank_fusion_inv in H as (st & _ & -> & Hka & _).
  change (fused_id <$> sorted_desc fused_key
            (map (attach (Binary64.provenance st))
                 (Binary64.items (Binary64.accumulator st)))
          ≡ₚ first_occurrences (all_ids rankings)).
  rewrite sorted_desc_Permutation.
  change (map fused_id (map (attach (Binary64.provenance st))
                            (Binary64.items (Binary64.accumulator st)))
          ≡ₚ first_occurrences (all_ids rankings)).
  now rewrite map_fused_id_attach, keys_items, Hka.
Qed.

(** The part of [retrieve] after the fusion: on a fused list in decreasing
    order that names each chunk of the branches once, the two lookups
    succeed and the second sort changes nothing. *)
Lemma enrich_fused (d s : list Hit) (fused : list (string * Q * string))
    (top_k : Z) :
  NoDup (map fused_id fused) ->
  descending fused_key fused ->
  (forall c, c ∈ map fused_id fused -> c ∈ map hit_chunk_id (d ++ s)) ->
  rbind (enrich (enriched_of d s) (PyDict.of_list (map fused_pair fused))
                (PyDict.keys (PyDict.of_list (map fused_pair fused))))
        (fun l => Ok (slice_to top_k (sorted_desc hit_score l)))
  = Ok (slice_to top_k (map (hit_of_item (enriched_of d s)) fused)).
Proof.
  intros Hnd Hdesc Hids.
  assert (NoDup (map fst (map fused_pair fused))) as Hnd'
    by (rewrite map_map; exact Hnd).
  rewrite (PyDictFacts.of_list_NoDup _ Hnd').
  destruct (enrich_ok (enriched_of d s) (map fused_pair fused)
              (PyDict.keys (map fused_pair fused))) as [l El].
  { intros c Hc. split; [|now apply PyDictFacts.get_is_Some].
    apply get_enriched_is_Some, Hids.
    unfold PyDict.keys in Hc. rewrite map_map in Hc. exact Hc. }
  rewrite El. unfold Ok at 1. cbn [rbind]. f_equal. f_equal.
  apply enrich_spec in El. subst l. unfold PyDict.keys.
  rewrite !map_map.
  assert (map (fun x => with_score (hit_or_blank (enriched_of d s) (fst (fused_pair x)))
                 (default 0%Q (PyDict.get (map fused_pair fused) (fst (fused_pair x)))))
              fused
          = map (hit_of_item (enriched_of d s)) fused) as ->.
  { apply map_ext_in. intros item Hin. unfold hit_of_item.
    change (fst (fused_pair item)) with (fused_id item). f_equal.
    rewrite (PyDictFacts.elem_of_get (map fused_pair fused) (fused_id item)
               (fused_key item)); [reflexivity|exact Hnd'|].
    change ((fused_id item, fused_key item) ∈ fused_pair <$> fused).
    apply list_elem_of_fmap. exists item. split; [reflexivity|].
    now apply list_elem_of_In. }
  apply sorted_desc_id.
  now apply descending_map with (key1 := fused_key).
Qed.

(** [fuse_hits] on doubles returns exactly when the fusion does, and then
    the fused list, each entry turned into the hit of the combined lookup
    with the fused score, cut at [top_k]. *)
Lemma b64_fuse_hits rrf_k d s top_k :
  Binary64.fuse_hits rrf_k d s top_k
  = rbind (Binary64.reciprocal_rank_fusion (branch_rankings d s) rrf_k)
      (fun fused =>
         Ok (slice_to top_k (map (hit_of_item (enriched_of d s)) fused))).
Proof.
  unfold Binary64.fuse_hits. fold (branch_rankings d s).
  fold (enriched_of d s).
  destruct (Binary64.reciprocal_rank_fusion (branch_rankings d s) rrf_k)
    as [e|fused] eqn:E; [reflexivity|]. cbn [rbind].
  change (map (fun item => (fst (fst item), snd (fst item))) fused)
    with (map fused_pair fused).
  apply enrich_fused.
  - rewrite (b64_fused_ids_Permutation _ _ _ E).
    apply NoDup_first_occurrences.
  - apply b64_reciprocal_rank_fusion_inv in E as (st & _ & -> & _).
    apply sorted_desc_descending.
  - intros c Hc. rewrite <- all_ids_branch.
    rewrite (b64_fused_ids_Permutation _ _ _ E) in Hc.
    exact (proj1 (elem_of_first_occurrences _ _) Hc).
Qed.

Lemma b64_retrieve model dense_search corpus bm25 rrf_k query top_k d s :
  Binary64._dense_retrieval model dense_search query (top_k * 2) = Ok d ->
  Binary64._sparse_retrieval corpus bm25 query (top_k * 4) = Ok s ->
  Binary64.retrieve model dense_search corpus bm25 rrf_k query top_k
  = Binary64.fuse_hits rrf_k d s top_k.
Proof.
  intros Hd Hs. unfold Binary64.retrieve. now rewrite Hd, Hs.
Qed.

(** The fusion computes in doubles: with [k = 5] the scores [1/6] and
    [1/10 + 1/15], equal as rationals, are two doubles, and the chunk with
    the larger one comes first although the other occurs first. *)
Example fuse_hits_rounding_breaks_tie :
  rbind (Binary64.fuse_hits 5 rounding_dense rounding_sparse 2)
        (fun out => Ok (map hit_chunk_id out))
  = Ok ["Y"; "X"]
  /\ rbind (fuse_hits 5 rounding_dense rounding_sparse 2)
           (fun out => Ok (map hit_chunk_id out))
     = Ok ["X"; "Y"].
Proof. split; vm_compute; reflexivity. Qed.

(** C10: what [retrieve] returns depends on the two branch lists only: two
    runs whose branches return the same lists, whatever the embedding
    model, the store, the corpus, the scorer and the query behind them,
    have the same outcome.  Two returned hits with equal fused scores,
    the scores being the doubles the code computes, come in the order in
    which their chunks first occur in the dense list followed by the sparse
    list. *)
Theorem retrieve_deterministic_stable_ties
    (model1 model2 : option (list string -> list (list Q)))
    (dense_search1 dense_search2 : list Q -> Z -> result (list Hit))
    (corpus1 corpus2 : result (list CorpusDoc))
    (bm25_1 bm25_2 : list (list string) -> list string -> result (list Q))
    (rrf_k : Z) (query1 query2 : string) (top_k : Z)
    (dense_hits sparse_hits : list Hit) :
  Binary64._dense_retrieval model1 dense_search1 query1 (top_k * 2)
  = Ok dense_hits ->
  Binary64._sparse_retrieval corpus1 bm25_1 query1 (top_k * 4)
  = Ok sparse_hits ->
  Binary64._dense_retrieval model2 dense_search2 query2 (top_k * 2)
  = Ok dense_hits ->
  Binary64._sparse_retrieval corpus2 bm25_2 query2 (top_k * 4)
  = Ok sparse_hits ->
  Binary64.retrieve model1 dense_search1 corpus1 bm25_1 rrf_k query1 top_k
  = Binary64.retrieve model2 dense_search2 corpus2 bm25_2 rrf_k query2 top_k
  /\ forall out hi hj,
       Binary64.retrieve model1 dense_search1 corpus1 bm25_1 rrf_k query1 top_k
       = Ok out ->
       before hi hj out -> (hit_score hi == hit_score hj)%Q ->
       before (hit_chunk_id hi) (hit_chunk_id hj)
              (first_occurrences (map hit_chunk_id (dense_hits ++ sparse_hits))).
Proof.
  intros Hd1 Hs1 Hd2 Hs2.
  rewrite (b64_retrieve _ _ _ _ _ _ _ _ _ Hd1 Hs1).
  rewrite (b64_retrieve _ _ _ _ _ _ _ _ _ Hd2 Hs2).
  split; [reflexivity|].
  intros out hi hj Hf Hb Heq. rewrite b64_fuse_hits in Hf.
  destruct (Binary64.reciprocal_rank_fusion _ rrf_k) as [e|fused] eqn:Hrrf;
    [discriminate Hf|].
  cbn [rbind] in Hf. injection Hf as <-.
  apply before_slice_to, before_map_inv in Hb as (ti & tj & Hb & <- & <-).
  rewrite !hit_chunk_id_of_item.
  apply b64_reciprocal_rank_fusion_inv in Hrrf as (st & _ & -> & Hka & _).
  apply sorted_desc_stable in Hb; [|exact Heq].
  apply (before_map fused_id) in Hb.
  rewrite map_fused_id_attach, keys_items, Hka, all_ids_branch in Hb.
  exact Hb.
Qed.

Lemma retrieve_deterministic_stable_ties_witness :
  exists hx hy,
    Binary64.retrieve None (returning tie_dense_search) (Ok tie_corpus)
                      (returning tie_bm25) 60 "q" 8 = Ok [hx; hy]
    /\ Binary64.retrieve (Some (fun _ => [[1%Q]])) (returning tie_dense_search)
                         (Ok tie_corpus) (returning tie_bm25) 60 "other" 8
       = Ok [hx; hy]
    /\ (hit_score hx == hit_score hy)%Q
    /\ before (hit_chunk_id hx) (hit_chunk_id hy)
              (first_occurrences ["x"; "y"; "y"; "x"]).
Proof.
  do 2 eexists. split; [vm_compute; reflexivity|].
  match goal with
  | |- _ = Ok [?hx; ?hy] /\ _ =>
      destruct (retrieve_deterministic_stable_ties
                  None (Some (fun _ => [[1%Q]]))
                  (returning tie_dense_search) (returning tie_dense_search)
                  (Ok tie_corpus) (Ok tie_corpus)
                  (returning tie_bm25) (returning tie_bm25)
                  60 "q" "other" 8
                  (tie_dense_search [] 16)
                  [mkHit "y" "doc-1" "second" "paragraph" ∅ 2;
                   mkHit "x" "doc-1" "first" "paragraph" ∅ 1])
        as [Hsame Hties];
      [reflexivity|reflexivity|reflexivity|reflexivity|];
      assert (Binary64.retrieve None (returning tie_dense_search)
                (Ok tie_corpus) (returning tie_bm25) 60 "q" 8 = Ok [hx; hy])
        as Hout by (vm_compute; reflexivity);
      split; [rewrite <- Hsame; exact Hout|];
      split; [vm_compute; reflexivity|];
      apply (Hties [hx; hy] hx hy Hout);
      [apply before_here, list_elem_of_here|vm_compute; reflexivity]
  end.
Defined.

(** ** The answer orchestrator *)

Lemma append_assoc (a b c : string) : (a +:+ b) +:+ c = a +:+ b +:+ c.
Proof.
  induction a as [|x a IH]; [reflexivity|].
  change (String x ((a +:+ b) +:+ c) = String x (a +:+ b +:+ c)).
  now f_equal.
Qed.

Lemma append_empty_r (a : string) : a +:+ "" = a.
Proof.
  induction a as [|x a IH]; [reflexivity|].
  change (String x (a +:+ "") = String x a). now f_equal.
Qed.

Lemma contains_here (sub post : string) : PyStr.contains (sub +:+ post) sub.
Proof. exists "", post. reflexivity. Qed.

Lemma contains_end (sub : string) : PyStr.contains sub sub.
Proof. exists "", "". now rewrite append_empty_r. Qed.

Lemma contains_append_r (pre s sub : string) :
  PyStr.contains s sub -> PyStr.contains (pre +:+ s) sub.
Proof.
  intros (a & b & ->). exists (pre +:+ a), b. now rewrite append_assoc.
Qed.

Lemma descending_head {A} (key : A -> Q) (x : A) (l : list A) :
  descending key (x :: l) -> Forall (fun y => (key y <= key x)%Q) l.
Proof. intros H. now inversion H. Qed.

Lemma retrieve_descending model dense_search corpus bm25 rrf_k query top_k out :
  retrieve model dense_search corpus bm25 rrf_k query top_k = Ok out ->
  descending hit_score out.
Proof.
  intros H. apply retrieve_inv in H as (d & _ & Hf).
  apply fuse_hits_inv in Hf as (fused & Hrrf & ->).
  apply descending_slice_to.
  apply descending_map with (key1 := fused_key); [reflexivity|].
  apply reciprocal_rank_fusion_inv in Hrrf as (st & _ & -> & _).
  apply sorted_desc_descending.
Qed.

(** C9: when the retriever returns a non-empty list and the generation
    collaborator is absent or raises, [answer] returns without raising; the
    first hit has the highest fused score of the list, and the answer text
    contains the question, that hit's [chunk_id] and its content. *)
Theorem extractive_fallback_answer
    (model : option (list string -> list (list Q)))
    (dense_search : list Q -> Z -> list Hit) (corpus : list CorpusDoc)
    (bm25_get_scores : list (list string) -> list string -> list Q)
    (rrf_k : Z) (chain : option (string -> string -> result string))
    (format_4f : Q -> string) (question : string) (top_k : Z)
    (audit_trail : bool) (hits : list Hit) :
  let retriever := retrieve model dense_search corpus bm25_get_scores rrf_k in
  retriever question top_k = Ok hits ->
  hits <> [] ->
  generation_unavailable chain question (_format_context format_4f hits) ->
  exists best rest r,
    hits = best :: rest
    /\ Forall (fun h => (hit_score h <= hit_score best)%Q) rest
    /\ answer retriever chain format_4f question top_k audit_trail = Ok r
    /\ grounded r = true
    /\ PyStr.contains (answer_text r) question
    /\ PyStr.contains (answer_text r) (hit_chunk_id best)
    /\ PyStr.contains (answer_text r) (hit_content best).
Proof.
  intros retriever Hr Hne Hgen.
  destruct hits as [|best rest]; [contradiction|].
  pose proof (retrieve_descending _ _ _ _ _ _ _ _ Hr) as Hdesc.
  set (text := "Answer synthesized without LLM due to configuration limits."
               +:+ PyStr.nl +:+ "Question: " +:+ question +:+ PyStr.nl
               +:+ "Best match (" +:+ hit_chunk_id best +:+ "): "
               +:+ hit_content best).
  assert (_generate_answer chain format_4f question (best :: rest) = Ok text)
    as Hans.
  { unfold _generate_answer.
    destruct Hgen as [->|(invoke & e & -> & ->)]; reflexivity. }
  exists best, rest,
    (mkQueryResult text (if audit_trail then best :: rest else []) true).
  split; [reflexivity|]. split; [now apply descending_head|].
  split; [unfold answer; rewrite Hr; unfold Ok at 1; cbn [rbind];
          now rewrite Hans|].
  split; [reflexivity|]. simpl. unfold text. repeat split.
  - do 3 apply contains_append_r. apply contains_here.
  - do 6 apply contains_append_r. apply contains_here.
  - do 8 apply contains_append_r. apply contains_end.
Qed.

Lemma extractive_fallback_answer_witness :
  exists r,
    answer (retrieve None sample_dense_search sample_corpus sample_bm25 60)
           None sample_format_4f "b" 8 true = Ok r
    /\ PyStr.contains (answer_text r) "c1"
    /\ PyStr.contains (answer_text r) "B".
Proof.
  destruct (extractive_fallback_answer
              None sample_dense_search sample_corpus sample_bm25 60
              None sample_format_4f "b" 8 true
              [mkHit "c1" "doc-1" "B" "paragraph" ∅ ((0 + / 61) + / 61)])
    as (best & rest & r & Hhits & _ & Hans & _ & _ & Hid & Hcontent).
  - vm_compute. reflexivity.
  - discriminate.
  - left. reflexivity.
  - injection Hhits as <- <-. exists r. split; [exact Hans|].
    split; [exact Hid|exact Hcontent].
Defined.

(** ** The chunk store *)

Section StoreFacts.

Variable embedding_dim : Z.
Variable utcnow : nat -> Z.
Variable fault : nat -> bool.

Lemma execute_all_cases (rows : list Payload) : forall (i : nat) (s : Session),
  match execute_all embedding_dim utcnow fault i rows s with
  | (s', inr _) =>
      committed s' = committed s
      /\ working s' = apply_rows utcnow i rows (working s)
      /\ forall j row, rows !! j = Some row -> stmt_fails embedding_dim fault (i + j) row = false
  | (s', inl _) =>
      committed s' = committed s
      /\ exists j row, rows !! j = Some row /\ stmt_fails embedding_dim fault (i + j) row = true
  end.
Proof.
  induction rows as [|row rest IH]; intros i s; simpl.
  - repeat split. intros j row H. inversion H.
  - unfold execute. fold (stmt_fails embedding_dim fault i row).
    destruct (stmt_fails embedding_dim fault i row) eqn:Hf; simpl.
    + split; [reflexivity|]. exists 0%nat, row.
      split; [reflexivity|]. now rewrite Nat.add_0_r.
    + specialize (IH (S i)
        (mkSession (committed s) (upsert_row (utcnow i) row (working s)))).
      destruct (execute_all embedding_dim utcnow fault (S i) rest _)
        as [s' [e|u]]; simpl in IH.
      * destruct IH as (Hc & j & r & Hj & Hfj). split; [exact Hc|].
        exists (S j), r. split; [exact Hj|].
        now rewrite Nat.add_succ_r.
      * destruct IH as (Hc & Hw & Hall). repeat split; [exact Hc|exact Hw|].
        intros [|j] r Hj; simpl in Hj.
        -- injection Hj as <-. now rewrite Nat.add_0_r.
        -- rewrite Nat.add_succ_r. now apply Hall.
Qed.

(** The outcome of [upsert_chunks], by cases on whether a statement or the
    commit fails. *)
Lemma upsert_chunks_cases (commit_fault : bool) (db : Table)
    (rows : list Payload) :
  (((exists j row, rows !! j = Some row
                   /\ stmt_fails embedding_dim fault j row = true)
    \/ (rows <> [] /\ commit_fault = true))
   /\ exists e,
        upsert_chunks embedding_dim utcnow fault commit_fault db rows
        = (db, Raise e))
  \/ ((forall j row, rows !! j = Some row ->
                     stmt_fails embedding_dim fault j row = false)
      /\ (rows = [] \/ commit_fault = false)
      /\ upsert_chunks embedding_dim utcnow fault commit_fault db rows
         = (apply_rows utcnow 0 rows db, Ok (Z.of_nat (length rows)))).
Proof.
  destruct rows as [|row rest].
  - right. split; [|split; [now left|reflexivity]].
    intros j row H. inversion H.
  - unfold upsert_chunks, session_scope.
    pose proof (execute_all_cases (row :: rest) 0 (session_factory db)) as H.
    destruct (execute_all embedding_dim utcnow fault 0 (row :: rest) _)
      as [s' [e|u]].
    + destruct H as (Hc & j & r & Hj & Hf). left. split; [left; eauto|].
      exists e. unfold rollback. now rewrite Hc.
    + destruct H as (Hc & Hw & Hall). destruct commit_fault.
      * left. split; [right; split; [discriminate|reflexivity]|].
        exists OperationalError. unfold rollback. now rewrite Hc.
      * right. split; [exact Hall|]. split; [now right|].
        unfold commit. now rewrite Hw.
Qed.

Lemma upsert_chunks_Ok (commit_fault : bool) (db db' : Table)
    (rows : list Payload) (n : Z) :
  upsert_chunks embedding_dim utcnow fault commit_fault db rows = (db', Ok n) ->
  db' = apply_rows utcnow 0 rows db /\ n = Z.of_nat (length rows).
Proof.
  intros H.
  destruct (upsert_chunks_cases commit_fault db rows) as [(_ & e & E)|(_ & _ & E)];
    rewrite E in H.
  - discriminate H.
  - injection H as <- <-. split; reflexivity.
Qed.

Lemma upsert_row_lookup (now : Z) (row : Payload) (t : Table) (id : string) :
  upsert_row now row t !! id =
  if decide (p_chunk_id row = id) then
    Some match t !! id with
         | None =>
             mkRow (p_document_id row) (p_parent_id row) (p_level row)
                   (p_content row) (p_metadata row) (p_embedding row)
                   (p_sparse_tokens row) now
         | Some old =>
             mkRow (col_document_id old) (col_parent_id old) (col_level old)
                   (p_content row) (p_metadata row) (p_embedding row)
                   (p_sparse_tokens row) (col_created_at old)
         end
  else t !! id.
Proof.
  unfold upsert_row. destruct (decide (p_chunk_id row = id)) as [<-|Hne].
  - destruct (t !! p_chunk_id row); apply lookup_insert_eq.
  - destruct (t !! p_chunk_id row); now apply lookup_insert_ne.
Qed.

(** Frame: rows whose key is not in the batch stay as they are. *)
Lemma apply_rows_other (rows : list Payload) : forall i t id,
  id ∉ map p_chunk_id rows -> apply_rows utcnow i rows t !! id = t !! id.
Proof.
  induction rows as [|row rest IH]; intros i t id H; simpl; [reflexivity|].
  simpl in H. apply not_elem_of_cons in H as [Hne H].
  rewrite (IH _ _ _ H), upsert_row_lookup.
  destruct (decide (p_chunk_id row = id)); [congruence|reflexivity].
Qed.

Lemma last_filter_cons {A} (P : A -> Prop) `{!forall x, Decision (P x)}
    (x : A) (l : list A) :
  last (filter P (x :: l)) =
  match last (filter P l) with
  | Some y => Some y
  | None => if decide (P x) then Some x else None
  end.
Proof.
  rewrite filter_cons. destruct (decide (P x)); [|now destruct (last _)].
  rewrite last_cons. now destruct (last _).
Qed.

Lemma apply_rows_existing (rows : list Payload) : forall i t id old,
  t !! id = Some old ->
  exists new,
    apply_rows utcnow i rows t !! id = Some new
    /\ kept_from new old
    /\ match last (filter (fun r => p_chunk_id r = id) rows) with
       | Some row => written_from new row
       | None => new = old
       end.
Proof.
  induction rows as [|row rest IH]; intros i t id old Hold; simpl.
  - exists old. repeat split. exact Hold.
  - pose proof (upsert_row_lookup (utcnow i) row t id) as Hl.
    rewrite Hold in Hl.
    rewrite (last_filter_cons (fun r => p_chunk_id r = id)).
    destruct (decide (p_chunk_id row = id)) as [Hid|Hne].
    + destruct (IH (S i) _ id _ Hl) as (new & Hnew & Hkept & Hw).
      exists new. split; [exact Hnew|]. split.
      * destruct Hkept as (H1 & H2 & H3 & H4). simpl in *.
        repeat split; assumption.
      * destruct (last (filter _ rest)); [exact Hw|].
        subst new. repeat split.
    + destruct (IH (S i) _ id _ Hl) as (new & Hnew & Hkept & Hw).
      exists new. split; [exact Hnew|]. split; [exact Hkept|].
      destruct (last (filter _ rest)); exact Hw.
Qed.

Lemma apply_rows_fresh (rows : list Payload) : forall i t id j row,
  t !! id = None ->
  rows !! j = Some row ->
  p_chunk_id row = id ->
  (forall j' r, (j' < j)%nat -> rows !! j' = Some r -> p_chunk_id r <> id) ->
  exists new,
    apply_rows utcnow i rows t !! id = Some new
    /\ col_created_at new = utcnow (i + j)
    /\ col_document_id new = p_document_id row
    /\ col_parent_id new = p_parent_id row
    /\ col_level new = p_level row.
Proof.
  induction rows as [|r0 rest IH]; intros i t id j row Hnone Hj Hid Hfirst.
  - inversion Hj.
  - simpl. pose proof (upsert_row_lookup (utcnow i) r0 t id) as Hl.
    rewrite Hnone in Hl. destruct j as [|j]; simpl in Hj.
    + injection Hj as ->. destruct (decide (p_chunk_id row = id));
        [|contradiction].
      destruct (apply_rows_existing rest (S i) _ id _ Hl)
        as (new & Hnew & (H1 & H2 & H3 & H4) & _).
      exists new. simpl in *. rewrite Nat.add_0_r. repeat split; assumption.
    + destruct (decide (p_chunk_id r0 = id)) as [Heq|Hne].
      * exfalso. apply (Hfirst 0%nat r0); [lia|reflexivity|exact Heq].
      * destruct (IH (S i) _ id j row Hl Hj Hid) as (new & Hnew & Hrest).
        { intros j' r Hlt Hr. apply (Hfirst (S j') r); [lia|exact Hr]. }
        exists new. rewrite Nat.add_succ_r. split; [exact Hnew|exact Hrest].
Qed.

Lemma apply_rows_is_Some (rows : list Payload) : forall i t row,
  row ∈ rows -> is_Some (apply_rows utcnow i rows t !! p_chunk_id row).
Proof.
  induction rows as [|r0 rest IH]; intros i t row Hin; [inversion Hin|].
  simpl. apply elem_of_cons in Hin as [->|Hin]; [|now apply IH].
  pose proof (upsert_row_lookup (utcnow i) r0 t (p_chunk_id r0)) as Hl.
  destruct (decide (p_chunk_id r0 = p_chunk_id r0)); [|contradiction].
  destruct (apply_rows_existing rest (S i) _ _ _ Hl) as (new & -> & _).
  eauto.
Qed.

End StoreFacts.

Lemma apply_rows_written (utcnow : nat -> Z) (rows : list Payload) :
  forall i t row,
    row ∈ rows ->
    exists new final,
      apply_rows utcnow i rows t !! p_chunk_id row = Some new
      /\ last (filter (fun r => p_chunk_id r = p_chunk_id row) rows) = Some final
      /\ written_from new final.
Proof.
  induction rows as [|r0 rest IH]; intros i t row Hin; [inversion Hin|].
  simpl. rewrite (last_filter_cons (fun r => p_chunk_id r = p_chunk_id row)).
  pose proof (upsert_row_lookup (utcnow i) r0 t (p_chunk_id row)) as Hl.
  destruct (decide (p_chunk_id r0 = p_chunk_id row)) as [Heq|Hne].
  - destruct (apply_rows_existing utcnow rest (S i) _ _ _ Hl)
      as (new & Hnew & _ & Hw).
    destruct (last (filter _ rest)) as [final|].
    + exists new, final. repeat split; try assumption; apply Hw.
    + exists new, r0. subst new. split; [exact Hnew|].
      split; [reflexivity|]. destruct (t !! p_chunk_id row); repeat split.
  - apply elem_of_cons in Hin as [->|Hin]; [contradiction|].
    destruct (IH (S i) (upsert_row (utcnow i) r0 t) row Hin)
      as (new & final & Hnew & Hlast & Hw).
    exists new, final. rewrite Hlast. repeat split; try assumption; apply Hw.
Qed.

(** C6: a batch is atomic.  If some statement of the batch (or the commit
    of a non-empty batch) fails, the exception propagates and the table is
    the one before the call; if nothing fails, the call returns the number
    of rows and the table holds every row of the batch, with the written
    columns of the last row of its key. *)
Theorem upsert_chunks_atomic (embedding_dim : Z) (utcnow : nat -> Z)
    (fault : nat -> bool) (commit_fault : bool) (db : Table)
    (rows : list Payload) :
  (((exists j row, rows !! j = Some row
                   /\ stmt_fails embedding_dim fault j row = true)
    \/ (rows <> [] /\ commit_fault = true)) ->
   exists e,
     upsert_chunks embedding_dim utcnow fault commit_fault db rows
     = (db, Raise e))
  /\ ((forall j row, rows !! j = Some row ->
                     stmt_fails embedding_dim fault j row = false) ->
      commit_fault = false ->
      exists db',
        upsert_chunks embedding_dim utcnow fault commit_fault db rows
        = (db', Ok (Z.of_nat (length rows)))
        /\ db' = apply_rows utcnow 0 rows db
        /\ forall row, row ∈ rows ->
             exists new final,
               db' !! p_chunk_id row = Some new
               /\ last (filter (fun r => p_chunk_id r = p_chunk_id row) rows)
                  = Some final
               /\ written_from new final).
Proof.
  split.
  - intros Hfail.
    destruct (upsert_chunks_cases embedding_dim utcnow fault commit_fault
                db rows) as [(_ & e & E)|(Hall & Hc & _)]; [eauto|].
    exfalso. destruct Hfail as [(j & row & Hj & Hf)|[Hne Hcf]].
    + rewrite (Hall j row Hj) in Hf. discriminate Hf.
    + destruct Hc as [->|Hc]; [now apply Hne|].
      rewrite Hc in Hcf. discriminate Hcf.
  - intros Hall Hcf.
    destruct (upsert_chunks_cases embedding_dim utcnow fault commit_fault
                db rows) as [(Hfail & _)|(_ & _ & E)].
    + exfalso. destruct Hfail as [(j & row & Hj & Hf)|[_ Hc]].
      * rewrite (Hall j row Hj) in Hf. discriminate Hf.
      * rewrite Hcf in Hc. discriminate Hc.
    + exists (apply_rows utcnow 0 rows db).
      split; [exact E|]. split; [reflexivity|].
      intros row Hin. now apply apply_rows_written.
Qed.

Lemma upsert_chunks_atomic_witness :
  (exists e,
     upsert_chunks 3 clock_200 no_fault false {["c1" := stored_row]}
                   [good_payload; bad_payload]
     = ({["c1" := stored_row]}, Raise e))
  /\ exists db',
       upsert_chunks 3 clock_200 no_fault false {["c1" := stored_row]}
                     [good_payload]
       = (db', Ok 1).
Proof.
  split.
  - apply (upsert_chunks_atomic 3 clock_200 no_fault false
             {["c1" := stored_row]} [good_payload; bad_payload]).
    left. exists 1%nat, bad_payload. split; reflexivity.
  - destruct (proj2 (upsert_chunks_atomic 3 clock_200 no_fault false
                       {["c1" := stored_row]} [good_payload]))
      as (db' & H & _).
    + intros [|[|j]] row Hj; simpl in Hj; try discriminate Hj.
      injection Hj as <-. reflexivity.
    + reflexivity.
    + exists db'. exact H.
Defined.

(** C5: when a batch succeeds, a row whose key was already stored keeps its
    [created_at], [document_id], [parent_id] and [level], and its content,
    metadata, embedding and sparse tokens are those of the last row of the
    batch with that key; a key that was not stored gets its [created_at]
    from the clock at the statement that inserts it. *)
Theorem upsert_chunks_conflict_keeps_created_at (embedding_dim : Z)
    (utcnow : nat -> Z) (fault : nat -> bool) (commit_fault : bool)
    (db db' : Table) (rows : list Payload) (n : Z) :
  upsert_chunks embedding_dim utcnow fault commit_fault db rows = (db', Ok n) ->
  (forall id old final,
     db !! id = Some old ->
     last (filter (fun r => p_chunk_id r = id) rows) = Some final ->
     exists new,
       db' !! id = Some new /\ written_from new final /\ kept_from new old)
  /\ (forall id j row,
        db !! id = None ->
        rows !! j = Some row ->
        p_chunk_id row = id ->
        (forall j' r, (j' < j)%nat -> rows !! j' = Some r -> p_chunk_id r <> id) ->
        exists new,
          db' !! id = Some new /\ col_created_at new = utcnow j).
Proof.
  intros H. apply upsert_chunks_Ok in H as [-> _]. split.
  - intros id old final Hold Hlast.
    destruct (apply_rows_existing utcnow rows 0 db id old Hold)
      as (new & Hnew & Hkept & Hw).
    rewrite Hlast in Hw. exists new. repeat split; try assumption; apply Hw || apply Hkept.
  - intros id j row Hnone Hj Hid Hfirst.
    destruct (apply_rows_fresh utcnow rows 0 db id j row Hnone Hj Hid Hfirst)
      as (new & Hnew & Hc & _).
    exists new. split; [exact Hnew|exact Hc].
Qed.

Lemma upsert_chunks_conflict_keeps_created_at_witness :
  exists db' new,
    upsert_chunks 3 clock_200 no_fault false {["c1" := stored_row]}
                  [good_payload]
    = (db', Ok 1)
    /\ db' !! "c1" = Some new
    /\ col_content new = "new text"
    /\ col_created_at new = 100
    /\ col_document_id new = "doc-1".
Proof.
  destruct (upsert_chunks 3 clock_200 no_fault false {["c1" := stored_row]}
              [good_payload]) as [db' r] eqn:E.
  assert (r = Ok 1) as ->
    by (clear -E; vm_compute in E; injection E as _ <-; reflexivity).
  destruct (upsert_chunks_conflict_keeps_created_at _ _ _ _ _ _ _ _ E)
    as [Hexisting _].
  destruct (Hexisting "c1" stored_row good_payload) as (new & Hnew & Hw & Hk).
  - reflexivity.
  - reflexivity.
  - exists db', new. split; [reflexivity|]. split; [exact Hnew|].
    destruct Hw as (Hc & _). destruct Hk as (Ht & Hd & _).
    repeat split; assumption.
Defined.

(** ** Re-ingestion *)

Section Fresh.

Variable uuid4 : nat -> string.

Lemma gmapM_cons {X Y} (f : X -> Gen Y) (x : X) (l : list X) (n : nat) :
  gmapM f (x :: l) n =
  let '(y, n1) := f x n in
  let '(ys, n2) := gmapM f l n1 in (y :: ys, n2).
Proof. reflexivity. Qed.

Lemma gbind_eq {X Y} (m : Gen X) (k : X -> Gen Y) (n : nat) :
  gbind m k n = let '(a, n') := m n in k a n'.
Proof. reflexivity. Qed.

Lemma fresh_then {Y} (g : string -> Y) (n : nat) :
  (cid <- fresh_uuid uuid4 ;; gret (g cid))%gen n = (g (uuid4 n), S n).
Proof. reflexivity. Qed.

Lemma emits_gmapM_single {X} (g : string -> X -> Chunk)
    (sh : X -> string * string * string * gmap string string) (l : list X) :
  (forall cid x, chunk_id (g cid x) = cid /\ shape (g cid x) = sh x) ->
  emits uuid4 (gmapM (fun x => (cid <- fresh_uuid uuid4 ;; gret (g cid x))%gen) l)
        (map sh l).
Proof.
  intros Hg. induction l as [|x l IH]; intros n.
  - exists []. simpl. unfold gret. rewrite Nat.add_0_r. repeat split.
  - destruct (IH (S n)) as (cs & E & Hids & Hsh).
    exists (g (uuid4 n) x :: cs).
    rewrite gmapM_cons, (fresh_then (fun cid => g cid x)), E.
    destruct (Hg (uuid4 n) x) as [Hid Hs]. cbn [length map seq].
    rewrite Hid, Hs, Hids, Hsh, Nat.add_succ_r. repeat split.
Qed.

Lemma emits_gmapM_concat {X} (f : X -> Gen (list Chunk))
    (sh : X -> list (string * string * string * gmap string string))
    (l : list X) :
  (forall x, emits uuid4 (f x) (sh x)) ->
  emits uuid4 (css <- gmapM f l ;; gret (concat css))%gen (concat (map sh l)).
Proof.
  intros Hf. induction l as [|x l IH]; intros n.
  - exists []. simpl. unfold gbind, gret. simpl. rewrite Nat.add_0_r.
    repeat split.
  - destruct (Hf x n) as (cs & E & Hids & Hsh).
    destruct (IH (n + length cs)%nat) as (cs' & E' & Hids' & Hsh').
    exists (cs ++ cs'). unfold gbind, gret in *. simpl.
    unfold gbind, gret. rewrite E.
    destruct (gmapM f l (n + length cs)%nat) as [css n'] eqn:Em.
    injection E' as <- ->. simpl.
    rewrite !length_app, !map_app, seq_app, map_app, Hids, Hids', Hsh, Hsh'.
    rewrite Nat.add_assoc. repeat split.
Qed.

Lemma emits_split_paragraphs doc pid body md :
  emits uuid4 (_split_paragraphs uuid4 doc pid body md)
        (map (fun p => (doc, "paragraph", p, md)) (stripped_lines body)).
Proof.
  unfold _split_paragraphs.
  apply (emits_gmapM_single
           (fun cid p => mkChunk cid doc (Some pid) "paragraph" p md)).
  intros cid p. split; reflexivity.
Qed.

Lemma emits_chunk_section doc tid md sec :
  emits uuid4 (chunk_section uuid4 doc tid md sec) (section_shapes doc md sec).
Proof.
  intros n. unfold chunk_section, _make_chunk, gbind, fresh_uuid, gret.
  cbn [chunk_id].
  destruct (emits_split_paragraphs doc (uuid4 n) (snd sec) md (S n))
    as (cs & E & Hids & Hsh).
  rewrite E.
  exists (mkChunk (uuid4 n) doc (Some tid) "section" (PyStr.strip (fst sec)) md
          :: cs).
  simpl. rewrite Hids, Hsh, Nat.add_succ_r. repeat split.
Qed.

Lemma emits_chunk_document doc text md :
  emits uuid4 (chunk_document uuid4 doc text md) (document_shapes doc text md).
Proof.
  intros n. unfold chunk_document, document_shapes.
  destruct (negb (PyStr.nonempty (PyStr.strip text))).
  - exists []. unfold gret. simpl. rewrite Nat.add_0_r. repeat split.
  - unfold _make_chunk, gbind at 1 2, fresh_uuid, gret at 1. cbn [chunk_id].
    pose proof (emits_gmapM_concat (chunk_section uuid4 doc (uuid4 n) md)
                  (section_shapes doc md) (_split_sections text)
                  (fun sec => emits_chunk_section doc (uuid4 n) md sec) (S n))
      as (cs & E & Hids & Hsh).
    unfold gbind, gret in E.
    destruct (gmapM _ _ (S n)) as [css n'] eqn:Em.
    injection E as <- ->.
    unfold gbind, gret. rewrite Em.
    exists (mkChunk (uuid4 n) doc None "title"
              (PyStr.strip (default (PyStr.take 80 text) (md !! "title"))) md
            :: concat css).
    cbn [length map seq]. rewrite Hids, Hsh, Nat.add_succ_r. repeat split.
Qed.

Lemma emits_document_chunks doc filename text tables base :
  emits uuid4 (document_chunks uuid4 doc filename text tables base)
        (all_shapes doc filename text tables base).
Proof.
  intros n. unfold document_chunks, all_shapes.
  destruct (emits_chunk_document doc text base n) as (cs & E & Hids & Hsh).
  rewrite gbind_eq, E, gbind_eq.
  pose proof (emits_gmapM_single
                (fun cid t =>
                   mkChunk cid doc None "table" (csv t)
                     (<["source_file" := filename]>
                        (<["table_title" := title t]>
                           (<["table_id" := table_id t]> base))))
                (table_shape doc filename base)
                (filter (fun t => PyStr.nonempty (csv t) = true) tables))
    as Ht.
  destruct (Ht (fun cid t => conj eq_refl eq_refl) (n + length cs)%nat)
    as (ts & Et & Htids & Htsh).
  assert (gmapM (table_chunk uuid4 doc filename base)
            (filter (fun t => PyStr.nonempty (csv t) = true) tables)
            (n + length cs)%nat
          = (ts, (n + length cs + length ts)%nat)) as Et' by exact Et.
  rewrite Et'. unfold gret.
  exists (cs ++ ts).
  rewrite !length_app, !map_app, seq_app, map_app, Hids, Htids, Hsh, Htsh.
  rewrite Nat.add_assoc. repeat split.
Qed.

End Fresh.

Lemma payload_shapes_zip (cs : list Chunk) (vs : list (list Q)) :
  map payload_shape (map to_payload (zip cs vs)) =
  map shape_with_vector (zip (map shape cs) vs).
Proof.
  revert vs. induction cs as [|c cs IH]; intros [|v vs]; simpl;
    try reflexivity.
  now rewrite <- IH.
Qed.

Lemma map_content_shape (cs : list Chunk) :
  map content cs = map (fun s => snd (fst s)) (map shape cs).
Proof. rewrite map_map. reflexivity. Qed.

Lemma payload_ids_zip (cs : list Chunk) (vs : list (list Q)) (id : string) :
  id ∈ map p_chunk_id (map to_payload (zip cs vs)) -> id ∈ map chunk_id cs.
Proof.
  revert vs. induction cs as [|c cs IH]; intros [|v vs]; simpl; intros H;
    try (now inversion H).
  apply elem_of_cons in H as [->|H]; [apply list_elem_of_here|].
  apply list_elem_of_further. now apply (IH vs).
Qed.

Section Reingest.

Variable uuid4 : nat -> string.
Variable model : option (list string -> list (list Q)).
Variable parse : list Z -> string -> string * list ExtractedTable.

(** The payloads of one ingestion of a document that names its
    [document_id]. *)
Lemma ingest_payloads_spec (document_bytes : list Z) (filename : string)
    (md : gmap string string) (d : string) (n : nat) :
  md !! "document_id" = Some d ->
  PyStr.nonempty d = true ->
  exists cs,
    ingest_payloads uuid4 model parse document_bytes filename md n
    = ((d, snd (parse document_bytes filename),
        map to_payload (zip cs (embed model (map content cs)))),
       (n + length cs)%nat)
    /\ map chunk_id cs = map uuid4 (seq n (length cs))
    /\ map shape cs =
       all_shapes d filename (fst (parse document_bytes filename))
                  (snd (parse document_bytes filename))
                  (<["document_id" := d]> md).
Proof.
  intros Hd Hne. unfold ingest_payloads, resolve_document_id.
  rewrite Hd, Hne, gbind_eq. unfold gret at 1.
  destruct (parse document_bytes filename) as [text tables]. simpl.
  destruct (emits_document_chunks uuid4 d filename text tables
              (<["document_id" := d]> md) n) as (cs & E & Hids & Hsh).
  rewrite gbind_eq, E. unfold gret. exists cs. repeat split; assumption.
Qed.

End Reingest.

(** C1, as stated, fails: every ingestion draws new identifiers, so the
    second ingestion of the same document under the same [document_id] has
    other [chunk_id]s than the first. *)
Lemma reingest_draws_new_chunk_ids :
  ~ reingest_same_chunk_ids numbered_uuid4 None title_only_parse [] "a.txt"
      {["document_id" := "doc-1"]} 0.
Proof.
  unfold reingest_same_chunk_ids. vm_compute. intros H. discriminate H.
Qed.

(** The identifiers of the two ingestions of the sample. *)
Example reingest_sample_chunk_ids :
  let '(_, first, n1) :=
    ingest_payloads numbered_uuid4 None title_only_parse [] "a.txt"
                    {["document_id" := "doc-1"]} 0%nat in
  let '(_, second, _) :=
    ingest_payloads numbered_uuid4 None title_only_parse [] "a.txt"
                    {["document_id" := "doc-1"]} n1 in
  map p_chunk_id first = ["uuid-0"; "uuid-1"]
  /\ map p_chunk_id second = ["uuid-2"; "uuid-3"].
Proof. vm_compute. split; reflexivity. Qed.

Lemma numbered_uuid4_inj (i j : nat) :
  numbered_uuid4 i = numbered_uuid4 j -> i = j.
Proof.
  unfold numbered_uuid4. intros H.
  change ("uuid-" +:+ ?s) with
    (String "u" (String "u" (String "i" (String "d" (String "-" s))))) in H.
  injection H as H.
  apply (f_equal NilEmpty.uint_of_string) in H.
  rewrite !NilEmpty.usu in H. injection H as H.
  now apply DecimalNat.Unsigned.to_uint_inj.
Qed.

Lemma elem_of_map_seq (uuid4 : nat -> string) (id : string) (n len : nat) :
  id ∈ map uuid4 (seq n len) ->
  exists i, (n <= i < n + len)%nat /\ id = uuid4 i.
Proof.
  intros H. change (id ∈ uuid4 <$> seq n len) in H.
  apply list_elem_of_fmap in H as (i & -> & Hi).
  apply elem_of_seq in Hi. exists i. split; [lia|reflexivity].
Qed.

(** Frame of [upsert_chunks]: keys outside the batch are not touched,
    whether the batch commits or rolls back. *)
Lemma upsert_chunks_other (embedding_dim : Z) (utcnow : nat -> Z)
    (fault : nat -> bool) (commit_fault : bool) (db : Table)
    (rows : list Payload) (id : string) :
  id ∉ map p_chunk_id rows ->
  fst (upsert_chunks embedding_dim utcnow fault commit_fault db rows) !! id
  = db !! id.
Proof.
  intros H.
  destruct (upsert_chunks_cases embedding_dim utcnow fault commit_fault
              db rows) as [(_ & e & ->)|(_ & _ & ->)]; simpl; [reflexivity|].
  now apply apply_rows_other.
Qed.

Lemma upsert_chunks_stores (embedding_dim : Z) (utcnow : nat -> Z)
    (fault : nat -> bool) (commit_fault : bool) (db db' : Table)
    (rows : list Payload) (n : Z) (id : string) :
  upsert_chunks embedding_dim utcnow fault commit_fault db rows = (db', Ok n) ->
  id ∈ map p_chunk_id rows -> is_Some (db' !! id).
Proof.
  intros H Hid. apply upsert_chunks_Ok in H as [-> _].
  change (id ∈ p_chunk_id <$> rows) in Hid.
  apply list_elem_of_fmap in Hid as (row & -> & Hrow).
  now apply apply_rows_is_Some.
Qed.

Lemma rbind_Ok {A B} (m : result A) (k : A -> result B) (b : B) :
  rbind m k = Ok b -> exists a, m = Ok a.
Proof. destruct m as [e|a]; [discriminate|eauto]. Qed.

(** C1, amended: a second ingestion of the same document under the same
    [metadata["document_id"]] builds payloads with the same document,
    level, content, metadata, embedding and tokens as the first, under
    newly drawn [chunk_id]s; when [uuid4] never repeats a value, none of
    them is a [chunk_id] of the first ingestion, the rows of the first
    ingestion, [created_at] included, are in the table after the second
    ingestion as they were before it, and when both ingestions succeed the
    table holds a row for every chunk of either. *)
Theorem reingest_inserts_new_rows (uuid4 : nat -> string)
    (model : option (list string -> list (list Q)))
    (parse : list Z -> string -> string * list ExtractedTable)
    (embedding_dim : Z) (utcnow1 utcnow2 : nat -> Z)
    (fault1 fault2 : nat -> bool) (commit_fault1 commit_fault2 : bool)
    (document_bytes : list Z)
    (filename : string) (md : gmap string string) (d : string) (n : nat)
    (db : Table) :
  (forall i j, uuid4 i = uuid4 j -> i = j) ->
  md !! "document_id" = Some d ->
  PyStr.nonempty d = true ->
  let '(_, first, n1) :=
    ingest_payloads uuid4 model parse document_bytes filename md n in
  let '(r1, _, db1) :=
    ingest uuid4 model parse embedding_dim utcnow1 fault1 commit_fault1
           document_bytes filename md n db in
  let '(_, second, _) :=
    ingest_payloads uuid4 model parse document_bytes filename md n1 in
  let '(r2, _, db2) :=
    ingest uuid4 model parse embedding_dim utcnow2 fault2 commit_fault2
           document_bytes filename md n1 db1 in
  map payload_shape second = map payload_shape first
  /\ (forall id, id ∈ map p_chunk_id first -> id ∉ map p_chunk_id second)
  /\ (forall id, id ∈ map p_chunk_id first -> db2 !! id = db1 !! id)
  /\ (forall report1 report2,
        r1 = Ok report1 -> r2 = Ok report2 ->
        forall id,
          id ∈ map p_chunk_id first \/ id ∈ map p_chunk_id second ->
          is_Some (db2 !! id)).
Proof.
  intros Hinj Hd Hne. unfold ingest.
  destruct (ingest_payloads_spec uuid4 model parse document_bytes filename
              md d n Hd Hne) as (cs1 & -> & Hids1 & Hsh1).
  set (first := map to_payload (zip cs1 (embed model (map content cs1)))).
  change (map (fun cv => payload_of (fst cv) (snd cv))
              (zip cs1 (embed model (map content cs1)))) with first.
  destruct (upsert_chunks embedding_dim utcnow1 fault1 commit_fault1 db first)
    as [db1 s1] eqn:E1.
  destruct (ingest_payloads_spec uuid4 model parse document_bytes filename
              md d (n + length cs1) Hd Hne) as (cs2 & -> & Hids2 & Hsh2).
  set (second := map to_payload (zip cs2 (embed model (map content cs2)))).
  change (map (fun cv => payload_of (fst cv) (snd cv))
              (zip cs2 (embed model (map content cs2)))) with second.
  pose proof (upsert_chunks_other embedding_dim utcnow2 fault2 commit_fault2
                db1 second) as Hframe.
  destruct (upsert_chunks embedding_dim utcnow2 fault2 commit_fault2 db1 second)
    as [db2 s2] eqn:E2. simpl in Hframe.
  assert (forall id, id ∈ map p_chunk_id first -> id ∉ map p_chunk_id second)
    as Hdisj.
  { intros id H1 H2.
    apply payload_ids_zip in H1. apply payload_ids_zip in H2.
    rewrite Hids1 in H1. rewrite Hids2 in H2.
    apply elem_of_map_seq in H1 as (i & Hi & ->).
    apply elem_of_map_seq in H2 as (j & Hj & E).
    apply Hinj in E. lia. }
  split; [|split; [exact Hdisj|split]].
  - unfold first, second. rewrite !payload_shapes_zip, !map_content_shape.
    now rewrite Hsh1, Hsh2.
  - intros id H1. apply Hframe, Hdisj, H1.
  - intros report1 report2 Hr1 Hr2 id Hid.
    apply rbind_Ok in Hr1 as [k1 ->]. apply rbind_Ok in Hr2 as [k2 ->].
    destruct Hid as [H1|H2].
    + rewrite (Hframe id (Hdisj id H1)).
      apply (upsert_chunks_stores _ _ _ _ _ _ _ _ _ E1 H1).
    + apply (upsert_chunks_stores _ _ _ _ _ _ _ _ _ E2 H2).
Qed.

Lemma reingest_inserts_new_rows_witness :
  let '(_, first, n1) :=
    ingest_payloads numbered_uuid4 None title_only_parse [] "a.txt"
                    {["document_id" := "doc-1"]} 0%nat in
  let '(r1, _, db1) :=
    ingest numbered_uuid4 None title_only_parse 768 clock_200 no_fault false
           [] "a.txt" {["document_id" := "doc-1"]} 0%nat ∅ in
  let '(_, second, _) :=
    ingest_payloads numbered_uuid4 None title_only_parse [] "a.txt"
                    {["document_id" := "doc-1"]} n1 in
  let '(r2, _, db2) :=
    ingest numbered_uuid4 None title_only_parse 768 clock_300 no_fault false
           [] "a.txt" {["document_id" := "doc-1"]} n1 db1 in
  map payload_shape second = map payload_shape first
  /\ (forall id, id ∈ map p_chunk_id first -> id ∉ map p_chunk_id second)
  /\ (forall id, id ∈ map p_chunk_id first -> db2 !! id = db1 !! id)
  /\ (forall report1 report2,
        r1 = Ok report1 -> r2 = Ok report2 ->
        forall id,
          id ∈ map p_chunk_id first \/ id ∈ map p_chunk_id second ->
          is_Some (db2 !! id)).
Proof.
  apply (reingest_inserts_new_rows numbered_uuid4 None title_only_parse 768
           clock_200 clock_300 no_fault no_fault false false [] "a.txt"
           {["document_id" := "doc-1"]} "doc-1" 0%nat ∅).
  - exact numbered_uuid4_inj.
  - reflexivity.
  - reflexivity.
Defined.

(** * Further properties *)

(** ** Strings and the tokenizer *)

Lemma lower_char_idempotent (c : ascii) :
  PyStr.lower_char (PyStr.lower_char c) = PyStr.lower_char c.
Proof. destruct c as [[] [] [] [] [] [] [] []]; reflexivity. Qed.

Lemma isspace_lower_char (c : ascii) :
  PyStr.isspace (PyStr.lower_char c) = PyStr.isspace c.
Proof. destruct c as [[] [] [] [] [] [] [] []]; reflexivity. Qed.

Lemma lower_idempotent (s : string) : PyStr.lower (PyStr.lower s) = PyStr.lower s.
Proof.
  induction s as [|c s IH]; [reflexivity|].
  simpl. now rewrite lower_char_idempotent, IH.
Qed.

Lemma lower_no_space (s : string) : no_space s -> no_space (PyStr.lower s).
Proof.
  unfold no_space. induction s as [|c s IH]; [reflexivity|].
  simpl. intros H. apply andb_prop in H as [Hc Hs].
  now rewrite isspace_lower_char, Hc, (IH Hs).
Qed.

Lemma lower_nonempty (s : string) :
  PyStr.nonempty (PyStr.lower s) = PyStr.nonempty s.
Proof. now destruct s. Qed.

Lemma push_app (c : ascii) (l1 l2 : list string) :
  l1 <> [] -> PyStr.push c (l1 ++ l2) = PyStr.push c l1 ++ l2.
Proof. destruct l1; [contradiction|reflexivity]. Qed.

(** A separator cuts the fields of the two sides apart. *)
Lemma fields_app_sep (sep : ascii -> bool) (a b : string) (c : ascii) :
  sep c = true ->
  PyStr.fields sep (a +:+ String c b) = PyStr.fields sep a ++ PyStr.fields sep b.
Proof.
  intros Hc. induction a as [|x a IH].
  - simpl. now rewrite Hc.
  - change (String x a +:+ String c b) with (String x (a +:+ String c b)).
    cbn [PyStr.fields]. rewrite IH. destruct (sep x); [reflexivity|].
    apply push_app, PyStrFacts.fields_not_nil.
Qed.

Lemma split_app_space (a b : string) (c : ascii) :
  PyStr.isspace c = true ->
  PyStr.split (a +:+ String c b) = PyStr.split a ++ PyStr.split b.
Proof.
  intros Hc. unfold PyStr.split. now rewrite (fields_app_sep _ a b c Hc), filter_app.
Qed.

Lemma fields_no_sep_id (sep : ascii -> bool) (s : string) :
  all_chars (fun c => negb (sep c)) s = true -> PyStr.fields sep s = [s].
Proof.
  induction s as [|c s IH]; [reflexivity|].
  simpl. intros H. apply andb_prop in H as [Hc Hs].
  apply negb_true_iff in Hc. now rewrite Hc, (IH Hs).
Qed.

Lemma split_token (s : string) :
  PyStr.nonempty s = true -> no_space s -> PyStr.split s = [s].
Proof.
  intros Hne Hns. unfold PyStr.split.
  rewrite (fields_no_sep_id PyStr.isspace s Hns).
  rewrite filter_cons_True by exact Hne. reflexivity.
Qed.

Lemma split_join_tokens (l : list string) :
  Forall (fun t => PyStr.nonempty t = true /\ no_space t) l ->
  PyStr.split (PyStr.join " " l) = l.
Proof.
  induction 1 as [|x l [Hne Hns] Hl IH]; [reflexivity|].
  destruct l as [|y l].
  - simpl. now apply split_token.
  - change (PyStr.join " " (x :: y :: l))
      with (x +:+ String " " (PyStr.join " " (y :: l))).
    rewrite split_app_space by reflexivity.
    now rewrite IH, (split_token x Hne Hns).
Qed.

Lemma tokenize_tokens (text : string) :
  Forall (fun t => PyStr.nonempty t = true /\ no_space t
                   /\ PyStr.lower t = t) (tokenize text).
Proof.
  rewrite tokenize_lower_split. apply Forall_forall. intros t Ht.
  change (t ∈ PyStr.lower <$> PyStr.split text) in Ht.
  apply list_elem_of_fmap in Ht as (w & -> & Hw).
  pose proof (PyStrFacts.split_tokens text) as H.
  rewrite Forall_forall in H. destruct (H w Hw) as [Hne Hns].
  split; [now rewrite lower_nonempty|]. split; [now apply lower_no_space|].
  apply lower_idempotent.
Qed.

(** X1: tokenizing is a normal form.  Every token is non-empty, free of
    whitespace and in lower case, and tokenizing the tokens joined by single
    spaces gives the tokens back. *)
Theorem tokenize_join_tokenize (text : string) :
  Forall (fun t => PyStr.nonempty t = true /\ no_space t
                   /\ PyStr.lower t = t) (tokenize text)
  /\ tokenize (PyStr.join " " (tokenize text)) = tokenize text.
Proof.
  split; [apply tokenize_tokens|].
  rewrite (tokenize_lower_split (PyStr.join " " (tokenize text))).
  rewrite split_join_tokens.
  - pose proof (tokenize_tokens text) as H.
    induction H as [|t l (_ & _ & Hl) _ IH]; [reflexivity|].
    simpl. now rewrite Hl, IH.
  - eapply Forall_impl; [apply tokenize_tokens|].
    intros t (Hne & Hns & _). now split.
Qed.

Lemma fields_lstrip (s : string) :
  exists n, PyStr.fields PyStr.isspace s
            = repeat EmptyString n ++ PyStr.fields PyStr.isspace (PyStr.lstrip s).
Proof.
  induction s as [|c s [n IH]].
  - exists 0%nat. reflexivity.
  - simpl. destruct (PyStr.isspace c) eqn:Hc.
    + exists (S n). simpl. now rewrite IH.
    + exists 0%nat. simpl. now rewrite Hc.
Qed.

Lemma fields_cons (sep : ascii -> bool) (c : ascii) (s : string) :
  PyStr.fields sep (String c s) =
  if sep c then EmptyString :: PyStr.fields sep s
  else PyStr.push c (PyStr.fields sep s).
Proof. reflexivity. Qed.

Lemma fields_rstrip (s : string) :
  exists n, PyStr.fields PyStr.isspace s
            = PyStr.fields PyStr.isspace (PyStr.rstrip s) ++ repeat EmptyString n.
Proof.
  induction s as [|c s [n IH]].
  - exists 0%nat. reflexivity.
  - cbn [PyStr.rstrip]. rewrite fields_cons.
    destruct (PyStr.rstrip s) as [|r0 r] eqn:Hr.
    + simpl in IH. destruct (PyStr.isspace c) eqn:Hc.
      * exists (S n). simpl. now rewrite IH.
      * exists n. simpl. now rewrite Hc, IH.
    + rewrite (fields_cons _ c (String r0 r)).
      destruct (PyStr.isspace c) eqn:Hc.
      * exists n. now rewrite IH.
      * exists n. rewrite IH. apply push_app, PyStrFacts.fields_not_nil.
Qed.

Lemma filter_repeat_empty (n : nat) :
  filter (fun f => PyStr.nonempty f = true) (repeat EmptyString n) = [].
Proof.
  induction n as [|n IH]; [reflexivity|].
  simpl. rewrite filter_cons_False by (simpl; discriminate). exact IH.
Qed.

Lemma split_strip (s : string) : PyStr.split (PyStr.strip s) = PyStr.split s.
Proof.
  unfold PyStr.split, PyStr.strip.
  destruct (fields_lstrip s) as [n ->].
  destruct (fields_rstrip (PyStr.lstrip s)) as [m ->].
  now rewrite !filter_app, !filter_repeat_empty, app_nil_r.
Qed.

(** X2: whitespace around a text does not change its tokens, so the tokens
    of a chunk's stripped content are the tokens of the raw text. *)
Theorem tokenize_strip (text : string) :
  tokenize (PyStr.strip text) = tokenize text.
Proof. now rewrite !tokenize_lower_split, split_strip. Qed.

(** ** The chunker, further *)

Lemma lstrip_all_space (s : string) :
  all_chars PyStr.isspace s = true -> PyStr.lstrip s = EmptyString.
Proof.
  induction s as [|c s IH]; [reflexivity|].
  simpl. intros H. apply andb_prop in H as [Hc Hs]. now rewrite Hc, IH.
Qed.

Lemma lstrip_head (s : string) :
  all_chars PyStr.isspace s = false ->
  exists c r, PyStr.lstrip s = String c r /\ PyStr.isspace c = false.
Proof.
  induction s as [|c s IH]; [discriminate|].
  simpl. destruct (PyStr.isspace c) eqn:Hc; simpl; [exact IH|].
  intros _. exists c, s. now split.
Qed.

Lemma rstrip_cons (c : ascii) (s : string) :
  PyStr.rstrip (String c s) =
  match PyStr.rstrip s with
  | EmptyString =>
      if PyStr.isspace c then EmptyString else String c EmptyString
  | String r0 r => String c (String r0 r)
  end.
Proof. reflexivity. Qed.

Lemma rstrip_head (c : ascii) (r : string) :
  PyStr.isspace c = false ->
  exists r', PyStr.rstrip (String c r) = String c r'.
Proof.
  intros Hc. rewrite rstrip_cons. destruct (PyStr.rstrip r); [rewrite Hc|]; eauto.
Qed.

Lemma strip_blank (s : string) :
  PyStr.nonempty (PyStr.strip s) = negb (all_chars PyStr.isspace s).
Proof.
  unfold PyStr.strip. destruct (all_chars PyStr.isspace s) eqn:H.
  - now rewrite (lstrip_all_space s H).
  - destruct (lstrip_head s H) as (c & r & -> & Hc).
    destruct (rstrip_head c r Hc) as [r' ->]. reflexivity.
Qed.

Lemma rstrip_idempotent (s : string) :
  PyStr.rstrip (PyStr.rstrip s) = PyStr.rstrip s.
Proof.
  induction s as [|c s IH]; [reflexivity|].
  rewrite rstrip_cons. destruct (PyStr.rstrip s) as [|r0 r] eqn:Hr.
  - destruct (PyStr.isspace c) eqn:Hc; [reflexivity|].
    simpl. now rewrite Hc.
  - rewrite rstrip_cons, IH. reflexivity.
Qed.

Lemma strip_idempotent (s : string) :
  PyStr.strip (PyStr.strip s) = PyStr.strip s.
Proof.
  unfold PyStr.strip. destruct (all_chars PyStr.isspace s) eqn:H.
  - now rewrite (lstrip_all_space s H).
  - destruct (lstrip_head s H) as (c & r & -> & Hc).
    destruct (rstrip_head c r Hc) as [r' E]. rewrite E.
    assert (PyStr.lstrip (String c r') = String c r') as ->
      by (simpl; now rewrite Hc).
    rewrite <- E. apply rstrip_idempotent.
Qed.

Lemma all_chars_lstrip (p : ascii -> bool) (s : string) :
  all_chars p s = true -> all_chars p (PyStr.lstrip s) = true.
Proof.
  induction s as [|c s IH]; [reflexivity|].
  intros H. simpl. destruct (PyStr.isspace c); [|exact H].
  simpl in H. apply andb_prop in H as [_ Hs]. now apply IH.
Qed.

Lemma all_chars_rstrip (p : ascii -> bool) (s : string) :
  all_chars p s = true -> all_chars p (PyStr.rstrip s) = true.
Proof.
  induction s as [|c s IH]; [reflexivity|].
  intros H. simpl in H. apply andb_prop in H as [Hc Hs].
  rewrite rstrip_cons. specialize (IH Hs).
  destruct (PyStr.rstrip s) as [|r0 r].
  - destruct (PyStr.isspace c); [reflexivity|]. simpl. now rewrite Hc.
  - change (p c && all_chars p (String r0 r) = true). now rewrite Hc, IH.
Qed.

(** The non-blank lines of a text, stripped, are clean lines. *)
Lemma stripped_lines_clean (s : string) : Forall clean_line (stripped_lines s).
Proof.
  unfold stripped_lines. apply Forall_forall. intros l Hl.
  change (l ∈ PyStr.strip <$> filter (fun l => PyStr.nonempty (PyStr.strip l) = true)
                               (PyStr.split_lines s)) in Hl.
  apply list_elem_of_fmap in Hl as (x & -> & Hx).
  apply list_elem_of_filter in Hx as [Hne Hx].
  split; [exact Hne|]. split; [apply strip_idempotent|].
  pose proof (PyStrFacts.fields_no_sep PyStr.is_nl s) as H.
  rewrite Forall_forall in H. specialize (H x Hx).
  unfold PyStr.strip. now apply all_chars_rstrip, all_chars_lstrip.
Qed.

Lemma extract_heading_clean (segment : string) :
  clean_line (fst (_extract_heading segment)).
Proof.
  unfold _extract_heading.
  pose proof (stripped_lines_clean segment) as H.
  destruct (stripped_lines segment) as [|h rest].
  - repeat split.
  - now inversion H.
Qed.

Lemma split_sections_not_nil (text : string) : _split_sections text <> [].
Proof.
  unfold _split_sections, PyStr.re_split_blank.
  assert (forall b s, PyStr.re_split_blank_aux b s <> []) as H.
  { intros b s. revert b. induction s as [|c s IH]; intros b; simpl;
      [discriminate|].
    destruct (PyStr.is_nl c).
    - destruct b; [apply IH|]. destruct s as [|c2 s'].
      + simpl. discriminate.
      + destruct (PyStr.is_nl c2); [discriminate|].
        specialize (IH false). destruct (PyStr.re_split_blank_aux false _);
          [contradiction|discriminate].
    - specialize (IH false). destruct (PyStr.re_split_blank_aux false _);
        [contradiction|discriminate]. }
  specialize (H false text).
  destruct (PyStr.re_split_blank_aux false text); [contradiction|discriminate].
Qed.

(** X3: [chunk_document] returns no chunk exactly when every character of
    the text is whitespace, and then it draws no identifier; otherwise the
    title chunk comes first and at least one section follows. *)
Theorem chunk_document_blank (uuid4 : nat -> string) (doc text : string)
    (md : gmap string string) (n : nat) :
  (all_chars PyStr.isspace text = true ->
   chunk_document uuid4 doc text md n = ([], n))
  /\ (all_chars PyStr.isspace text = false ->
      exists title section rest,
        fst (chunk_document uuid4 doc text md n) = title :: section :: rest
        /\ level title = "title" /\ parent_id title = None
        /\ chunk_id title = uuid4 n
        /\ content title
           = PyStr.strip (default (PyStr.take 80 text) (md !! "title"))
        /\ level section = "section").
Proof.
  unfold chunk_document. rewrite strip_blank, negb_involutive. split.
  - intros ->. reflexivity.
  - intros ->. rewrite gbind_eq. unfold _make_chunk.
    rewrite (fresh_then uuid4
               (fun cid => mkChunk cid doc None "title"
                  (PyStr.strip (default (PyStr.take 80 text) (md !! "title")))
                  md)).
    cbn [chunk_id]. rewrite gbind_eq.
    pose proof (split_sections_not_nil text) as Hne.
    destruct (_split_sections text) as [|sec secs]; [contradiction|].
    rewrite gmapM_cons.
    destruct (chunk_section uuid4 doc (uuid4 n) md sec (S n)) as [cs1 n1] eqn:E1.
    unfold chunk_section in E1. rewrite gbind_eq in E1.
    unfold _make_chunk in E1.
    rewrite (fresh_then uuid4
               (fun cid => mkChunk cid doc (Some (uuid4 n)) "section"
                  (PyStr.strip (fst sec)) md)) in E1.
    rewrite gbind_eq in E1.
    destruct (_split_paragraphs uuid4 doc _ (snd sec) md (S (S n)))
      as [ps n1'] in E1.
    unfold gret in E1. injection E1 as <- <-.
    destruct (gmapM _ secs n1') as [css n2]. unfold gret.
    eexists _, _, _. cbn [fst concat app]. split; [reflexivity|].
    repeat split.
Qed.

Lemma chunk_document_blank_witness :
  chunk_document numbered_uuid4 "doc-1" ("  " +:+ PyStr.nl) ∅ 0%nat = ([], 0%nat)
  /\ exists title section rest,
       fst (chunk_document numbered_uuid4 "doc-1" "Title" ∅ 0%nat)
       = title :: section :: rest
       /\ content title = "Title".
Proof.
  split.
  - apply (chunk_document_blank numbered_uuid4 "doc-1" ("  " +:+ PyStr.nl) ∅).
    reflexivity.
  - destruct (proj2 (chunk_document_blank numbered_uuid4 "doc-1" "Title" ∅ 0%nat))
      as (title & section & rest & Heq & _ & _ & _ & Hc & _); [reflexivity|].
    exists title, section, rest. split; [exact Heq|]. rewrite Hc. reflexivity.
Defined.

Lemma gmapM_Forall {X Y} (f : X -> Gen Y) (P : Y -> Prop) :
  (forall x n, P (fst (f x n))) ->
  forall l n, Forall P (fst (gmapM f l n))
              /\ length (fst (gmapM f l n)) = length l.
Proof.
  intros Hf. induction l as [|x l IH]; intros n.
  - split; [constructor|reflexivity].
  - rewrite gmapM_cons. specialize (Hf x n).
    destruct (f x n) as [y n1]. specialize (IH n1).
    destruct (gmapM f l n1) as [ys n2]. simpl in *.
    destruct IH as [IH1 IH2]. split; [now constructor|now rewrite IH2].
Qed.

Lemma chunk_section_block (uuid4 : nat -> string) (doc tid : string)
    (md : gmap string string) (sec : string * string) (n : nat) :
  section_block tid (fst (chunk_section uuid4 doc tid md sec n)).
Proof.
  unfold chunk_section. rewrite gbind_eq. unfold _make_chunk.
  rewrite (fresh_then uuid4
             (fun cid => mkChunk cid doc (Some tid) "section"
                (PyStr.strip (fst sec)) md)).
  rewrite gbind_eq. cbn [chunk_id].
  pose proof (gmapM_Forall
                (fun paragraph =>
                   (cid <- fresh_uuid uuid4 ;;
                    gret (mkChunk cid doc (Some (uuid4 n)) "paragraph"
                                  paragraph md))%gen)
                (fun p => level p = "paragraph"
                          /\ parent_id p = Some (uuid4 n))
                (fun x m => conj eq_refl eq_refl)
                (stripped_lines (snd sec)) (S n)) as [H _].
  unfold _split_paragraphs.
  destruct (gmapM _ (stripped_lines (snd sec)) (S n)) as [ps n1].
  unfold gret. cbn [fst] in *.
  eexists _, ps. split; [reflexivity|]. repeat split. exact H.
Qed.

(** X4: the chunks of a non-blank text are the title chunk followed by one
    block per blank-line-separated segment; a block is a section chunk whose
    parent is the title chunk, followed by its paragraph chunks, whose
    parent is that section chunk. *)
Theorem chunk_document_forest (uuid4 : nat -> string) (doc text : string)
    (md : gmap string string) (n : nat) :
  all_chars PyStr.isspace text = false ->
  exists title blocks,
    fst (chunk_document uuid4 doc text md n) = title :: concat blocks
    /\ level title = "title" /\ parent_id title = None
    /\ length blocks = length (PyStr.re_split_blank text)
    /\ Forall (section_block (chunk_id title)) blocks.
Proof.
  intros Hb. unfold chunk_document.
  rewrite strip_blank, Hb. cbn [negb]. rewrite gbind_eq. unfold _make_chunk.
  rewrite (fresh_then uuid4
             (fun cid => mkChunk cid doc None "title"
                (PyStr.strip (default (PyStr.take 80 text) (md !! "title")))
                md)).
  cbn [chunk_id]. rewrite gbind_eq.
  pose proof (gmapM_Forall (chunk_section uuid4 doc (uuid4 n) md)
                (section_block (uuid4 n))
                (chunk_section_block uuid4 doc (uuid4 n) md)
                (_split_sections text) (S n)) as [H Hlen].
  destruct (gmapM _ (_split_sections text) (S n)) as [css n1].
  unfold gret. cbn [fst] in *.
  eexists _, css. split; [reflexivity|]. repeat split; [|exact H].
  rewrite Hlen. unfold _split_sections. apply length_map.
Qed.

Lemma chunk_document_forest_witness :
  exists title blocks,
    fst (chunk_document numbered_uuid4 "doc-1" sample_text ∅ 0%nat)
    = title :: concat blocks
    /\ length blocks = 3%nat
    /\ Forall (section_block (chunk_id title)) blocks.
Proof.
  destruct (chunk_document_forest numbered_uuid4 "doc-1" sample_text ∅ 0%nat)
    as (title & blocks & Heq & _ & _ & Hlen & Hall); [reflexivity|].
  exists title, blocks. split; [exact Heq|]. split; [exact Hlen|exact Hall].
Defined.

Lemma document_shapes_clean (doc text : string) (md : gmap string string) :
  Forall (fun sh =>
            let '(d, lvl, txt, m) := sh in
            d = doc /\ m = md /\ PyStr.strip txt = txt
            /\ (lvl = "title" \/ (lvl = "section" \/ lvl = "paragraph")
                                 /\ clean_line txt))
         (document_shapes doc text md).
Proof.
  unfold document_shapes.
  destruct (negb (PyStr.nonempty (PyStr.strip text))); [constructor|].
  constructor.
  - repeat split; [apply strip_idempotent|now left].
  - apply Forall_concat. apply Forall_forall. intros blk Hblk.
    change (blk ∈ section_shapes doc md <$> _split_sections text) in Hblk.
    apply list_elem_of_fmap in Hblk as (sec & -> & Hsec).
    unfold _split_sections in Hsec.
    change (sec ∈ _extract_heading <$> PyStr.re_split_blank text) in Hsec.
    apply list_elem_of_fmap in Hsec as (seg & -> & _).
    unfold section_shapes. constructor.
    + pose proof (extract_heading_clean seg) as (Hne & Hs & Hnl).
      rewrite Hs. repeat split; try assumption. right. split; [now left|].
      repeat split; assumption.
    + apply Forall_forall. intros sh Hsh.
      change (sh ∈ (fun p => (doc, "paragraph", p, md))
                   <$> stripped_lines (snd (_extract_heading seg))) in Hsh.
      apply list_elem_of_fmap in Hsh as (p & -> & Hp).
      pose proof (stripped_lines_clean (snd (_extract_heading seg))) as H.
      rewrite Forall_forall in H. destruct (H p Hp) as (Hne & Hs & Hnl).
      repeat split; try assumption. right. split; [now right|].
      repeat split; assumption.
Qed.

(** X5: every chunk of [chunk_document] carries the given document
    identifier and the given metadata map, and its content is stripped; the
    content of a section or paragraph chunk is moreover non-empty and holds
    no line feed. *)
Theorem chunk_document_contents (uuid4 : nat -> string) (doc text : string)
    (md : gmap string string) (n : nat) (c : Chunk) :
  c ∈ fst (chunk_document uuid4 doc text md n) ->
  document_id c = doc /\ metadata c = md
  /\ PyStr.strip (content c) = content c
  /\ (level c = "title"
      \/ (level c = "section" \/ level c = "paragraph")
         /\ clean_line (content c)).
Proof.
  intros Hc.
  destruct (emits_chunk_document uuid4 doc text md n) as (cs & E & _ & Hsh).
  rewrite E in Hc. cbn [fst] in Hc.
  pose proof (document_shapes_clean doc text md) as H.
  rewrite <- Hsh, Forall_forall in H.
  apply (list_elem_of_fmap_2 shape) in Hc. exact (H _ Hc).
Qed.

Lemma chunk_document_contents_witness :
  exists c,
    c ∈ fst (chunk_document numbered_uuid4 "doc-1" sample_text ∅ 0%nat)
    /\ content c = "Heading1"
    /\ document_id c = "doc-1" /\ clean_line (content c).
Proof.
  exists (mkChunk "uuid-2" "doc-1" (Some "uuid-0") "section" "Heading1" ∅).
  assert (mkChunk "uuid-2" "doc-1" (Some "uuid-0") "section" "Heading1" ∅
          ∈ fst (chunk_document numbered_uuid4 "doc-1" sample_text ∅ 0%nat))
    as Hin.
  { vm_compute. do 2 apply list_elem_of_further. apply list_elem_of_here. }
  split; [exact Hin|]. split; [reflexivity|].
  destruct (chunk_document_contents numbered_uuid4 "doc-1" sample_text ∅
              0%nat _ Hin) as (Hd & _ & _ & [Ht|[_ Hclean]]).
  - discriminate Ht.
  - split; [exact Hd|exact Hclean].
Defined.

(** X6: the chunks built for one document (the chunker's and the table
    chunks) use one UUID each, in order, and when [uuid4] never repeats a
    value no two of them share a [chunk_id]. *)
Theorem document_chunks_distinct_ids (uuid4 : nat -> string)
    (doc filename text : string) (tables : list ExtractedTable)
    (base : gmap string string) (n : nat) :
  (forall i j, uuid4 i = uuid4 j -> i = j) ->
  let '(chunks, n') := document_chunks uuid4 doc filename text tables base n in
  n' = (n + length chunks)%nat
  /\ map chunk_id chunks = map uuid4 (seq n (length chunks))
  /\ NoDup (map chunk_id chunks).
Proof.
  intros Hinj.
  destruct (emits_document_chunks uuid4 doc filename text tables base n)
    as (cs & -> & Hids & _).
  split; [reflexivity|]. split; [exact Hids|].
  rewrite Hids. change (NoDup (uuid4 <$> seq n (length cs))).
  apply (@NoDup_fmap_2 _ _ uuid4 Hinj), NoDup_seq.
Qed.

Lemma document_chunks_distinct_ids_witness :
  let '(chunks, n') :=
    document_chunks numbered_uuid4 "doc-1" "a.txt" sample_text
      [mkExtractedTable "t1" "Revenue" "a,b"] ∅ 0%nat in
  n' = (0 + length chunks)%nat
  /\ map chunk_id chunks = map numbered_uuid4 (seq 0 (length chunks))
  /\ NoDup (map chunk_id chunks).
Proof.
  apply (document_chunks_distinct_ids numbered_uuid4 "doc-1" "a.txt"
           sample_text [mkExtractedTable "t1" "Revenue" "a,b"] ∅ 0%nat).
  exact numbered_uuid4_inj.
Defined.

(** ** The fallback embedding, further *)

Lemma length_seq_mul {A} (l : list A) (k : nat) :
  length (seq_mul l k) = (k * length l)%nat.
Proof.
  induction k as [|k IH]; [reflexivity|].
  simpl. now rewrite length_app, IH.
Qed.

Lemma lookup_seq_mul {A} (l : list A) (k i : nat) :
  (i < k * length l)%nat ->
  seq_mul l k !! i = l !! (i mod length l)%nat.
Proof.
  revert i. induction k as [|k IH]; intros i Hi; [lia|].
  simpl in *. destruct (Nat.lt_ge_cases i (length l)) as [Hlt|Hge].
  - rewrite lookup_app_l by exact Hlt. now rewrite Nat.mod_small.
  - rewrite lookup_app_r by exact Hge. rewrite IH by lia.
    f_equal. assert (length l <> 0)%nat as Hne by lia.
    replace i with ((i - length l) + 1 * length l)%nat at 2 by lia.
    now rewrite Nat.Div0.mod_add.
Qed.

Lemma be_bytes_range (n : nat) (x : Z) :
  Forall (fun b => 0 <= b <= 255) (Sha256.be_bytes n x).
Proof.
  induction n as [|n IH]; [constructor|].
  simpl. constructor; [|exact IH].
  pose proof (Z.mod_pos_bound (Z.shiftr x (8 * Z.of_nat n)) 256). lia.
Qed.

(** A digest is 32 bytes. *)
Lemma sha256_digest_bytes (msg : list Z) :
  Forall (fun b => 0 <= b <= 255) (Sha256.digest msg).
Proof.
  unfold Sha256.digest, Sha256.digest_of_state.
  repeat (apply Forall_app; split); apply be_bytes_range.
Qed.

(** X7: for every dimension [dim >= 0] the fallback vector has exactly
    [dim] components; component [i] is the digest byte at position
    [i mod 32] divided by 255 and lies between 0 and 1. *)
Theorem fallback_embedding_any_dim (text : string) (dim : Z) :
  0 <= dim ->
  length (_fallback_embedding_dim text dim) = Z.to_nat dim
  /\ (forall i, (i < Z.to_nat dim)%nat ->
        exists b,
          Sha256.digest (utf8 text) !! (i mod 32)%nat = Some b
          /\ _fallback_embedding_dim text dim !! i = Some (byte_to_float b)
          /\ (0 <= byte_to_float b <= 1)%Q).
Proof.
  intros Hdim. unfold _fallback_embedding_dim, slice_to.
  rewrite sha256_digest_length.
  destruct (Z.leb_spec 0 dim) as [_|?]; [|lia].
  set (d := Sha256.digest (utf8 text)).
  assert (length d = 32%nat) as Hlen by apply sha256_digest_length.
  assert (Z.to_nat dim <= Z.to_nat (dim / Z.of_nat 32 + 1) * 32)%nat as Hk.
  { change (Z.of_nat 32) with 32.
    pose proof (Z.mul_succ_div_gt dim 32 ltac:(lia)).
    pose proof (Z.div_pos dim 32 Hdim ltac:(lia)). lia. }
  split.
  - rewrite length_map, length_take, length_seq_mul, Hlen. lia.
  - intros i Hi.
    assert (i mod 32 < length d)%nat as Hm
      by (rewrite Hlen; apply Nat.mod_upper_bound; lia).
    destruct (lookup_lt_is_Some_2 d _ Hm) as [b Hb].
    exists b. split; [exact Hb|]. split.
    + change (map byte_to_float ?l) with (byte_to_float <$> l).
      rewrite list_lookup_fmap, lookup_take_lt by exact Hi.
      rewrite lookup_seq_mul by (rewrite Hlen; lia).
      now rewrite Hlen, Hb.
    + apply byte_to_float_range.
      pose proof (sha256_digest_bytes (utf8 text)) as Hr.
      rewrite Forall_forall in Hr. apply Hr.
      apply (list_elem_of_lookup_2 _ _ _ Hb).
Qed.

Lemma fallback_embedding_any_dim_witness :
  length (_fallback_embedding_dim "abc" 40) = 40%nat
  /\ _fallback_embedding_dim "abc" 40 !! 33%nat = Some (byte_to_float 120).
Proof.
  destruct (fallback_embedding_any_dim "abc" 40) as [Hlen Hcomp]; [lia|].
  split; [exact Hlen|].
  destruct (Hcomp 33%nat) as (b & Hb & Hv & _); [vm_compute; lia|].
  vm_compute in Hb. injection Hb as <-. exact Hv.
Defined.

(** ** The chunk store, further *)

Lemma row_eq (r1 r2 : Row) :
  kept_from r1 r2 ->
  col_content r1 = col_content r2 -> col_metadata r1 = col_metadata r2 ->
  col_embedding r1 = col_embedding r2 ->
  col_sparse_tokens r1 = col_sparse_tokens r2 ->
  r1 = r2.
Proof.
  intros (H1 & H2 & H3 & H4) H5 H6 H7 H8.
  destruct r1, r2. simpl in *. now subst.
Qed.

(** Applying a batch to the table it has produced changes nothing. *)
Lemma apply_rows_idempotent (utcnow1 utcnow2 : nat -> Z) (i1 i2 : nat)
    (rows : list Payload) (t : Table) :
  apply_rows utcnow2 i2 rows (apply_rows utcnow1 i1 rows t)
  = apply_rows utcnow1 i1 rows t.
Proof.
  apply map_eq. intros id.
  destruct (decide (id ∈ map p_chunk_id rows)) as [Hin|Hout].
  - change (id ∈ p_chunk_id <$> rows) in Hin.
    apply list_elem_of_fmap in Hin as (row & -> & Hrow).
    destruct (apply_rows_written utcnow1 rows i1 t row Hrow)
      as (r1 & final & Hr1 & Hlast & Hw1).
    destruct (apply_rows_existing utcnow2 rows i2 _ _ _ Hr1)
      as (r2 & Hr2 & Hkept & Hw2).
    rewrite Hlast in Hw2. rewrite Hr2, Hr1. f_equal.
    destruct Hw1 as (A1 & A2 & A3 & A4). destruct Hw2 as (B1 & B2 & B3 & B4).
    apply row_eq; [exact Hkept|congruence..].
  - now apply apply_rows_other.
Qed.

(** X8: the upsert is idempotent.  Once a batch has been committed,
    submitting the same batch again, at any later time and whether or not
    that second call succeeds, leaves the table as it is. *)
Theorem upsert_chunks_idempotent (embedding_dim : Z)
    (utcnow1 utcnow2 : nat -> Z) (fault1 fault2 : nat -> bool)
    (commit_fault1 commit_fault2 : bool) (db db1 : Table)
    (rows : list Payload) (n : Z) :
  upsert_chunks embedding_dim utcnow1 fault1 commit_fault1 db rows
  = (db1, Ok n) ->
  fst (upsert_chunks embedding_dim utcnow2 fault2 commit_fault2 db1 rows)
  = db1.
Proof.
  intros H. apply upsert_chunks_Ok in H as [-> _].
  destruct (upsert_chunks_cases embedding_dim utcnow2 fault2 commit_fault2
              (apply_rows utcnow1 0 rows db) rows)
    as [(_ & e & ->)|(_ & _ & ->)]; [reflexivity|].
  apply apply_rows_idempotent.
Qed.

Lemma upsert_chunks_idempotent_witness :
  exists db1,
    upsert_chunks 3 clock_200 no_fault false {["c1" := stored_row]}
                  [good_payload; good_payload] = (db1, Ok 2)
    /\ fst (upsert_chunks 3 clock_300 no_fault false db1
                          [good_payload; good_payload]) = db1.
Proof.
  destruct (upsert_chunks 3 clock_200 no_fault false {["c1" := stored_row]}
              [good_payload; good_payload]) as [db1 r] eqn:E.
  assert (r = Ok 2) as ->
    by (clear -E; vm_compute in E; injection E as _ <-; reflexivity).
  exists db1. split; [reflexivity|].
  apply (upsert_chunks_idempotent 3 clock_200 clock_300 no_fault no_fault
           false false _ _ _ _ E).
Defined.

Lemma dom_upsert_row (now : Z) (row : Payload) (t : Table) :
  dom (upsert_row now row t) = {[p_chunk_id row]} ∪ dom t.
Proof.
  unfold upsert_row. destruct (t !! p_chunk_id row); apply dom_insert_L.
Qed.

Lemma dom_apply_rows (utcnow : nat -> Z) (rows : list Payload) :
  forall i t,
    dom (apply_rows utcnow i rows t)
    = dom t ∪ list_to_set (map p_chunk_id rows).
Proof.
  induction rows as [|row rest IH]; intros i t; simpl.
  - now rewrite (right_id_L ∅ (∪)).
  - rewrite IH, dom_upsert_row.
    rewrite (comm_L (∪) {[p_chunk_id row]} (dom t)).
    now rewrite (assoc_L (∪)).
Qed.

(** X9: [upsert_chunks] never removes a row and never touches a row whose
    key is not in the batch, whatever its outcome; when it succeeds it
    returns the number of payloads and the keys of the table are the old
    keys together with the keys of the batch. *)
Theorem upsert_chunks_frame (embedding_dim : Z) (utcnow : nat -> Z)
    (fault : nat -> bool) (commit_fault : bool) (db : Table)
    (rows : list Payload) :
  let '(db', r) :=
    upsert_chunks embedding_dim utcnow fault commit_fault db rows in
  dom db ⊆ dom db'
  /\ (forall id, id ∉ map p_chunk_id rows -> db' !! id = db !! id)
  /\ (forall n, r = Ok n ->
        n = Z.of_nat (length rows)
        /\ dom db' = dom db ∪ list_to_set (map p_chunk_id rows)).
Proof.
  destruct (upsert_chunks_cases embedding_dim utcnow fault commit_fault db rows)
    as [(_ & e & ->)|(_ & _ & ->)].
  - split; [reflexivity|]. split; [reflexivity|]. intros n Hn. discriminate Hn.
  - split; [rewrite dom_apply_rows; apply union_subseteq_l|].
    split; [intros id Hid; now apply apply_rows_other|].
    intros n [= <-]. split; [reflexivity|apply dom_apply_rows].
Qed.

Lemma upsert_chunks_frame_witness :
  fst (upsert_chunks 3 clock_200 no_fault false {["c1" := stored_row]}
                     [mkPayload "c3" "doc-1" None "paragraph" "p" ∅ None None])
  !! "c1" = Some stored_row.
Proof.
  pose proof (upsert_chunks_frame 3 clock_200 no_fault false
                {["c1" := stored_row]}
                [mkPayload "c3" "doc-1" None "paragraph" "p" ∅ None None])
    as H.
  destruct (upsert_chunks _ _ _ _ _ _) as [db' r].
  destruct H as (_ & Hframe & _). cbn [fst].
  rewrite (Hframe "c1"); [reflexivity|].
  apply (bool_decide_unpack _). vm_compute. exact I.
Defined.

(** ** Reciprocal rank fusion, further *)

(** *** Integers that convert exactly *)

Lemma digits2_pos_size (m : positive) : SpecFloat.digits2_pos m = Pos.size m.
Proof. induction m; simpl; now rewrite ?IHm. Qed.

Lemma digits2_pos_bound (m : positive) (k : Z) :
  0 <= k -> Zpos m < 2 ^ k -> Zpos (SpecFloat.digits2_pos m) <= k.
Proof.
  intros Hk Hm. rewrite digits2_pos_size.
  destruct (Z.le_gt_cases (Zpos (Pos.size m)) k) as [H|H]; [exact H|].
  exfalso. pose proof (Pos.size_le m) as Hs.
  assert (2 ^ (k + 1) <= 2 ^ Zpos (Pos.size m)) as Hp
    by (apply Z.pow_le_mono_r; lia).
  rewrite Z.pow_add_r in Hp by lia.
  assert (Zpos (2 ^ Pos.size m) <= Zpos m~0) as Hs' by exact Hs.
  rewrite Pos2Z.inj_pow in Hs'. change (Zpos 2) with 2 in Hs'. lia.
Qed.

Lemma digits2_pos_iter (m p : positive) :
  SpecFloat.digits2_pos (Pos.iter xO m p)
  = (SpecFloat.digits2_pos m + p)%positive.
Proof.
  induction p using Pos.peano_ind.
  - simpl. lia.
  - rewrite Pos.iter_succ. simpl. rewrite IHp. lia.
Qed.

(** A mantissa of 53 bits within the exponent range is not rounded. *)
Lemma binary_round_aux_exact (s : bool) (mz : positive) (ez : Z) :
  Zpos (SpecFloat.digits2_pos mz) = 53 -> -1074 <= ez <= 971 ->
  SpecFloat.binary_round_aux 53 1024 s (Zpos mz) ez SpecFloat.loc_Exact
  = SpecFloat.S754_finite s mz ez.
Proof.
  intros Hd He.
  assert (SpecFloat.shr_fexp 53 1024 (Zpos mz) ez SpecFloat.loc_Exact
          = (SpecFloat.Build_shr_record (Zpos mz) false false, ez)) as Hshr.
  { unfold SpecFloat.shr_fexp, SpecFloat.fexp, SpecFloat.emin.
    cbn [SpecFloat.Zdigits2 SpecFloat.shr_record_of_loc]. rewrite Hd.
    replace (Z.max (53 + ez - 53) (3 - 1024 - 53) - ez) with 0 by lia.
    reflexivity. }
  unfold SpecFloat.binary_round_aux. rewrite Hshr.
  cbn [SpecFloat.shr_m SpecFloat.loc_of_shr_record
       SpecFloat.round_nearest_even].
  rewrite Hshr. cbn [SpecFloat.shr_m].
  destruct (Z.leb_spec ez (1024 - 53)) as [_|?]; [reflexivity|lia].
Qed.

Lemma binary_round_small (s : bool) (m : positive) :
  Zpos m < 2 ^ 53 ->
  exists m' e',
    SpecFloat.binary_round 53 1024 s m 0 = SpecFloat.S754_finite s m' e'.
Proof.
  intros Hm. pose proof (digits2_pos_bound m 53 ltac:(lia) Hm) as Hd.
  unfold SpecFloat.binary_round, SpecFloat.fexp, SpecFloat.emin,
    SpecFloat.shl_align.
  replace (Z.max (Zpos (SpecFloat.digits2_pos m) + 0 - 53) (3 - 1024 - 53))
    with (Zpos (SpecFloat.digits2_pos m) - 53) by lia.
  destruct (Zpos (SpecFloat.digits2_pos m) - 53 - 0) as [|p|p] eqn:E;
    try lia.
  - do 2 eexists. apply binary_round_aux_exact; lia.
  - do 2 eexists. apply binary_round_aux_exact; [|lia].
    rewrite digits2_pos_iter. lia.
Qed.

(** [1.0 / n] for an integer below [2 ** 53] in magnitude: the conversion
    cannot overflow, and only [n = 0] is refused. *)
Lemma truediv_int_small (x : Float.t) (n : Z) :
  - 2 ^ 53 < n < 2 ^ 53 ->
  (n = 0 /\ Float.truediv_int x n = Raise ZeroDivisionError)
  \/ (n <> 0 /\ exists y, Float.truediv_int x n = Ok y).
Proof.
  intros Hn. unfold Float.truediv_int, Float.of_int, Float.prec, Float.emax.
  destruct n as [|m|m]; cbn [SpecFloat.binary_normalize].
  - left. split; reflexivity.
  - right. split; [discriminate|].
    destruct (binary_round_small false m) as (m' & e' & ->); [lia|].
    cbn [rbind Ok]. eauto.
  - right. split; [discriminate|].
    destruct (binary_round_small true m) as (m' & e' & ->); [lia|].
    cbn [rbind Ok]. eauto.
Qed.

(** [1.0 / n] fails in two ways only. *)
Lemma truediv_int_raises (x : Float.t) (n : Z) (e : exn) :
  Float.truediv_int x n = Raise e ->
  e = ZeroDivisionError \/ e = OverflowError.
Proof.
  unfold Float.truediv_int, Float.of_int.
  destruct (SpecFloat.binary_normalize Float.prec Float.emax n 0 false);
    cbn [rbind Ok]; intros [= <-]; auto.
Qed.

(** *** The failures of the fusion *)

Lemma b64_rrf_items_raises (k : Z) (source : string)
    (items : list (string * Q)) :
  forall rank st e,
    Binary64.rrf_items k source rank items st = Raise e ->
    e = ZeroDivisionError \/ e = OverflowError.
Proof.
  induction items as [|[c0 s0] items IH]; intros rank st e;
    [discriminate|].
  cbn [Binary64.rrf_items].
  destruct (Float.truediv_int Float.one (k + rank)) as [e'|x] eqn:E.
  - intros [= <-]. exact (truediv_int_raises _ _ _ E).
  - apply IH.
Qed.

Lemma b64_rrf_items_cases (k : Z) (source : string)
    (items : list (string * Q)) :
  forall rank st,
    - 2 ^ 53 < k + rank ->
    k + rank + Z.of_nat (length items) <= 2 ^ 53 ->
    (rank <= - k < rank + Z.of_nat (length items)
     /\ Binary64.rrf_items k source rank items st = Raise ZeroDivisionError)
    \/ (~ rank <= - k < rank + Z.of_nat (length items)
        /\ exists st', Binary64.rrf_items k source rank items st = Ok st').
Proof.
  induction items as [|[c0 s0] items IH]; intros rank st Hlo Hhi.
  - right. split; [simpl; lia|]. simpl. eauto.
  - cbn [Binary64.rrf_items]. cbn [length] in Hhi.
    destruct (truediv_int_small Float.one (k + rank)) as [[Hz ->]|[Hnz [x ->]]];
      [lia| |].
    + left. split; [cbn [length]; lia|reflexivity].
    + change (@Ok Float.t x) with (@inr exn Float.t x). cbv iota beta.
      match goal with
      | |- context [Binary64.rrf_items k source (rank + 1) items ?s] =>
          destruct (IH (rank + 1) s ltac:(lia) ltac:(lia))
            as [[Hr ->]|[Hr [st' ->]]]
      end.
      * left. split; [cbn [length]; lia|reflexivity].
      * right. split; [cbn [length]; lia|eauto].
Qed.

Lemma b64_rrf_sources_raises (k : Z)
    (rankings : PyDict.t (list (string * Q))) :
  forall st e,
    Binary64.rrf_sources k rankings st = Raise e ->
    e = ZeroDivisionError \/ e = OverflowError.
Proof.
  induction rankings as [|[source items] rest IH]; intros st e;
    [discriminate|].
  cbn [Binary64.rrf_sources].
  destruct (Binary64.rrf_items k source 1 items st) as [e'|st1] eqn:E.
  - intros [= <-]. exact (b64_rrf_items_raises _ _ _ _ _ _ E).
  - cbn [rbind]. apply IH.
Qed.

Lemma b64_rrf_sources_cases (k : Z)
    (rankings : PyDict.t (list (string * Q))) :
  forall st,
    - 2 ^ 53 < k ->
    Forall (fun si => k + Z.of_nat (length (snd si)) < 2 ^ 53) rankings ->
    (Exists (fun si => 1 <= - k <= Z.of_nat (length (snd si))) rankings
     /\ Binary64.rrf_sources k rankings st = Raise ZeroDivisionError)
    \/ (~ Exists (fun si => 1 <= - k <= Z.of_nat (length (snd si))) rankings
        /\ exists st', Binary64.rrf_sources k rankings st = Ok st').
Proof.
  induction rankings as [|[source items] rest IH]; intros st Hlo Hhi.
  - right. split; [intros H; inversion H|]. simpl. eauto.
  - cbn [Binary64.rrf_sources].
    apply Forall_cons in Hhi as [Hhd Hhi]. cbn [snd] in Hhd.
    destruct (b64_rrf_items_cases k source items 1 st ltac:(lia) ltac:(lia))
      as [[Hr ->]|[Hr [st1 ->]]].
    + left. split; [|reflexivity]. apply Exists_cons_hd. simpl. lia.
    + change (rbind (Ok st1) (Binary64.rrf_sources k rest))
        with (Binary64.rrf_sources k rest st1).
      destruct (IH st1 Hlo Hhi) as [[Hx ->]|[Hx [st' ->]]].
      * left. split; [now apply Exists_cons_tl|reflexivity].
      * right. split; [|eauto]. intros H.
        apply Exists_cons in H as [H|H]; [simpl in H; lia|contradiction].
Qed.

(** X10: the failures of [reciprocal_rank_fusion], computed in doubles.
    It raises nothing but [ZeroDivisionError] and [OverflowError], the two
    failures of [1.0 / (k + rank)]; the lookup [provenance[chunk_id]]
    never raises [KeyError].  As long as every [k + rank] is below
    [2 ** 53] in magnitude, it raises [ZeroDivisionError] exactly when [k]
    is negative and some source lists at least [-k] items, and returns
    otherwise.  With an item to rank and [k + 1] beyond the largest
    double it raises [OverflowError]. *)
Theorem reciprocal_rank_fusion_failure
    (rankings : PyDict.t (list (string * Q))) (k : Z) :
  (forall e,
     Binary64.reciprocal_rank_fusion rankings k = Raise e ->
     e = ZeroDivisionError \/ e = OverflowError)
  /\ (- 2 ^ 53 < k ->
      Forall (fun si => k + Z.of_nat (length (snd si)) < 2 ^ 53) rankings ->
      (Exists (fun si => 1 <= - k <= Z.of_nat (length (snd si))) rankings ->
       Binary64.reciprocal_rank_fusion rankings k = Raise ZeroDivisionError)
      /\ (~ Exists (fun si => 1 <= - k <= Z.of_nat (length (snd si)))
                   rankings ->
          exists out, Binary64.reciprocal_rank_fusion rankings k = Ok out))
  /\ (forall source item items rest,
        rankings = (source, item :: items) :: rest ->
        Float.of_int (k + 1) = Raise OverflowError ->
        Binary64.reciprocal_rank_fusion rankings k = Raise OverflowError).
Proof.
  split; [|split].
  - intros e H. unfold Binary64.reciprocal_rank_fusion in H.
    destruct (Binary64.rrf_sources k rankings (Binary64.mkRrfState [] []))
      as [e'|st] eqn:E.
    + cbn [rbind] in H. injection H as <-.
      exact (b64_rrf_sources_raises _ _ _ _ E).
    + destruct (b64_after_loops _ _ _ E) as [out Hout].
      unfold Binary64.reciprocal_rank_fusion in Hout.
      rewrite E in Hout. rewrite Hout in H. discriminate H.
  - intros Hlo Hhi.
    destruct (b64_rrf_sources_cases k rankings (Binary64.mkRrfState [] [])
                Hlo Hhi) as [[Hx E]|[Hx [st E]]].
    + split; [|intros H; contradiction].
      intros _. unfold Binary64.reciprocal_rank_fusion. now rewrite E.
    + split; [intros H; contradiction|].
      intros _. now apply (b64_after_loops _ _ st).
  - intros source [c sc] items rest -> Hov.
    unfold Binary64.reciprocal_rank_fusion.
    cbn [Binary64.rrf_sources Binary64.rrf_items].
    unfold Float.truediv_int. now rewrite Hov.
Qed.

Lemma reciprocal_rank_fusion_failure_witness :
  Binary64.reciprocal_rank_fusion [("dense", [("a", 1%Q); ("b", 1%Q)])] (-2)
  = Raise ZeroDivisionError
  /\ (exists out,
        Binary64.reciprocal_rank_fusion
          [("dense", [("a", 1%Q); ("b", 1%Q)])] (-3) = Ok out)
  /\ Binary64.reciprocal_rank_fusion
       [("dense", [("a", 1%Q); ("b", 1%Q)])] (2 ^ 1024)
     = Raise OverflowError.
Proof.
  destruct (reciprocal_rank_fusion_failure
              [("dense", [("a", 1%Q); ("b", 1%Q)])] (-2)) as (_ & H2 & _).
  destruct (reciprocal_rank_fusion_failure
              [("dense", [("a", 1%Q); ("b", 1%Q)])] (-3)) as (_ & H3 & _).
  destruct (reciprocal_rank_fusion_failure
              [("dense", [("a", 1%Q); ("b", 1%Q)])] (2 ^ 1024))
    as (_ & _ & Hov).
  split; [|split].
  - apply H2; [lia|repeat constructor; cbn [snd length]; lia|].
    apply Exists_cons_hd. simpl. lia.
  - apply H3; [lia|repeat constructor; cbn [snd length]; lia|].
    intros H. apply Exists_cons in H as [H|H]; [simpl in H; lia|inversion H].
  - apply (Hov "dense" ("a", 1%Q) [("b", 1%Q)] []); [reflexivity|].
    vm_compute. reflexivity.
Defined.

Lemma rrf_items_ids (k : Z) (source : string) (items1 : list (string * Q)) :
  forall items2 rank st,
    map fst items1 = map fst items2 ->
    rrf_items k source rank items1 st = rrf_items k source rank items2 st.
Proof.
  induction items1 as [|[c1 s1] items1 IH]; intros [|[c2 s2] items2] rank st H;
    try discriminate H; [reflexivity|].
  simpl in H. injection H as -> H. cbn [rrf_items].
  destruct (k + rank =? 0); [reflexivity|]. now apply IH.
Qed.

Lemma rrf_sources_ids (k : Z) (r1 : PyDict.t (list (string * Q))) :
  forall r2 st,
    map (fun si => (fst si, map fst (snd si))) r1
    = map (fun si => (fst si, map fst (snd si))) r2 ->
    rrf_sources k r1 st = rrf_sources k r2 st.
Proof.
  induction r1 as [|[src1 items1] r1 IH]; intros [|[src2 items2] r2] st H;
    try discriminate H; [reflexivity|].
  simpl in H. injection H as -> Hitems H. cbn [rrf_sources].
  rewrite (rrf_items_ids k src2 items1 items2 1 st Hitems).
  destruct (rrf_items k src2 1 items2 st) as [e|st1]; [reflexivity|].
  cbn [rbind]. now apply IH.
Qed.

(** X11: the scores of the input lists are never read.  Two maps with the
    same sources and the same chunk identifiers in the same order fuse to
    the same list, whatever scores they carry. *)
Theorem reciprocal_rank_fusion_ignores_scores
    (r1 r2 : PyDict.t (list (string * Q))) (k : Z) :
  map (fun si => (fst si, map fst (snd si))) r1
  = map (fun si => (fst si, map fst (snd si))) r2 ->
  reciprocal_rank_fusion r1 k = reciprocal_rank_fusion r2 k.
Proof.
  intros H. unfold reciprocal_rank_fusion.
  now rewrite (rrf_sources_ids k r1 r2 _ H).
Qed.

Lemma reciprocal_rank_fusion_ignores_scores_witness :
  reciprocal_rank_fusion
    [("dense", [("a", 9 # 10); ("b", 1 # 10)]); ("sparse", [("b", 7%Q)])] 60
  = reciprocal_rank_fusion
      [("dense", [("a", 0%Q); ("b", 5%Q)]); ("sparse", [("b", (-1)%Q)])] 60.
Proof.
  apply reciprocal_rank_fusion_ignores_scores. reflexivity.
Defined.

(** ** The hybrid retriever, further *)

Lemma slice_to_map {A B} (f : A -> B) (n : Z) (l : list A) :
  slice_to n (map f l) = map f (slice_to n l).
Proof.
  unfold slice_to. rewrite length_map.
  destruct (0 <=? n); apply firstn_map.
Qed.

Lemma slice_to_sublist {A} (n : Z) (l : list A) : slice_to n l `sublist_of` l.
Proof. unfold slice_to. destruct (0 <=? n); apply sublist_take. Qed.

Lemma slice_to_all {A} (n : Z) (l : list A) :
  Z.of_nat (length l) <= n -> slice_to n l = l.
Proof.
  intros H. unfold slice_to. destruct (Z.leb_spec 0 n) as [_|?]; [|lia].
  apply take_ge. lia.
Qed.

Lemma length_slice_to_le {A} (n : Z) (l : list A) :
  0 <= n -> (length (slice_to n l) <= Z.to_nat n)%nat.
Proof.
  intros H. unfold slice_to. destruct (Z.leb_spec 0 n) as [_|?]; [|lia].
  rewrite length_take. lia.
Qed.



Lemma fused_hit_ids d s fused :
  map hit_chunk_id (map (hit_of_item (enriched_of d s)) fused)
  = map fused_id fused.
Proof.
  rewrite map_map. apply map_ext. intros item. apply hit_chunk_id_of_item.
Qed.

Lemma get_enriched_elem_of d s c h :
  PyDict.get (enriched_of d s) c = Some h -> h ∈ d ++ s.
Proof.
  rewrite get_enriched. intros H. apply last_Some_elem_of in H.
  now apply list_elem_of_filter in H as [_ H].
Qed.

(** X12: the shape of what [retrieve] returns.  No chunk is returned twice;
    every returned hit is a hit of one of the two branches with its score
    replaced; the scores decrease; for [top_k >= 0] at most [top_k] hits
    are returned; and when [top_k] is at least the number of distinct
    chunks of the two branches, every one of them is returned. *)
Theorem retrieve_result_shape
    (model : option (list string -> list (list Q)))
    (dense_search : list Q -> Z -> list Hit) (corpus : list CorpusDoc)
    (bm25_get_scores : list (list string) -> list string -> list Q)
    (rrf_k : Z) (query : string) (top_k : Z) (dense_hits out : list Hit) :
  let sparse_hits := _sparse_retrieval corpus bm25_get_scores query (top_k * 4) in
  _dense_retrieval model dense_search query (top_k * 2) = Ok dense_hits ->
  retrieve model dense_search corpus bm25_get_scores rrf_k query top_k = Ok out ->
  NoDup (map hit_chunk_id out)
  /\ (forall h, h ∈ out ->
        exists b, b ∈ dense_hits ++ sparse_hits
                  /\ h = with_score b (hit_score h))
  /\ descending hit_score out
  /\ (0 <= top_k -> (length out <= Z.to_nat top_k)%nat)
  /\ (Z.of_nat (length (first_occurrences
                          (map hit_chunk_id (dense_hits ++ sparse_hits))))
      <= top_k ->
      forall c, c ∈ map hit_chunk_id (dense_hits ++ sparse_hits) ->
                c ∈ map hit_chunk_id out).
Proof.
  intros sparse_hits Hd Hr.
  pose proof (retrieve_descending _ _ _ _ _ _ _ _ Hr) as Hdesc.
  apply retrieve_inv in Hr as (d' & Hd' & Hf).
  rewrite Hd in Hd'. injection Hd' as <-. fold sparse_hits in Hf.
  apply fuse_hits_inv in Hf as (fused & Hrrf & ->).
  pose proof (fused_ids_Permutation _ _ _ Hrrf) as Hperm.
  rewrite all_ids_branch in Hperm.
  split; [|split; [|split; [exact Hdesc|split]]].
  - rewrite <- slice_to_map. eapply sublist_NoDup; [|apply slice_to_sublist].
    rewrite fused_hit_ids. apply (fused_ids_NoDup _ _ _ Hrrf).
  - intros h Hin. apply elem_of_slice_to in Hin.
    change (h ∈ hit_of_item (enriched_of dense_hits sparse_hits) <$> fused)
      in Hin.
    apply list_elem_of_fmap in Hin as (item & -> & Hin).
    assert (fused_id item ∈ map hit_chunk_id (dense_hits ++ sparse_hits))
      as Hid.
    { apply (proj1 (elem_of_first_occurrences _ _)). rewrite <- Hperm.
      change (fused_id item ∈ fused_id <$> fused).
      now apply list_elem_of_fmap_2. }
    destruct (get_enriched_is_Some _ _ _ Hid) as [b Hb].
    exists b. split; [apply (get_enriched_elem_of _ _ _ _ Hb)|].
    unfold hit_of_item, hit_or_blank. now rewrite Hb.
  - intros Hk. now apply length_slice_to_le.
  - intros Hk c Hc.
    rewrite slice_to_all.
    + rewrite fused_hit_ids, Hperm. now apply elem_of_first_occurrences.
    + rewrite length_map, <- (length_map fused_id), Hperm. exact Hk.
Qed.

Lemma retrieve_result_shape_witness :
  exists out,
    retrieve None tie_dense_search tie_corpus tie_bm25 60 "q" 8 = Ok out
    /\ NoDup (map hit_chunk_id out)
    /\ (length out <= 8)%nat
    /\ "y" ∈ map hit_chunk_id out.
Proof.
  destruct (retrieve None tie_dense_search tie_corpus tie_bm25 60 "q" 8)
    as [e|out] eqn:E; [vm_compute in E; discriminate E|].
  exists out. split; [reflexivity|].
  destruct (retrieve_result_shape None tie_dense_search tie_corpus tie_bm25
              60 "q" 8 (tie_dense_search [] 16) out eq_refl E)
    as (Hnd & _ & _ & Hlen & Hall).
  split; [exact Hnd|]. split; [apply Hlen; lia|].
  apply Hall; [vm_compute; discriminate|].
  apply (bool_decide_unpack _). vm_compute. exact I.
Defined.

Lemma b64_reciprocal_rank_fusion_ok rankings k :
  0 <= k ->
  Forall (fun si => k + Z.of_nat (length (snd si)) < 2 ^ 53) rankings ->
  exists out, Binary64.reciprocal_rank_fusion rankings k = Ok out.
Proof.
  intros Hk Hhi.
  destruct (b64_rrf_sources_cases k rankings (Binary64.mkRrfState [] [])
              ltac:(lia) Hhi) as [[Hx _]|[_ [st E]]].
  - exfalso. apply Exists_exists in Hx as (si & _ & Hsi). lia.
  - now apply (b64_after_loops _ _ st).
Qed.

(** X13: the outcomes of [retrieve], with a store and a scorer that may
    raise and the fusion in doubles.  [retrieve] raises [IndexError] when
    the embedder hands back no vector for the query; an exception of the
    dense search, of the corpus query or of the BM25 scorer (which is not
    consulted on an empty corpus) passes through unchanged; the fusion
    adds [ZeroDivisionError] and [OverflowError]; and when the fusion
    returns, [retrieve] returns: the lookups in [enriched] and
    [fused_map] never raise [KeyError], also when the branches repeat
    chunks.  With [0 <= rrf_k] and every [rrf_k + rank] below [2 ** 53]
    the fusion returns.  The fallback embedder always hands back a
    vector. *)
Theorem retrieve_errors
    (model : option (list string -> list (list Q)))
    (dense_search : list Q -> Z -> result (list Hit))
    (corpus : result (list CorpusDoc))
    (bm25_get_scores : list (list string) -> list string -> result (list Q))
    (rrf_k : Z) (query : string) (top_k : Z) :
  let run :=
    Binary64.retrieve model dense_search corpus bm25_get_scores rrf_k
                      query top_k in
  match embed model [query] with
  | [] => run = Raise IndexError
  | query_vec :: _ =>
      match dense_search query_vec (top_k * 2) with
      | inl e => run = Raise e
      | inr dense_hits =>
          match Binary64._sparse_retrieval corpus bm25_get_scores query
                                           (top_k * 4) with
          | inl e => run = Raise e
          | inr sparse_hits =>
              match Binary64.reciprocal_rank_fusion
                      (branch_rankings dense_hits sparse_hits) rrf_k with
              | inl e =>
                  run = Raise e
                  /\ (e = ZeroDivisionError \/ e = OverflowError)
              | inr _ => exists out, run = Ok out
              end
              /\ (0 <= rrf_k ->
                  rrf_k + Z.of_nat (length dense_hits) < 2 ^ 53 ->
                  rrf_k + Z.of_nat (length sparse_hits) < 2 ^ 53 ->
                  exists out, run = Ok out)
          end
      end
  end
  /\ match corpus with
     | inl e =>
         Binary64._sparse_retrieval corpus bm25_get_scores query (top_k * 4)
         = Raise e
     | inr [] =>
         Binary64._sparse_retrieval corpus bm25_get_scores query (top_k * 4)
         = Ok []
     | inr (doc :: docs) =>
         match bm25_get_scores (map doc_tokens (doc :: docs))
                               (tokenize query) with
         | inl e =>
             Binary64._sparse_retrieval corpus bm25_get_scores query
                                        (top_k * 4) = Raise e
         | inr _ =>
             exists hits,
               Binary64._sparse_retrieval corpus bm25_get_scores query
                                          (top_k * 4) = Ok hits
         end
     end
  /\ (model = None -> embed model [query] <> []).
Proof.
  intros run. subst run. split; [|split].
  - unfold Binary64.retrieve, Binary64._dense_retrieval.
    destruct (embed model [query]) as [|v vs]; [reflexivity|].
    destruct (dense_search v (top_k * 2)) as [e|d]; [reflexivity|].
    cbn [rbind].
    destruct (Binary64._sparse_retrieval corpus bm25_get_scores query
                (top_k * 4)) as [e|s]; [reflexivity|].
    cbn [rbind]. rewrite b64_fuse_hits.
    assert (forall fused,
              Binary64.reciprocal_rank_fusion (branch_rankings d s) rrf_k
              = Ok fused ->
              exists out,
                rbind (Binary64.reciprocal_rank_fusion (branch_rankings d s)
                                                       rrf_k)
                  (fun fused0 =>
                     Ok (slice_to top_k
                           (map (hit_of_item (enriched_of d s)) fused0)))
                = Ok out) as Hok.
    { intros fused ->. cbn [rbind Ok]. eauto. }
    split.
    + destruct (Binary64.reciprocal_rank_fusion (branch_rankings d s) rrf_k)
        as [e|fused] eqn:E.
      * split; [reflexivity|].
        unfold Binary64.reciprocal_rank_fusion in E.
        destruct (Binary64.rrf_sources rrf_k (branch_rankings d s) _)
          as [e'|st] eqn:E'.
        -- cbn [rbind] in E. injection E as <-.
           exact (b64_rrf_sources_raises _ _ _ _ E').
        -- destruct (b64_after_loops _ _ _ E') as [out Hout].
           unfold Binary64.reciprocal_rank_fusion in Hout.
           rewrite E' in Hout. rewrite Hout in E. discriminate E.
      * now apply (Hok fused).
    + intros Hk Hd Hs.
      destruct (b64_reciprocal_rank_fusion_ok (branch_rankings d s) rrf_k Hk)
        as [fused E].
      * unfold branch_rankings. repeat constructor; cbn [snd];
          rewrite length_map; assumption.
      * now apply (Hok fused).
  - unfold Binary64._sparse_retrieval.
    destruct corpus as [e|[|doc docs]]; [reflexivity|reflexivity|].
    cbn [rbind].
    destruct (bm25_get_scores (map doc_tokens (doc :: docs)) (tokenize query))
      as [e|scores]; [reflexivity|]. cbn [rbind]. eauto.
  - intros ->. discriminate.
Qed.

Lemma retrieve_errors_witness :
  Binary64.retrieve None (returning sample_dense_search)
                    (Ok [mkCorpusDoc "c1" "doc-1" "B" [] ∅])
                    bm25_no_terms 60 "b" 8
  = Raise ZeroDivisionError
  /\ exists out,
       Binary64.retrieve None (returning sample_dense_search)
                         (Ok sample_corpus) bm25_no_terms 60 "b" 8 = Ok out.
Proof.
  pose proof (retrieve_errors None (returning sample_dense_search)
                (Ok [mkCorpusDoc "c1" "doc-1" "B" [] ∅])
                bm25_no_terms 60 "b" 8) as (Hraise & _).
  pose proof (retrieve_errors None (returning sample_dense_search)
                (Ok sample_corpus) bm25_no_terms 60 "b" 8) as (Hok & _).
  split; [exact Hraise|].
  destruct Hok as [_ Hok]. apply Hok; [lia|vm_compute; reflexivity..].
Defined.

(** X14: the sparse branch.  An empty corpus gives no hit (BM25 is not
    consulted).  Otherwise every hit is built from a record of the corpus
    and its score, with level ["paragraph"] when the metadata has none; the
    hits come in decreasing score, no more of them than records, and for
    [top_k >= 0] no more than [top_k]. *)
Theorem sparse_retrieval_hits
    (corpus : list CorpusDoc)
    (bm25_get_scores : list (list string) -> list string -> list Q)
    (query : string) (top_k : Z) :
  let hits := _sparse_retrieval corpus bm25_get_scores query top_k in
  (corpus = [] -> hits = [])
  /\ (forall h, h ∈ hits ->
        exists doc,
          doc ∈ corpus
          /\ hit_chunk_id h = doc_chunk_id doc
          /\ hit_document_id h = doc_document_id doc
          /\ hit_content h = doc_content doc
          /\ hit_metadata h = doc_metadata doc
          /\ hit_level h = default "paragraph" (doc_metadata doc !! "level")
          /\ hit_score h
             ∈ bm25_get_scores (map doc_tokens corpus) (tokenize query))
  /\ descending hit_score hits
  /\ (length hits <= length corpus)%nat
  /\ (0 <= top_k -> (length hits <= Z.to_nat top_k)%nat).
Proof.
  intros hits. subst hits. unfold _sparse_retrieval.
  split; [intros ->; reflexivity|].
  destruct corpus as [|doc0 rest].
  { split; [intros h H; inversion H|].
    split; [constructor|]. split; [reflexivity|]. intros _. simpl. lia. }
  set (corpus := doc0 :: rest).
  set (scores := bm25_get_scores (map doc_tokens corpus) (tokenize query)).
  split; [|split; [|split]].
  - intros h Hin. apply elem_of_slice_to, elem_of_sorted_desc in Hin.
    change (h ∈ sparse_item <$> zip corpus scores) in Hin.
    apply list_elem_of_fmap in Hin as ([doc sc] & -> & Hin).
    exists doc. split; [apply (elem_of_zip_l _ _ _ _ Hin)|].
    repeat (split; [reflexivity|]). apply (elem_of_zip_r _ _ _ _ Hin).
  - apply descending_slice_to, sorted_desc_descending.
  - etransitivity; [apply sublist_length, slice_to_sublist|].
    rewrite length_sorted_desc, length_map, length_zip. lia.
  - intros Hk. now apply length_slice_to_le.
Qed.

Lemma sparse_retrieval_hits_witness :
  _sparse_retrieval [] sample_bm25 "b" 32 = []
  /\ (length (_sparse_retrieval tie_corpus tie_bm25 "q" 1) <= 1)%nat.
Proof.
  destruct (sparse_retrieval_hits [] sample_bm25 "b" 32) as (Hnil & _).
  destruct (sparse_retrieval_hits tie_corpus tie_bm25 "q" 1)
    as (_ & _ & _ & _ & Hlen).
  split; [apply Hnil; reflexivity|apply Hlen; lia].
Defined.

Lemma Qinv_le_pos (a b : Z) :
  0 < b -> b <= a -> (/ inject_Z a <= / inject_Z b)%Q.
Proof.
  intros Hb Hab. destruct a as [|pa|pa]; try lia. destruct b as [|pb|pb]; try lia.
  unfold Qle, Qinv, inject_Z. simpl. lia.
Qed.








(** ** The answer orchestrator, further *)

Lemma contains_append_l (s post sub : string) :
  PyStr.contains s sub -> PyStr.contains (s +:+ post) sub.
Proof.
  intros (a & b & ->). exists a, (b +:+ post). now rewrite !append_assoc.
Qed.

Lemma join_cons (sep x : string) (xs : list string) :
  xs <> [] -> PyStr.join sep (x :: xs) = x +:+ sep +:+ PyStr.join sep xs.
Proof. destruct xs; [contradiction|reflexivity]. Qed.

Lemma contains_join (sep sub : string) (l : list string) (x : string) :
  x ∈ l -> PyStr.contains x sub -> PyStr.contains (PyStr.join sep l) sub.
Proof.
  intros Hin Hx. induction l as [|y l IH]; [inversion Hin|].
  destruct l as [|z l].
  - apply list_elem_of_singleton in Hin as ->. exact Hx.
  - rewrite join_cons by discriminate.
    apply elem_of_cons in Hin as [->|Hin].
    + now apply contains_append_l.
    + do 2 apply contains_append_r. now apply IH.
Qed.

(** X16: the outcomes of [answer], for any retriever and any generation
    chain.  An exception of the retriever passes through unchanged.  When
    the retriever returns, [answer] returns too: it is grounded exactly
    when there is a hit, lists the hits as references only with the audit
    trail switched on, answers the fixed sentence without consulting the
    chain when there is no hit, and hands back the chain's text unchanged
    when the chain returns one. *)
Theorem answer_outcomes
    (retriever : string -> Z -> result (list Hit))
    (chain : option (string -> string -> result string))
    (format_4f : Q -> string) (question : string) (top_k : Z)
    (audit_trail : bool) :
  match retriever question top_k with
  | inl e =>
      answer retriever chain format_4f question top_k audit_trail = Raise e
  | inr hits =>
      exists text,
        answer retriever chain format_4f question top_k audit_trail
        = Ok (mkQueryResult text (if audit_trail then hits else [])
                            (bool_decide (hits <> [])))
        /\ (hits = [] -> text = "No relevant answer found.")
        /\ (forall invoke out,
              hits <> [] -> chain = Some invoke ->
              invoke question (_format_context format_4f hits) = Ok out ->
              text = out)
  end.
Proof.
  unfold answer. destruct (retriever question top_k) as [e|hits];
    [reflexivity|].
  cbn [rbind]. destruct hits as [|best rest].
  - exists "No relevant answer found.". split; [reflexivity|].
    split; [reflexivity|]. intros invoke out Hne. contradiction.
  - unfold _generate_answer.
    destruct chain as [invoke|].
    + destruct (invoke question (_format_context format_4f (best :: rest)))
        as [e|out] eqn:E.
      * eexists. split; [reflexivity|]. split; [discriminate|].
        intros invoke' out' _ [= <-]. rewrite E. discriminate.
      * exists out. split; [reflexivity|]. split; [discriminate|].
        intros invoke' out' _ [= <-]. rewrite E. now intros [= <-].
    + eexists. split; [reflexivity|]. split; [discriminate|].
      intros invoke out _. discriminate.
Qed.

Lemma answer_outcomes_witness :
  answer (fun _ _ => Ok []) None sample_format_4f "q" 8 true
  = Ok (mkQueryResult "No relevant answer found." [] false).
Proof.
  destruct (answer_outcomes (fun _ _ => Ok []) None sample_format_4f
              "q" 8 true) as (text & Heq & Hnil & _).
  rewrite Heq, (Hnil eq_refl). reflexivity.
Defined.

(** X17: the context handed to the chain.  No hit gives the empty string,
    one hit gives its block, and more hits give their blocks in order with
    an empty line between them; the block of every hit carries its chunk
    identifier in brackets and its content. *)
Theorem format_context_blocks (format_4f : Q -> string) (hits : list Hit) :
  _format_context format_4f [] = ""
  /\ (forall h, _format_context format_4f [h] = format_hit format_4f h)
  /\ (forall h rest,
        rest <> [] ->
        _format_context format_4f (h :: rest)
        = format_hit format_4f h +:+ PyStr.nl +:+ PyStr.nl
          +:+ _format_context format_4f rest)
  /\ (forall h, h ∈ hits ->
        PyStr.contains (_format_context format_4f hits)
                       ("[" +:+ hit_chunk_id h +:+ "]")
        /\ PyStr.contains (_format_context format_4f hits) (hit_content h)).
Proof.
  split; [reflexivity|]. split; [reflexivity|]. split.
  - intros h rest Hne. unfold _format_context. cbn [map].
    rewrite join_cons; [now rewrite append_assoc|].
    destruct rest; [contradiction|discriminate].
  - intros h Hin. unfold _format_context.
    assert (format_hit format_4f h ∈ map (format_hit format_4f) hits) as Hb.
    { change (format_hit format_4f h ∈ format_hit format_4f <$> hits).
      now apply list_elem_of_fmap_2. }
    split; apply (contains_join _ _ _ _ Hb); unfold format_hit.
    + exists "", (" doc=" +:+ hit_document_id h +:+ " level=" +:+ hit_level h
                  +:+ " score=" +:+ format_4f (hit_score h) +:+ PyStr.nl
                  +:+ hit_content h).
      rewrite !append_assoc. reflexivity.
    + do 9 apply contains_append_r. apply contains_end.
Qed.

Lemma format_context_blocks_witness :
  PyStr.contains
    (_format_context sample_format_4f
       [mkHit "c1" "doc-1" "A" "paragraph" ∅ 1;
        mkHit "c2" "doc-1" "B" "paragraph" ∅ 1])
    "[c2]".
Proof.
  destruct (format_context_blocks sample_format_4f
              [mkHit "c1" "doc-1" "A" "paragraph" ∅ 1;
               mkHit "c2" "doc-1" "B" "paragraph" ∅ 1]) as (_ & _ & _ & H).
  apply (H (mkHit "c2" "doc-1" "B" "paragraph" ∅ 1)).
  apply list_elem_of_further, list_elem_of_here.
Defined.

(** ** Ingestion, further *)

(** The payloads of one ingestion, whether or not the metadata names the
    document. *)
Lemma ingest_payloads_general (uuid4 : nat -> string)
    (model : option (list string -> list (list Q)))
    (parse : list Z -> string -> string * list ExtractedTable)
    (document_bytes : list Z) (filename : string)
    (md : gmap string string) (n : nat) :
  exists d n0 cs,
    resolve_document_id uuid4 md n = (d, n0)
    /\ ingest_payloads uuid4 model parse document_bytes filename md n
       = ((d, snd (parse document_bytes filename),
           map to_payload (zip cs (embed model (map content cs)))),
          (n0 + length cs)%nat)
    /\ map chunk_id cs = map uuid4 (seq n0 (length cs))
    /\ map shape cs =
       all_shapes d filename (fst (parse document_bytes filename))
                  (snd (parse document_bytes filename))
                  (<["document_id" := d]> md).
Proof.
  unfold ingest_payloads. rewrite gbind_eq.
  destruct (resolve_document_id uuid4 md n) as [d n0].
  destruct (parse document_bytes filename) as [text tables]. simpl.
  destruct (emits_document_chunks uuid4 d filename text tables
              (<["document_id" := d]> md) n0) as (cs & E & Hids & Hsh).
  rewrite gbind_eq, E. unfold gret. exists d, n0, cs.
  repeat split; assumption.
Qed.

Lemma all_shapes_document (doc filename text : string)
    (tables : list ExtractedTable) (base : gmap string string)
    (sh : string * string * string * gmap string string) :
  sh ∈ all_shapes doc filename text tables base ->
  fst (fst (fst sh)) = doc
  /\ snd sh !! "document_id" = base !! "document_id".
Proof.
  unfold all_shapes, document_shapes. intros H.
  apply elem_of_app in H as [H|H].
  - destruct (negb _); [inversion H|].
    apply elem_of_cons in H as [->|H]; [split; reflexivity|].
    apply list_elem_of_In, in_concat in H as (l & Hl & Hsh).
    apply list_elem_of_In in Hl, Hsh.
    change (l ∈ section_shapes doc base <$> _split_sections text) in Hl.
    apply list_elem_of_fmap in Hl as (sec & -> & _).
    unfold section_shapes in Hsh.
    apply elem_of_cons in Hsh as [->|Hsh]; [split; reflexivity|].
    change (sh ∈ (fun p => (doc, "paragraph", p, base))
                 <$> stripped_lines (snd sec)) in Hsh.
    apply list_elem_of_fmap in Hsh as (p & -> & _). split; reflexivity.
  - change (sh ∈ table_shape doc filename base
               <$> filter (fun t => PyStr.nonempty (csv t) = true) tables)
      in H.
    apply list_elem_of_fmap in H as (t & -> & _).
    split; [reflexivity|]. unfold table_shape. cbn [snd].
    now rewrite !lookup_insert_ne by discriminate.
Qed.

(** X18: the document identifier of an ingestion.  A non-empty
    [metadata["document_id"]] is taken as it is; a missing or empty one is
    replaced by the first UUID drawn.  Every payload handed to the store
    carries that identifier, as its [document_id] and under the key
    ["document_id"] of its metadata, and its level under the key
    ["level"], whatever the caller's metadata held under these keys. *)
Theorem ingest_payloads_document_id (uuid4 : nat -> string)
    (model : option (list string -> list (list Q)))
    (parse : list Z -> string -> string * list ExtractedTable)
    (document_bytes : list Z) (filename : string)
    (md : gmap string string) (n : nat) :
  let '(doc, tables, payloads, _) :=
    ingest_payloads uuid4 model parse document_bytes filename md n in
  (forall d, md !! "document_id" = Some d -> PyStr.nonempty d = true ->
             doc = d)
  /\ (md !! "document_id" = None \/ md !! "document_id" = Some "" ->
      doc = uuid4 n)
  /\ tables = snd (parse document_bytes filename)
  /\ Forall (fun p => p_document_id p = doc
                      /\ p_metadata p !! "document_id" = Some doc
                      /\ p_metadata p !! "level" = Some (p_level p))
            payloads.
Proof.
  destruct (ingest_payloads_general uuid4 model parse document_bytes filename
              md n) as (d & n0 & cs & Hres & -> & _ & Hsh).
  split; [|split; [|split; [reflexivity|]]].
  - intros d' Hd Hne. unfold resolve_document_id in Hres.
    rewrite Hd, Hne in Hres. now injection Hres as <- _.
  - intros [Hd|Hd]; unfold resolve_document_id in Hres; rewrite Hd in Hres;
      now injection Hres as <- _.
  - apply Forall_forall. intros p Hp.
    change (p ∈ to_payload <$> zip cs (embed model (map content cs))) in Hp.
    apply list_elem_of_fmap in Hp as ([c v] & -> & Hcv).
    apply elem_of_zip_l in Hcv.
    assert (shape c ∈ all_shapes d filename (fst (parse document_bytes filename))
                       (snd (parse document_bytes filename))
                       (<["document_id" := d]> md)) as Hc.
    { rewrite <- Hsh. change (shape c ∈ shape <$> cs).
      now apply list_elem_of_fmap_2. }
    apply all_shapes_document in Hc as [Hdoc Hmd].
    unfold to_payload, payload_of.
    cbn [fst snd p_document_id p_metadata p_level shape] in *.
    split; [exact Hdoc|]. split.
    + rewrite lookup_insert_ne by discriminate.
      rewrite Hmd. apply lookup_insert_eq.
    + apply lookup_insert_eq.
Qed.

Lemma ingest_payloads_document_id_witness :
  fst (fst (fst (ingest_payloads numbered_uuid4 None title_only_parse []
                   "a.txt" {["document_id" := ""]} 0%nat))) = "uuid-0".
Proof.
  pose proof (ingest_payloads_document_id numbered_uuid4 None title_only_parse
                [] "a.txt" {["document_id" := ""]} 0%nat) as H.
  destruct (ingest_payloads numbered_uuid4 None title_only_parse []
              "a.txt" {["document_id" := ""]} 0%nat) as [[[doc tables] ps] n'].
  destruct H as (_ & Hfresh & _). cbn [fst].
  rewrite Hfresh; [reflexivity|]. right. reflexivity.
Defined.

(** X19: [ingest] is all or nothing for the table.  When it raises, the
    table is the one before the call, although the UUIDs are drawn.  When
    it returns, the report counts the payloads as [chunks] and all the
    tables the parser found as [tables] (those without CSV text, which
    give no chunk, included), names the document, and every payload is a
    row of the table.  With the fallback embedder there is one payload per
    chunk. *)
Theorem ingest_all_or_nothing (uuid4 : nat -> string)
    (model : option (list string -> list (list Q)))
    (parse : list Z -> string -> string * list ExtractedTable)
    (embedding_dim : Z) (utcnow : nat -> Z) (fault : nat -> bool)
    (commit_fault : bool) (document_bytes : list Z) (filename : string)
    (md : gmap string string) (n : nat) (db : Table) :
  let '(doc, tables, payloads, n1) :=
    ingest_payloads uuid4 model parse document_bytes filename md n in
  let '(r, n', db') :=
    ingest uuid4 model parse embedding_dim utcnow fault commit_fault
           document_bytes filename md n db in
  n' = n1
  /\ (forall e, r = Raise e -> db' = db)
  /\ (forall rep, r = Ok rep ->
        rep = mkIngestReport (Z.of_nat (length payloads))
                (Z.of_nat (length (snd (parse document_bytes filename)))) doc
        /\ forall p, p ∈ payloads -> is_Some (db' !! p_chunk_id p))
  /\ (model = None ->
      length payloads
      = length (all_shapes doc filename (fst (parse document_bytes filename))
                  (snd (parse document_bytes filename))
                  (<["document_id" := doc]> md))).
Proof.
  unfold ingest.
  destruct (ingest_payloads_general uuid4 model parse document_bytes filename
              md n) as (d & n0 & cs & _ & -> & _ & Hsh).
  set (payloads := map to_payload (zip cs (embed model (map content cs)))).
  destruct (upsert_chunks embedding_dim utcnow fault commit_fault db payloads)
    as [db' stored] eqn:E.
  split; [reflexivity|]. split; [|split].
  - intros e Hr.
    destruct (upsert_chunks_cases embedding_dim utcnow fault commit_fault db
                payloads) as [(_ & e' & E')|(_ & _ & E')];
      rewrite E' in E; injection E as <- <-; [reflexivity|discriminate Hr].
  - intros rep Hr. destruct stored as [e|k]; [discriminate Hr|].
    injection Hr as <-.
    pose proof (upsert_chunks_Ok _ _ _ _ _ _ _ _ E) as [_ ->].
    split; [reflexivity|]. intros p Hp.
    apply (upsert_chunks_stores _ _ _ _ _ _ _ _ _ E).
    change (p_chunk_id p ∈ p_chunk_id <$> payloads).
    now apply list_elem_of_fmap_2.
  - intros ->. unfold payloads, embed.
    rewrite length_map, length_zip, !length_map, Nat.min_id.
    now rewrite <- Hsh, length_map.
Qed.

Lemma ingest_all_or_nothing_witness :
  snd (ingest numbered_uuid4 None title_only_parse 3 clock_200 no_fault false
         [] "a.txt" ∅ 0%nat {["c1" := stored_row]})
  = {["c1" := stored_row]}.
Proof.
  pose proof (ingest_all_or_nothing numbered_uuid4 None title_only_parse 3
                clock_200 no_fault false [] "a.txt" ∅ 0%nat
                {["c1" := stored_row]}) as H.
  destruct (ingest_payloads numbered_uuid4 None title_only_parse [] "a.txt"
              ∅ 0%nat) as [[[doc tables] ps] n1].
  destruct (ingest numbered_uuid4 None title_only_parse 3 clock_200 no_fault
              false [] "a.txt" ∅ 0%nat {["c1" := stored_row]})
    as [[r n'] db'] eqn:E.
  destruct H as (_ & Hraise & _). cbn [snd].
  destruct r as [e|rep]; [now apply (Hraise e)|].
  exfalso. clear -E. vm_compute in E. discriminate E.
Defined.

(** X20: a document without text and without table CSV.  When the parser
    finds only whitespace and no table with CSV text, [ingest] stores
    nothing and reports zero chunks.  It does so without opening a session,
    so it returns even when every statement and the commit would fail; at
    most one UUID is drawn, for the document identifier. *)
Theorem ingest_blank_document (uuid4 : nat -> string)
    (model : option (list string -> list (list Q)))
    (parse : list Z -> string -> string * list ExtractedTable)
    (embedding_dim : Z) (utcnow : nat -> Z) (fault : nat -> bool)
    (commit_fault : bool) (document_bytes : list Z) (filename : string)
    (md : gmap string string) (n : nat) (db : Table) :
  all_chars PyStr.isspace (fst (parse document_bytes filename)) = true ->
  Forall (fun t => csv t = "") (snd (parse document_bytes filename)) ->
  exists doc n',
    ingest uuid4 model parse embedding_dim utcnow fault commit_fault
           document_bytes filename md n db
    = (Ok (mkIngestReport 0
             (Z.of_nat (length (snd (parse document_bytes filename)))) doc),
       n', db)
    /\ (n <= n' <= S n)%nat.
Proof.
  intros Hblank Hcsv. unfold ingest.
  destruct (ingest_payloads_general uuid4 model parse document_bytes filename
              md n) as (d & n0 & cs & Hres & -> & _ & Hsh).
  assert (cs = []) as ->.
  { apply (f_equal length) in Hsh. rewrite length_map in Hsh.
    unfold all_shapes, document_shapes in Hsh.
    rewrite strip_blank, Hblank in Hsh. cbn [negb app] in Hsh.
    rewrite length_map in Hsh.
    assert (filter (fun t => PyStr.nonempty (csv t) = true)
                   (snd (parse document_bytes filename)) = []) as Hf.
    { clear -Hcsv. induction Hcsv as [|t l Ht _ IH]; [reflexivity|].
      rewrite filter_cons, Ht. cbn [PyStr.nonempty].
      destruct (decide (false = true)); [discriminate|exact IH]. }
    rewrite Hf in Hsh. now destruct cs. }
  exists d, n0. cbn [zip map length upsert_chunks rbind Ok].
  rewrite Nat.add_0_r. split; [reflexivity|].
  unfold resolve_document_id in Hres.
  destruct (md !! "document_id") as [d0|];
    [destruct (PyStr.nonempty d0)|]; injection Hres as _ <-; lia.
Qed.

Lemma ingest_blank_document_witness :
  exists doc n',
    ingest numbered_uuid4 None (fun _ _ => (" ", [mkExtractedTable "t" "T" ""]))
           3 clock_200 (fun _ => true) true [] "a.txt" ∅ 0%nat
           {["c1" := stored_row]}
    = (Ok (mkIngestReport 0 1 doc), n', {["c1" := stored_row]}).
Proof.
  destruct (ingest_blank_document numbered_uuid4 None
              (fun _ _ => (" ", [mkExtractedTable "t" "T" ""]))
              3 clock_200 (fun _ => true) true [] "a.txt" ∅ 0%nat
              {["c1" := stored_row]}) as (doc & n' & H & _).
  - reflexivity.
  - repeat constructor.
  - exists doc, n'. exact H.
Defined.

(** ** The evaluation service *)

Lemma cites_truth_incl (sample : EvaluationSample) (w1 w2 : list string) :
  (forall c, c ∈ w1 -> c ∈ w2) ->
  cites_truth sample w1 = true -> cites_truth sample w2 = true.
Proof.
  unfold cites_truth. intros Hincl H.
  apply existsb_exists in H as (c & Hc & Hin).
  apply existsb_exists. exists c. split; [|exact Hin].
  apply list_elem_of_In, Hincl, list_elem_of_In, Hc.
Qed.

Lemma count_hits_le (k1 k2 : Z) (samples : list EvaluationSample) :
  (forall (l : list string) c, c ∈ slice_to k1 l -> c ∈ slice_to k2 l) ->
  count_hits k1 samples <= count_hits k2 samples.
Proof.
  intros Hincl. induction samples as [|s rest IH]; [reflexivity|].
  cbn [count_hits].
  destruct (cites_truth s (slice_to k1 (es_citations s))) eqn:E.
  - rewrite (cites_truth_incl s _ _ (Hincl (es_citations s)) E). lia.
  - destruct (cites_truth s (slice_to k2 (es_citations s))); lia.
Qed.

Lemma count_hits_grounded (k : Z) (samples : list EvaluationSample) :
  0 <= count_hits k samples <= count_grounded samples.
Proof.
  induction samples as [|s rest IH]; [simpl; lia|].
  cbn [count_hits count_grounded].
  destruct (cites_truth s (slice_to k (es_citations s))) eqn:E.
  - rewrite (cites_truth_incl s _ (es_citations s)
               (fun c => elem_of_slice_to c k _) E). lia.
  - destruct (cites_truth s (es_citations s)); lia.
Qed.

Lemma count_grounded_length (samples : list EvaluationSample) :
  count_grounded samples <= Z.of_nat (length samples).
Proof.
  induction samples as [|s rest IH]; [simpl; lia|].
  cbn [count_grounded length]. destruct (cites_truth s (es_citations s)); lia.
Qed.

Lemma elem_of_slice_to_mono {A} (k1 k2 : Z) (l : list A) (x : A) :
  0 <= k1 <= k2 -> x ∈ slice_to k1 l -> x ∈ slice_to k2 l.
Proof.
  intros Hk. unfold slice_to.
  destruct (Z.leb_spec 0 k1) as [_|?]; [|lia].
  destruct (Z.leb_spec 0 k2) as [_|?]; [|lia].
  intros H. apply list_elem_of_lookup in H as [i Hi].
  apply lookup_take_Some in Hi as [Hi Hlt].
  apply list_elem_of_lookup. exists i. apply lookup_take_Some. split; [exact Hi|lia].
Qed.

Lemma true_div_le (a b n : Z) :
  0 < n -> a <= b ->
  exists qa qb,
    true_div a n = inr qa /\ true_div b n = inr qb /\ (qa <= qb)%Q.
Proof.
  intros Hn Hab. unfold true_div.
  destruct (Z.eqb_spec n 0) as [?|_]; [lia|].
  do 2 eexists. split; [reflexivity|]. split; [reflexivity|].
  unfold Qdiv. apply Qmult_le_compat_r; [now rewrite <- Zle_Qle|].
  apply Qinv_le_0_compat. change 0%Q with (inject_Z 0).
  rewrite <- Zle_Qle. lia.
Qed.

Lemma true_div_unit (a n : Z) (q : Q) :
  0 <= a <= n -> true_div a n = inr q -> (0 <= q <= 1)%Q.
Proof.
  intros Ha. unfold true_div. destruct (Z.eqb_spec n 0) as [?|Hn];
    [discriminate|]. intros [= <-]. split.
  - unfold Qdiv. apply Qmult_le_0_compat.
    + change 0%Q with (inject_Z 0). rewrite <- Zle_Qle. lia.
    + apply Qinv_le_0_compat. change 0%Q with (inject_Z 0).
      rewrite <- Zle_Qle. lia.
  - apply Qle_shift_div_r.
    + change 0%Q with (inject_Z 0). rewrite <- Zlt_Qlt. lia.
    + rewrite Qmult_1_l. rewrite <- Zle_Qle. lia.
Qed.

(** X21: the two metrics computed by the service itself.  On an empty list
    both divide by zero.  On a non-empty list both are fractions between 0
    and 1, the recall is at most the groundedness for every [k], it grows
    with [k] over the non-negative [k], and it is the groundedness as soon
    as [k] is at least the number of citations of every sample. *)
Theorem recall_at_k_groundedness (samples : list EvaluationSample) (k : Z) :
  (samples = [] ->
   _groundedness samples = inl EvalZeroDivisionError
   /\ _recall_at_k samples k = inl EvalZeroDivisionError)
  /\ (samples <> [] ->
      exists g r,
        _groundedness samples = inr g
        /\ _recall_at_k samples k = inr r
        /\ (0 <= r)%Q /\ (r <= g)%Q /\ (g <= 1)%Q
        /\ (forall k', 0 <= k <= k' ->
              exists r', _recall_at_k samples k' = inr r' /\ (r <= r')%Q)
        /\ (Forall (fun s => Z.of_nat (length (es_citations s)) <= k) samples ->
            r = g)).
Proof.
  split; [intros ->; split; reflexivity|].
  intros Hne.
  assert (0 < Z.of_nat (length samples)) as Hlen
    by (destruct samples; [contradiction|cbn [length]; lia]).
  pose proof (count_hits_grounded k samples) as Hhg.
  pose proof (count_grounded_length samples) as Hgl.
  assert (0 <= count_hits k samples <= Z.of_nat (length samples)) as Hh1
    by lia.
  assert (0 <= count_grounded samples <= Z.of_nat (length samples)) as Hg1
    by lia.
  destruct (true_div_le _ _ _ Hlen (proj2 Hhg)) as (r & g & Hr & Hg & Hrg).
  exists g, r. unfold _groundedness, _recall_at_k.
  split; [exact Hg|]. split; [exact Hr|].
  split; [apply (true_div_unit _ _ _ Hh1 Hr)|].
  split; [exact Hrg|].
  split; [apply (true_div_unit _ _ _ Hg1 Hg)|].
  split.
  - intros k' Hk.
    assert (count_hits k samples <= count_hits k' samples) as Hmono.
    { apply count_hits_le. intros l c. now apply elem_of_slice_to_mono. }
    destruct (true_div_le _ _ _ Hlen Hmono) as (q & r' & Hq & Hr' & Hle).
    exists r'. split; [exact Hr'|].
    rewrite Hr in Hq. now injection Hq as <-.
  - intros Hall.
    assert (count_hits k samples = count_grounded samples) as Heq.
    { clear -Hall. induction Hall as [|s rest Hs _ IH]; [reflexivity|].
      cbn [count_hits count_grounded].
      now rewrite (slice_to_all k _ Hs), IH. }
    rewrite Heq, Hg in Hr. now injection Hr.
Qed.

Lemma recall_at_k_groundedness_witness :
  exists g r,
    _groundedness [mkEvaluationSample "q" "a" "Paris" ["Rome"; "in PARIS"]]
    = inr g
    /\ _recall_at_k [mkEvaluationSample "q" "a" "Paris" ["Rome"; "in PARIS"]] 1
       = inr r
    /\ (r <= g)%Q.
Proof.
  destruct (recall_at_k_groundedness
              [mkEvaluationSample "q" "a" "Paris" ["Rome"; "in PARIS"]] 1)
    as [_ H].
  destruct H as (g & r & Hg & Hr & _ & Hle & _); [discriminate|].
  exists g, r. split; [exact Hg|]. split; [exact Hr|exact Hle].
Defined.

(** X22: the outcomes of [run].  An empty list is refused with
    [ValueError] before anything else; without ragas a non-empty list is
    refused with [RuntimeError]; an exception of ragas passes through; and
    when ragas returns its two metrics, [run] returns: the division of the
    two local metrics cannot fail there.  The response counts the samples,
    carries the metrics of ragas unchanged, and its recall is at most its
    groundedness, both between 0 and 1. *)
Theorem run_outcomes
    (ragas : option (list EvaluationSample -> eval_exn + (Q * Q)))
    (top_k now : Z) (samples : list EvaluationSample) :
  (samples = [] ->
   run ragas top_k now samples
   = inl (ValueError "No evaluation samples provided"))
  /\ (samples <> [] -> ragas = None ->
      run ragas top_k now samples
      = inl (RuntimeError "ragas and datasets must be installed to evaluate"))
  /\ (forall evaluate e,
        samples <> [] -> ragas = Some evaluate -> evaluate samples = inl e ->
        run ragas top_k now samples = inl e)
  /\ (forall evaluate f a,
        samples <> [] -> ragas = Some evaluate ->
        evaluate samples = inr (f, a) ->
        exists g r,
          run ragas top_k now samples
          = inr (mkEvaluationResponse (Z.of_nat (length samples))
                   (mkEvaluationMetrics f a g r) now)
          /\ (0 <= r)%Q /\ (r <= g)%Q /\ (g <= 1)%Q).
Proof.
  split; [intros ->; reflexivity|].
  split; [intros Hne ->; destruct samples; [contradiction|reflexivity]|].
  split.
  - intros evaluate e Hne -> He. unfold run.
    destruct samples; [contradiction|]. now rewrite He.
  - intros evaluate f a Hne -> He.
    assert (0 < Z.of_nat (length samples)) as Hlen
      by (destruct samples; [contradiction|cbn [length]; lia]).
    pose proof (count_hits_grounded top_k samples) as Hhg.
    pose proof (count_grounded_length samples) as Hgl.
    assert (0 <= count_hits top_k samples <= Z.of_nat (length samples)) as Hh1
      by lia.
    assert (0 <= count_grounded samples <= Z.of_nat (length samples)) as Hg1
      by lia.
    destruct (true_div_le _ _ _ Hlen (proj2 Hhg)) as (r & g & Hr & Hg & Hrg).
    exists g, r. split.
    + unfold run. destruct samples as [|s rest]; [contradiction|].
      rewrite He. unfold _groundedness, _recall_at_k. now rewrite Hg, Hr.
    + split; [apply (true_div_unit _ _ _ Hh1 Hr)|].
      split; [exact Hrg|].
      apply (true_div_unit _ _ _ Hg1 Hg).
Qed.

Lemma run_outcomes_witness :
  run None 5 0 [] = inl (ValueError "No evaluation samples provided")
  /\ run None 5 0 [mkEvaluationSample "q" "a" "t" []]
     = inl (RuntimeError "ragas and datasets must be installed to evaluate").
Proof.
  destruct (run_outcomes None 5 0 []) as (Hempty & _).
  destruct (run_outcomes None 5 0 [mkEvaluationSample "q" "a" "t" []])
    as (_ & Hnone & _).
  split; [apply Hempty; reflexivity|apply Hnone; [discriminate|reflexivity]].
Defined.

(** ** The chunker's tokenizer *)

Lemma is_word_not_space (c : ascii) :
  HierarchicalChunker.is_word c = true -> PyStr.isspace c = false.
Proof. destruct c as [[] [] [] [] [] [] [] []]; vm_compute; congruence. Qed.

Lemma all_chars_impl (p q : ascii -> bool) (s : string) :
  (forall c, p c = true -> q c = true) ->
  all_chars p s = true -> all_chars q s = true.
Proof.
  intros Hpq. induction s as [|c s IH]; [reflexivity|].
  simpl. intros H. apply andb_prop in H as [Hc Hs].
  now rewrite (Hpq c Hc), (IH Hs).
Qed.

Lemma findall_word_runs (text : string) :
  Forall (fun run => PyStr.nonempty run = true
                     /\ all_chars HierarchicalChunker.is_word run = true)
         (HierarchicalChunker.findall_word text).
Proof.
  apply Forall_forall. intros f Hf.
  unfold HierarchicalChunker.findall_word in Hf.
  apply list_elem_of_filter in Hf as [Hne Hin].
  pose proof (PyStrFacts.fields_no_sep
                (fun c => negb (HierarchicalChunker.is_word c)) text) as HF.
  rewrite Forall_forall in HF. specialize (HF f Hin).
  split; [exact Hne|]. revert HF. apply all_chars_impl. intros c Hc.
  now apply negb_true_iff, negb_false_iff in Hc.
Qed.

(** X23: [HierarchicalChunker.tokenize] gives one token list per text, in
    order: the lower-case forms of the runs that [\w+] finds in the text,
    each run non-empty and made of word characters only (no white space,
    no punctuation).  Every token is non-empty, free of white space and
    unchanged by [lower]; a text that is a single run of word characters
    gives one token, its lower-case form. *)
Theorem chunker_tokenize_tokens (texts : list string) :
  length (HierarchicalChunker.tokenize texts) = length texts
  /\ (forall i text,
        texts !! i = Some text ->
        HierarchicalChunker.tokenize texts !! i
        = Some (map PyStr.lower (HierarchicalChunker.findall_word text))
        /\ Forall (fun run =>
                     PyStr.nonempty run = true
                     /\ all_chars HierarchicalChunker.is_word run = true)
                  (HierarchicalChunker.findall_word text))
  /\ Forall (Forall (fun token =>
                       PyStr.nonempty token = true
                       /\ no_space token
                       /\ PyStr.lower token = token))
            (HierarchicalChunker.tokenize texts)
  /\ (forall i text,
        texts !! i = Some text ->
        PyStr.nonempty text = true ->
        all_chars HierarchicalChunker.is_word text = true ->
        HierarchicalChunker.tokenize texts !! i = Some [PyStr.lower text]).
Proof.
  unfold HierarchicalChunker.tokenize.
  split; [apply length_map|]. split; [|split].
  - intros i text Hi. split; [|apply findall_word_runs].
    change (map ?f ?l) with (f <$> l) at 1.
    now rewrite list_lookup_fmap, Hi.
  - apply Forall_forall. intros toks Htoks.
    change (toks ∈ (fun text => map PyStr.lower
                                    (HierarchicalChunker.findall_word text))
                   <$> texts) in Htoks.
    apply list_elem_of_fmap in Htoks as (text & -> & _).
    apply Forall_forall. intros token Htoken.
    change (token ∈ PyStr.lower <$> HierarchicalChunker.findall_word text)
      in Htoken.
    apply list_elem_of_fmap in Htoken as (f & -> & Hf).
    pose proof (findall_word_runs text) as Hruns.
    rewrite Forall_forall in Hruns. destruct (Hruns f Hf) as [Hne Hw].
    split; [now rewrite lower_nonempty|].
    split; [|apply lower_idempotent].
    apply lower_no_space. revert Hw. apply all_chars_impl.
    intros c Hc. now rewrite (is_word_not_space c Hc).
  - intros i text Hi Hne Hw.
    change (map ?f ?l) with (f <$> l). rewrite list_lookup_fmap, Hi.
    cbn [fmap option_fmap option_map]. f_equal.
    unfold HierarchicalChunker.findall_word.
    rewrite fields_no_sep_id.
    + rewrite filter_cons, Hne.
      destruct (decide (true = true)) as [_|?]; [reflexivity|congruence].
    + revert Hw. apply all_chars_impl. intros c Hc.
      now rewrite Hc.
Qed.

Lemma chunker_tokenize_tokens_witness :
  HierarchicalChunker.tokenize ["Hello, World!"; "Section_1"] !! 1%nat
  = Some ["section_1"].
Proof.
  destruct (chunker_tokenize_tokens ["Hello, World!"; "Section_1"])
    as (_ & _ & _ & H).
  apply (H 1%nat "Section_1"); reflexivity.
Defined.

(** ** The chunker: no line is lost *)

Lemma stripped_lines_clean_id (x : string) :
  clean_line x -> stripped_lines x = [x].
Proof.
  intros (Hne & Hstrip & Hnl). unfold stripped_lines, PyStr.split_lines.
  rewrite (fields_no_sep_id PyStr.is_nl x Hnl).
  rewrite filter_cons, Hstrip, Hne.
  destruct (decide (true = true)) as [_|?]; [|congruence].
  cbn [map filter]. now rewrite Hstrip.
Qed.

Lemma stripped_lines_app (a b : string) :
  stripped_lines (a +:+ String PyStr.LF b)
  = stripped_lines a ++ stripped_lines b.
Proof.
  unfold stripped_lines, PyStr.split_lines.
  rewrite (fields_app_sep PyStr.is_nl a b PyStr.LF eq_refl).
  now rewrite filter_app, map_app.
Qed.

(** The body that [_extract_heading] joins is split by [_split_paragraphs]
    into the same lines. *)
Lemma stripped_lines_join (l : list string) :
  Forall clean_line l -> stripped_lines (PyStr.join PyStr.nl l) = l.
Proof.
  induction 1 as [|x l Hx Hl IH]; [reflexivity|].
  destruct l as [|y l].
  - now apply stripped_lines_clean_id.
  - change (PyStr.join PyStr.nl (x :: y :: l))
      with (x +:+ String PyStr.LF (PyStr.join PyStr.nl (y :: l))).
    now rewrite stripped_lines_app, IH, (stripped_lines_clean_id x Hx).
Qed.

Lemma section_shapes_lines (doc : string) (md : gmap string string)
    (segment : string) :
  map (fun sh => snd (fst sh)) (section_shapes doc md (_extract_heading segment))
  = match stripped_lines segment with
    | [] => ["Untitled Section"]
    | ls => ls
    end.
Proof.
  unfold section_shapes, _extract_heading.
  pose proof (stripped_lines_clean segment) as Hclean.
  destruct (stripped_lines segment) as [|h rest]; [reflexivity|].
  apply Forall_cons in Hclean as [(_ & Hh & _) Hrest].
  cbn [fst snd map]. rewrite Hh, map_map. cbn [fst snd]. rewrite map_id.
  f_equal. destruct rest as [|r rest]; [reflexivity|].
  replace (1 <? Z.of_nat (length (h :: r :: rest))) with true
    by (symmetry; apply Z.ltb_lt; cbn [length]; lia).
  now apply stripped_lines_join.
Qed.

(** X24: chunking loses no line.  The chunks of a non-blank text are the
    title chunk and then, segment after segment, one chunk per non-blank
    line of the segment with the stripped line as content, in the order of
    the text (the first of them is the section, the others its
    paragraphs); a segment without a non-blank line gives the single
    section ["Untitled Section"]. *)
Theorem chunk_document_lines (uuid4 : nat -> string) (doc text : string)
    (md : gmap string string) (n : nat) :
  all_chars PyStr.isspace text = false ->
  map content (fst (chunk_document uuid4 doc text md n))
  = PyStr.strip (default (PyStr.take 80 text) (md !! "title"))
    :: concat (map (fun segment =>
                      match stripped_lines segment with
                      | [] => ["Untitled Section"]
                      | ls => ls
                      end)
                   (PyStr.re_split_blank text)).
Proof.
  intros Hb.
  destruct (emits_chunk_document uuid4 doc text md n) as (cs & E & _ & Hsh).
  rewrite E. cbn [fst]. rewrite map_content_shape, Hsh.
  unfold document_shapes. rewrite strip_blank, Hb. cbn [negb map fst snd].
  f_equal. rewrite concat_map, map_map. unfold _split_sections.
  rewrite map_map. f_equal. apply map_ext. intros segment.
  apply section_shapes_lines.
Qed.

Lemma chunk_document_lines_witness :
  map content (fst (chunk_document numbered_uuid4 "doc-1" sample_text ∅ 0%nat))
  = [sample_text; "Title"; "Heading1"; "line1"; "line2"; "Heading2"; "line3"].
Proof.
  rewrite (chunk_document_lines numbered_uuid4 "doc-1" sample_text ∅ 0%nat);
    reflexivity.
Defined.

(** ** A query for no hit *)

Lemma b64_sparse_retrieval_zero corpus bm25 query hits :
  Binary64._sparse_retrieval corpus bm25 query 0 = Ok hits -> hits = [].
Proof.
  unfold Binary64._sparse_retrieval.
  destruct corpus as [e|[|doc docs]]; [discriminate|now intros [= <-]|].
  cbn [rbind].
  destruct (bm25 (map doc_tokens (doc :: docs)) (tokenize query))
    as [e|scores]; [discriminate|].
  cbn [rbind]. now intros [= <-].
Qed.

(** X25: [top_k = 0] is accepted by the request model.  [retrieve] then
    returns no hit whenever it returns, and [answer] either passes on the
    exception of [retrieve] or gives the fixed sentence, ungrounded and
    without references, without consulting the chain.  [retrieve] does
    return there when its two branches return, [rrf_k] is not negative
    and every [rrf_k + rank] is below [2 ** 53]. *)
Theorem answer_top_k_zero
    (model : option (list string -> list (list Q)))
    (dense_search : list Q -> Z -> result (list Hit))
    (corpus : result (list CorpusDoc))
    (bm25_get_scores : list (list string) -> list string -> result (list Q))
    (rrf_k : Z) (chain : option (string -> string -> result string))
    (format_4f : Q -> string) (question : string) (audit_trail : bool) :
  let retriever :=
    Binary64.retrieve model dense_search corpus bm25_get_scores rrf_k in
  match retriever question 0 with
  | inl e =>
      answer retriever chain format_4f question 0 audit_trail = Raise e
  | inr out =>
      out = []
      /\ answer retriever chain format_4f question 0 audit_trail
         = Ok (mkQueryResult "No relevant answer found." [] false)
  end
  /\ (forall dense_hits sparse_hits,
        Binary64._dense_retrieval model dense_search question 0
        = Ok dense_hits ->
        Binary64._sparse_retrieval corpus bm25_get_scores question 0
        = Ok sparse_hits ->
        0 <= rrf_k ->
        rrf_k + Z.of_nat (length dense_hits) < 2 ^ 53 ->
        retriever question 0 = Ok []).
Proof.
  intros retriever.
  assert (forall out, retriever question 0 = Ok out -> out = []) as Hnil.
  { intros out. unfold retriever, Binary64.retrieve.
    destruct (Binary64._dense_retrieval model dense_search question (0 * 2))
      as [e|d]; [discriminate|]. cbn [rbind].
    destruct (Binary64._sparse_retrieval corpus bm25_get_scores question
                (0 * 4)) as [e|s]; [discriminate|]. cbn [rbind].
    rewrite b64_fuse_hits.
    destruct (Binary64.reciprocal_rank_fusion _ rrf_k) as [e|fused];
      [discriminate|]. cbn [rbind]. now intros [= <-]. }
  split.
  - unfold answer.
    destruct (retriever question 0) as [e|out] eqn:E; [reflexivity|].
    rewrite (Hnil out eq_refl). split; [reflexivity|].
    now destruct audit_trail.
  - intros d s Hd Hs Hk Hlen.
    pose proof (b64_sparse_retrieval_zero _ _ _ _ Hs) as ->.
    unfold retriever.
    rewrite (b64_retrieve model dense_search corpus bm25_get_scores rrf_k
               question 0 d [] Hd Hs).
    rewrite b64_fuse_hits.
    destruct (b64_reciprocal_rank_fusion_ok (branch_rankings d []) rrf_k Hk)
      as [fused ->]; [|reflexivity].
    unfold branch_rankings. repeat constructor; cbn [snd map length];
      [rewrite length_map; exact Hlen|lia].
Qed.

Lemma answer_top_k_zero_witness :
  answer (Binary64.retrieve None (returning sample_dense_search)
            (Ok sample_corpus) (returning sample_bm25) 60)
         None sample_format_4f "b" 0 true
  = Ok (mkQueryResult "No relevant answer found." [] false).
Proof.
  pose proof (answer_top_k_zero None (returning sample_dense_search)
                (Ok sample_corpus) (returning sample_bm25) 60 None
                sample_format_4f "b" true) as [H Hret].
  rewrite (Hret (sample_dense_search [] 0) []) in H;
    [exact (proj2 H)|reflexivity|reflexivity|lia|vm_compute; reflexivity].
Defined.

(** ** Rank fusion is monotone *)

Lemma rank_from_ge (c : string) (items : list (string * Q)) :
  forall rank r, rank_from rank c items = Some r -> rank <= r.
Proof.
  induction items as [|[c' s] items IH]; intros rank r; simpl; [discriminate|].
  destruct (decide (c' = c)); [intros [= <-]; lia|].
  intros H. apply IH in H. lia.
Qed.

Lemma contribution_nonneg (k : Z) (items : list (string * Q)) (c : string) :
  0 <= k -> (0 <= contribution k items c)%Q.
Proof.
  intros Hk. unfold contribution, rank_of.
  destruct (rank_from 1 c items) as [r|] eqn:E; [|apply Qle_refl].
  apply rank_from_ge in E. unfold Qdiv. rewrite Qmult_1_l.
  apply Qinv_le_0_compat. change 0%Q with (inject_Z 0).
  rewrite <- Zle_Qle. lia.
Qed.

(** X26: the fusion is monotone in the ranks.  With [k >= 0] and sources
    that list no chunk twice, a chunk that every source listing a second
    chunk also lists, at the same rank or better, has a fused score at
    least as high as the second chunk's. *)
Theorem reciprocal_rank_fusion_monotone
    (rankings : PyDict.t (list (string * Q))) (k : Z)
    (out : list (string * Q * string))
    (c1 c2 : string) (s1 s2 : Q) (src1 src2 : string) :
  0 <= k ->
  Forall (fun si => NoDup (map fst (snd si))) rankings ->
  Forall (fun si =>
            forall r2, rank_of c2 (snd si) = Some r2 ->
                       exists r1, rank_of c1 (snd si) = Some r1 /\ r1 <= r2)
         rankings ->
  reciprocal_rank_fusion rankings k = Ok out ->
  (c1, s1, src1) ∈ out ->
  (c2, s2, src2) ∈ out ->
  (s2 <= s1)%Q.
Proof.
  intros Hk Hnd Hdom Hout H1 H2.
  destruct (fused_entry _ _ _ _ _ _ Hout H1) as [E1 _].
  destruct (fused_entry _ _ _ _ _ _ Hout H2) as [E2 _].
  rewrite E1, E2, !(occ_total_fused_score k rankings _ Hnd).
  clear -Hk Hdom. induction Hdom as [|[src items] rest Hd _ IH];
    [apply Qle_refl|].
  cbn [fused_score]. apply Qplus_le_compat; [|exact IH].
  cbn [snd] in Hd. unfold contribution at 1.
  destruct (rank_of c2 items) as [r2|] eqn:E2;
    [|now apply contribution_nonneg].
  destruct (Hd r2 eq_refl) as (r1 & E1 & Hle).
  unfold contribution. rewrite E1. unfold Qdiv. rewrite !Qmult_1_l.
  apply rank_from_ge in E1. apply Qinv_le_pos; lia.
Qed.

Lemma reciprocal_rank_fusion_monotone_witness :
  reciprocal_rank_fusion
    [("dense", [("b", 1%Q); ("a", 1%Q)]); ("sparse", [("b", 1%Q)])] 60
  = Ok [("b", 122 # 3721, "dense"); ("a", 1 # 62, "dense")]
  /\ (1 # 62 <= 122 # 3721)%Q.
Proof.
  assert (reciprocal_rank_fusion
            [("dense", [("b", 1%Q); ("a", 1%Q)]); ("sparse", [("b", 1%Q)])] 60
          = Ok [("b", 122 # 3721, "dense"); ("a", 1 # 62, "dense")]) as Hout
    by (vm_compute; reflexivity).
  split; [exact Hout|].
  apply (reciprocal_rank_fusion_monotone
           [("dense", [("b", 1%Q); ("a", 1%Q)]); ("sparse", [("b", 1%Q)])] 60
           [("b", 122 # 3721, "dense"); ("a", 1 # 62, "dense")]
           "b" "a" _ _ "dense" "dense").
  - lia.
  - repeat constructor; apply (bool_decide_unpack _); vm_compute; exact I.
  - repeat constructor; cbn [snd]; intros r2 Hr; vm_compute in Hr.
    + injection Hr as <-. exists 1. split; [reflexivity|lia].
    + discriminate Hr.
  - exact Hout.
  - apply list_elem_of_here.
  - apply list_elem_of_further, list_elem_of_here.
Defined.

(** ** The two tokenizers *)

Lemma fields_ext (sep1 sep2 : ascii -> bool) (s : string) :
  all_chars (fun c => Bool.eqb (sep1 c) (sep2 c)) s = true ->
  PyStr.fields sep1 s = PyStr.fields sep2 s.
Proof.
  induction s as [|c s IH]; [reflexivity|].
  simpl. intros H. apply andb_prop in H as [Hc Hs].
  apply Bool.eqb_prop in Hc. now rewrite Hc, (IH Hs).
Qed.

(** X27: the chunker's tokenizer and the embedder's tokenizer agree on a
    text made of word characters and white space only: there the maximal
    runs of word characters are the whitespace-separated words. *)
Theorem tokenizers_agree (text : string) :
  all_chars (fun c => HierarchicalChunker.is_word c || PyStr.isspace c) text
  = true ->
  HierarchicalChunker.tokenize [text] = [tokenize text].
Proof.
  intros H. unfold HierarchicalChunker.tokenize. cbn [map]. f_equal.
  rewrite tokenize_lower_split. f_equal.
  unfold HierarchicalChunker.findall_word, PyStr.split. f_equal.
  apply fields_ext. revert H. apply all_chars_impl.
  intros c Hc. apply orb_prop in Hc as [Hw|Hs].
  - now rewrite Hw, (is_word_not_space c Hw).
  - destruct (HierarchicalChunker.is_word c) eqn:Hw.
    + rewrite (is_word_not_space c Hw) in Hs. discriminate Hs.
    + now rewrite Hs.
Qed.

Lemma tokenizers_agree_witness :
  HierarchicalChunker.tokenize ["Net Revenue 2023"]
  = [tokenize "Net Revenue 2023"].
Proof. apply tokenizers_agree. reflexivity. Defined.
